(** * simulatedev: the web-interaction and task-lifecycle engine

    A shallow embedding of [agents/web_agent.py] (class [WebAgent]) and
    [agents/openai_codex_agent.py] (class [OpenAICodexAgent]).

    - Python strings are [string]s of code points below 256.
    - The browser-automation engine is an external collaborator: every call
      the agent makes on it is an [Op], answered by an abstract, stateful
      [World].  A call either completes with a value or fails with a message,
      which the agent sees as a raised exception.
    - The agent code lives in a state-and-exception monad [M] whose state (the
      agent's attributes, the world, the trace of calls made so far) survives
      a raised exception, as the attributes of a Python object do.
    - [time.time() * 1000] is an integer number of milliseconds.
    - Console output ([print]) is not modelled. *)

From Stdlib Require Import String Ascii List ZArith NArith Bool Lia Arith.
Import ListNotations.

Local Open Scope string_scope.

(* ===================================================================== *)
(** * Python string operations                                            *)
(* ===================================================================== *)

Module PyStr.

(** [s.startswith(p)] *)
Fixpoint startswith (p s : string) : bool :=
  match p, s with
  | EmptyString, _ => true
  | String a p', String b s' => Ascii.eqb a b && startswith p' s'
  | String _ _, EmptyString => false
  end.

(** [sub in s] *)
Fixpoint contains (sub s : string) : bool :=
  startswith sub s ||
  match s with
  | EmptyString => false
  | String _ s' => contains sub s'
  end.

(** [c * n] for a one-character string [c] *)
Fixpoint repeat_char (c : ascii) (n : nat) : string :=
  match n with
  | O => EmptyString
  | S n' => String c (repeat_char c n')
  end.

(** [sep.join(parts)] *)
Fixpoint join (sep : string) (parts : list string) : string :=
  match parts with
  | [] => EmptyString
  | [x] => x
  | x :: rest => x ++ sep ++ join sep rest
  end.

(** [s[:n]] *)
Fixpoint take (n : nat) (s : string) : string :=
  match n, s with
  | S n', String c s' => String c (take n' s')
  | _, _ => EmptyString
  end.

(** [s.split('/')[-1]]: the text after the last occurrence of [sep]. *)
Fixpoint last_segment (sep : ascii) (s : string) : string :=
  match s with
  | EmptyString => EmptyString
  | String c s' =>
      if Ascii.eqb c sep
      then last_segment sep s'
      else if contains (String sep EmptyString) s'
           then last_segment sep s'
           else s
  end.

(** [str.isspace] on one code point below 256. *)
Definition is_space (c : ascii) : bool :=
  let n := N_of_ascii c in
  ((9 <=? n) && (n <=? 13) || (28 <=? n) && (n <=? 32)
   || (n =? 133) || (n =? 160))%N.

Fixpoint lstrip (s : string) : string :=
  match s with
  | String c s' => if is_space c then lstrip s' else s
  | EmptyString => EmptyString
  end.

(** Drops the trailing white space: the result is empty when all of [s] is
    white space. *)
Fixpoint rstrip (s : string) : string :=
  match s with
  | EmptyString => EmptyString
  | String c s' =>
      match rstrip s' with
      | EmptyString => if is_space c then EmptyString else String c EmptyString
      | t => String c t
      end
  end.

(** [s.strip()] *)
Definition strip (s : string) : string := rstrip (lstrip s).

(** Truth value of a [str]. *)
Definition truthy (s : string) : bool :=
  match s with EmptyString => false | _ => true end.

(** Truth value of an [Optional[str]]. *)
Definition truthy_opt (o : option string) : bool :=
  match o with Some s => truthy s | None => false end.

End PyStr.

(* ===================================================================== *)
(** * The fragment of Python's [re] used by the agent                     *)
(* ===================================================================== *)

Module Re.

Inductive regex : Type :=
| Chr (c : ascii)                    (* a literal character *)
| Cls (f : ascii -> bool)            (* a character class [...] *)
| Seq (r1 r2 : regex)                (* r1 r2 *)
| Grp (i : nat) (r : regex)          (* capturing group number i: (r) *)
| NonCap (r : regex)                 (* (?:r) *)
| Plus (greedy : bool) (r : regex)   (* r+ and r+? *)
| Opt (r : regex)                    (* r? *)
| Eol                                (* $ *)
| Eps.                               (* the empty pattern *)

(** A literal string. *)
Fixpoint Lit (s : string) : regex :=
  match s with
  | EmptyString => Eps
  | String c s' => Seq (Chr c) (Lit s')
  end.

Definition captures := list (nat * string).

Fixpoint group (i : nat) (caps : captures) : option string :=
  match caps with
  | [] => None
  | (j, s) :: rest => if Nat.eqb i j then Some s else group i rest
  end.

(** [\w] on a [str] pattern: alphanumeric code points and the underscore. *)
Definition is_word (c : ascii) : bool :=
  let n := N_of_ascii c in
  ((48 <=? n) && (n <=? 57) || (65 <=? n) && (n <=? 90) || (n =? 95)
   || (97 <=? n) && (n <=? 122)
   || (n =? 170) || (n =? 178) || (n =? 179) || (n =? 181) || (n =? 185)
   || (n =? 186) || (188 <=? n) && (n <=? 190)
   || (192 <=? n) && (n <=? 214) || (216 <=? n) && (n <=? 246)
   || (248 <=? n) && (n <=? 255))%N.

(** Backtracking matcher in continuation-passing style: [k] is what has to
    match after [r]; alternatives are tried in the engine's priority order
    and the first complete match wins.  [fuel] bounds the iterations of a
    [Plus]; one more than the length of the subject is always enough, since
    the repeated classes consume a character each time. *)
Fixpoint mtch (r : regex) (fuel : nat) (s : string) (caps : captures)
         (k : string -> captures -> option captures) {struct r}
  : option captures :=
  match r with
  | Chr c =>
      match s with
      | String a s' => if Ascii.eqb a c then k s' caps else None
      | EmptyString => None
      end
  | Cls f =>
      match s with
      | String a s' => if f a then k s' caps else None
      | EmptyString => None
      end
  | Seq r1 r2 =>
      mtch r1 fuel s caps (fun s1 caps1 => mtch r2 fuel s1 caps1 k)
  | Grp i r1 =>
      mtch r1 fuel s caps
           (fun s1 caps1 =>
              k s1 ((i, PyStr.take (String.length s - String.length s1) s)
                      :: caps1))
  | NonCap r1 => mtch r1 fuel s caps k
  | Plus greedy r1 =>
      (fix loop (n : nat) (s0 : string) (caps0 : captures) {struct n}
         : option captures :=
         match n with
         | O => None
         | S n' =>
             mtch r1 fuel s0 caps0
                  (fun s1 caps1 =>
                     if greedy
                     then match loop n' s1 caps1 with
                          | Some c => Some c
                          | None => k s1 caps1
                          end
                     else match k s1 caps1 with
                          | Some c => Some c
                          | None => loop n' s1 caps1
                          end)
         end) fuel s caps
  | Opt r1 =>
      match mtch r1 fuel s caps k with
      | Some c => Some c
      | None => k s caps
      end
  | Eol =>
      (* end of the string, or just before a newline that ends it *)
      match s with
      | EmptyString => k s caps
      | String a EmptyString =>
          if Ascii.eqb a "010"%char then k s caps else None
      | _ => None
      end
  | Eps => k s caps
  end.

(** The match attempt at one start position. *)
Definition match_here (r : regex) (fuel : nat) (s : string) : option captures :=
  mtch r fuel s [] (fun _ caps => Some caps).

Fixpoint search_from (r : regex) (fuel : nat) (s : string) : option captures :=
  match match_here r fuel s with
  | Some c => Some c
  | None =>
      match s with
      | EmptyString => None
      | String _ s' => search_from r fuel s'
      end
  end.

(** [re.search(r, s)]: the leftmost start position with a match. *)
Definition search (r : regex) (s : string) : option captures :=
  search_from r (S (String.length s)) s.

End Re.

(* ===================================================================== *)
(** * Repository name extraction ([OpenAICodexAgent._extract_repo_name])  *)
(* ===================================================================== *)

(** [[\w\-\.]] *)
Definition name_char (c : ascii) : bool :=
  Re.is_word c || Ascii.eqb c "-"%char || Ascii.eqb c "."%char.

(** [r'github\.com[/:]([\w\-\.]+)/([\w\-\.]+?)(?:\.git)?/?$'] *)
Definition repo_pattern : Re.regex :=
  Re.Seq (Re.Lit "github.com")
    (Re.Seq (Re.Cls (fun c => Ascii.eqb c "/"%char || Ascii.eqb c ":"%char))
    (Re.Seq (Re.Grp 1 (Re.Plus true (Re.Cls name_char)))
    (Re.Seq (Re.Chr "/"%char)
    (Re.Seq (Re.Grp 2 (Re.Plus false (Re.Cls name_char)))
    (Re.Seq (Re.Opt (Re.NonCap (Re.Lit ".git")))
    (Re.Seq (Re.Opt (Re.Chr "/"%char))
            Re.Eol)))))).

Definition _extract_repo_name (repo_url : string) : string :=
  if negb (PyStr.truthy repo_url) then ""
  else
    match Re.search repo_pattern repo_url with
    | Some caps =>
        match Re.group 1 caps, Re.group 2 caps with
        | Some username, Some repo_name => username ++ "/" ++ repo_name
        | _, _ => ""
        end
    | None => ""
    end.

(* ===================================================================== *)
(** * The browser-automation engine as seen by the agent                  *)
(* ===================================================================== *)

(** Handles of the objects the engine hands out (client, browser, page,
    element). *)
Definition handle := nat.

(** The [state=] argument of [wait_for_selector]. *)
Inductive wait_state : Type := visible | hidden.

(** The calls the agent makes on its collaborators. *)
Inductive Op : Type :=
(* botright *)
| Botright_start
| new_browser (client : handle)
| botright_close (client : handle)
(* browser *)
| new_page (b : handle)
| browser_close (b : handle)
(* page *)
| page_close (p : handle)
| set_default_timeout (p : handle) (ms : Z)
| set_default_navigation_timeout (p : handle) (ms : Z)
| goto (p : handle) (url : string) (timeout : Z)
| wait_for_selector (p : handle) (selector : string)
                    (state : option wait_state) (timeout : Z)
| wait_for_load_state (p : handle) (state : string)
| wait_for_timeout (p : handle) (ms : Z)
| query_selector (p : handle) (selector : string)
| query_selector_all (p : handle) (selector : string)
| keyboard_press (p : handle) (key : string)
| page_url (p : handle)
| page_content (p : handle)
| solve_hcaptcha (p : handle)
| solve_recaptcha (p : handle)
| solve_geetest (p : handle)
(* element *)
| is_visible (e : handle)
| is_enabled (e : handle)
| scroll_into_view_if_needed (e : handle)
| click (e : handle)
| focus (e : handle)
| select_text (e : handle)
| fill (e : handle) (text : string)
| input_value (e : handle)
| text_content (e : handle)
| inner_text (e : handle)
| get_attribute (e : handle) (name : string)
| evaluate (e : handle) (script : string)
(* process environment and clock *)
| getenv (name : string)
| time_time.

(** The type of the value each call returns. *)
Definition Ret (o : Op) : Type :=
  match o with
  | Botright_start | new_browser _ | new_page _ => handle
  | query_selector _ _ => option handle
  | query_selector_all _ _ => list handle
  | page_url _ | page_content _ | input_value _ | inner_text _ => string
  | is_visible _ | is_enabled _ => bool
  | text_content _ | get_attribute _ _ | getenv _ => option string
  | time_time => Z
  | _ => unit
  end.

(** What the collaborator answers: a value, or a failure with its message. *)
Inductive reply (A : Type) : Type :=
| Done (a : A)
| Failed (msg : string).
Arguments Done {A} a.
Arguments Failed {A} msg.

(** One call with its answer. *)
Record Event : Type := Ev { ev_op : Op; ev_reply : reply (Ret ev_op) }.

(** ** Exceptions and results

    [AgentTimeoutException] is declared in [common/exceptions.py], which is
    not among the sources; the agent constructs it with the three arguments
    below and tests for it with [isinstance] inside an [except Exception]
    clause, so it is an [Exception] like the others: every [except] clause
    of the agents catches every exception of this type. *)

Inductive exn : Type :=
| PlaywrightError (msg : string)   (* raised by the automation engine *)
| Exception (msg : string)         (* [raise Exception(msg)] in the agent *)
| AttributeError (msg : string)    (* a method called on [None] *)
| AgentTimeoutException (agent_name : string) (timeout_seconds : Z)
                        (msg : string).

(** [isinstance(e, AgentTimeoutException)] *)
Definition is_agent_timeout (e : exn) : bool :=
  match e with AgentTimeoutException _ _ _ => true | _ => false end.

(** [str(e)] *)
Definition exn_str (e : exn) : string :=
  match e with
  | PlaywrightError m | Exception m | AttributeError m => m
  | AgentTimeoutException _ _ m => m
  end.

(** The outcome of a computation: a value, a raised exception, or the
    model's loop budget used up ([OutOfFuel], which no handler catches). *)
Inductive res (A : Type) : Type :=
| Ok (a : A)
| Raise (e : exn)
| OutOfFuel.
Arguments Ok {A} a.
Arguments Raise {A} e.
Arguments OutOfFuel {A}.

(** [class WebAutomationConfig] *)
Module WebAutomationConfig.
Definition DEFAULT_TIMEOUT : Z := 30000.
Definition SHORT_TIMEOUT : Z := 10000.
Definition LONG_TIMEOUT : Z := 60000.
Definition RETRY_COUNT : Z := 3.
Definition RETRY_DELAY : Z := 2000.
Definition ELEMENT_STABILITY_TIMEOUT : Z := 1000.
Definition NETWORK_IDLE_TIMEOUT : Z := 5000.
End WebAutomationConfig.
Import WebAutomationConfig.

(** [class GoogleSelectors] *)
Module GoogleSelectors.
Definition EMAIL_INPUTS : list string :=
  ["input[type='email']"; "#identifierId"; "input[name='email']";
   "input[autocomplete='username']"].
Definition EMAIL_NEXT_BUTTONS : list string :=
  ["#identifierNext"; "button:has-text('Next')"; "input[type='submit']";
   "button[type='submit']"].
Definition PASSWORD_INPUTS : list string :=
  ["input[type='password']"; "input[name='password']"; "#password";
   "input[autocomplete='current-password']"].
Definition PASSWORD_NEXT_BUTTONS : list string :=
  ["#passwordNext"; "button:has-text('Next')"; "input[type='submit']";
   "button[type='submit']"].
End GoogleSelectors.

(** [class CodexSelectors]; the two selectors with a [{repo_name}] field are
    functions of the name ([str.format]). *)
Module CodexSelectors.
Definition LOGIN_BUTTON := "button[data-testid='login-button']".
Definition GOOGLE_BUTTON := "button:has-text('Continue with Google')".
Definition PROMPT_INPUT := "#prompt-textarea".
Definition CODE_BUTTON := "button:has-text('Code')".
Definition CHAT_INPUT := "#prompt-textarea".
Definition USE_THIS_BUTTON := "button:has-text('Use this')".
Definition CREATE_ENV_BUTTON := "button.btn-primary".
Definition EXISTING_REPO_ROW (repo_name : string) :=
  "tr.group\/row:has-text('" ++ repo_name ++ "')".
Definition NEW_REPO_BUTTON (repo_name : string) :=
  "button:has(p.text-token-text-primary.text-start.text-sm.font-medium:text('"
    ++ repo_name ++ "'))".
Definition FINAL_CREATE_BUTTON :=
  "div.flex.items-center.justify-center:text('Create environment')".
Definition REPO_LIST_CONTAINER := ".flex.max-h-56.flex-col.overflow-y-auto".
Definition REPO_NAME_ELEMENTS := "button p.text-token-text-primary".
Definition TASK_LINK := ".task-row-container a".
Definition STOP_BUTTON :=
  "button[aria-label='stop-button'], button[data-testid='stop-button']".
Definition CREATE_PR_BUTTON :=
  "div.btn-primary button:has(span:text('Create PR'))".
Definition VIEW_PR_LINK := "a:has(span:text('View PR'))".
Definition OUTPUT_CONTENT :=
  "div.markdown.prose, div[class*='markdown'][class*='prose']".
Definition LOADING := ".animate-pulse, .loading, [role='progressbar']".
End CodexSelectors.

(** The attributes of a [WebAgent] instance. *)
Record Agent : Type := mkAgent {
  botright_client : option handle;
  browser : option handle;
  page : option handle;
  _is_browser_ready : bool;
  repo_url : option string;
  original_repo_url : option string
}.

(** [WebAgent.__init__] *)
Definition new_agent : Agent :=
  mkAgent None None None false None None.

(** Modelled from the spec: [AgentResponse] is declared in [agents/base.py],
    which is not among the sources; it is the spec's [TaskResult], with the
    three fields the agents set. *)
Record AgentResponse : Type := mkResponse {
  content : string;
  success : bool;
  error_message : option string
}.

(** [x or default] on an optional integer: [None] and [0] are falsy. *)
Definition or_default (x : option Z) (default : Z) : Z :=
  match x with
  | Some v => if (v =? 0)%Z then default else v
  | None => default
  end.

(* ===================================================================== *)
(** * The agent                                                           *)
(* ===================================================================== *)

(** The collaborators as an interface.  [World] is the state of everything
    outside the agent: browser, pages, remote service, process environment.
    [respond] is how the world answers a call and what it becomes; [clock] is
    [time.time() * 1000]: reading the clock cannot fail, but time may pass. *)
Class Engine (World : Type) : Type := {
  respond : forall o : Op, World -> reply (Ret o) * World;
  clock : World -> Z * World
}.

Section Agent.

Context {World : Type} {engine : Engine World}.

Record State : Type := mkState {
  agent : Agent;
  world : World;
  trace : list Event
}.

(** ** The monad of agent code *)

Definition M (A : Type) : Type := State -> res A * State.

Definition ret {A} (a : A) : M A := fun s => (Ok a, s).

Definition bind {A B} (c : M A) (k : A -> M B) : M B :=
  fun s =>
    match c s with
    | (Ok a, s') => k a s'
    | (Raise e, s') => (Raise e, s')
    | (OutOfFuel, s') => (OutOfFuel, s')
    end.

Definition raise {A} (e : exn) : M A := fun s => (Raise e, s).

Definition out_of_fuel {A} : M A := fun s => (OutOfFuel, s).

(** [try: c  except Exception as e: h e] *)
Definition try_catch {A} (c : M A) (h : exn -> M A) : M A :=
  fun s =>
    match c s with
    | (Raise e, s') => h e s'
    | r => r
    end.

Notation "x <- c ;; k" := (bind c (fun x => k))
  (at level 61, c at next level, right associativity).
Notation "c ;; k" := (bind c (fun _ => k))
  (at level 61, right associativity).

(** Reading and writing the attributes of [self]. *)
Definition gets {A} (f : Agent -> A) : M A := fun s => (Ok (f (agent s)), s).

Definition modify (f : Agent -> Agent) : M unit :=
  fun s => (Ok tt, mkState (f (agent s)) (world s) (trace s)).

Definition set_botright_client (v : option handle) (a : Agent) : Agent :=
  mkAgent v (browser a) (page a) (_is_browser_ready a) (repo_url a)
          (original_repo_url a).
Definition set_browser (v : option handle) (a : Agent) : Agent :=
  mkAgent (botright_client a) v (page a) (_is_browser_ready a) (repo_url a)
          (original_repo_url a).
Definition set_page (v : option handle) (a : Agent) : Agent :=
  mkAgent (botright_client a) (browser a) v (_is_browser_ready a) (repo_url a)
          (original_repo_url a).
Definition set_ready (v : bool) (a : Agent) : Agent :=
  mkAgent (botright_client a) (browser a) (page a) v (repo_url a)
          (original_repo_url a).

(** [set_repository_context] *)
Definition set_repository_context (url : string) (original : option string)
  : M unit :=
  modify (fun a => mkAgent (botright_client a) (browser a) (page a)
                           (_is_browser_ready a) (Some url) original).

(** [get_working_repo_url] *)
Definition get_working_repo_url : M (option string) := gets repo_url.

(** A call on a collaborator: the world answers, the call is recorded, and a
    failure is raised as an exception. *)
Definition call (o : Op) : M (Ret o) :=
  fun s =>
    let (r, w) := respond o (world s) in
    let s' := mkState (agent s) w (trace s ++ [Ev o r]) in
    match r with
    | Done a => (Ok a, s')
    | Failed m => (Raise (PlaywrightError m), s')
    end.

(** [time.time() * 1000] *)
Definition now : M Z :=
  fun s =>
    let (t, w) := clock (world s) in
    (Ok t, mkState (agent s) w (trace s ++ [Ev time_time (Done t)])).

(** [self.page.<method>]: an [AttributeError] when [self.page] is [None]. *)
Definition the_page : M handle :=
  p <- gets page ;;
  match p with
  | Some h => ret h
  | None => raise (AttributeError "'NoneType' object has no attribute")
  end.

(** [if self.page: await self.page.wait_for_timeout(ms)] *)
Definition wait_if_page (ms : Z) : M unit :=
  p <- gets page ;;
  match p with
  | Some h => call (wait_for_timeout h ms)
  | None => ret tt
  end.

(** ** Browser lifecycle *)

(** [_cleanup_browser] *)
Definition _cleanup_browser : M unit :=
  try_catch
    (modify (set_ready false) ;;
     p <- gets page ;;
     match p with
     | Some h => call (page_close h) ;; modify (set_page None)
     | None => ret tt
     end ;;
     b <- gets browser ;;
     match b with
     | Some h => call (browser_close h) ;; modify (set_browser None)
     | None => ret tt
     end ;;
     c <- gets botright_client ;;
     match c with
     | Some h => call (botright_close h) ;; modify (set_botright_client None)
     | None => ret tt
     end)
    (fun _ => ret tt).

(** [close_coding_interface] *)
Definition close_coding_interface : M bool :=
  try_catch (_cleanup_browser ;; ret true) (fun _ => ret false).

(** ** Retrying interactions *)

(** The loop shared by [_robust_navigate], [_robust_click_element] and
    [_robust_fill_input]:
<<
    for attempt in range(max_retries):
        try:
            BODY            # returns, or raises
        except Exception as e:
            if attempt < max_retries - 1 and self.page:
                await self.page.wait_for_timeout(self.config.RETRY_DELAY)
            else:
                return False
    return False
>>
    [remaining] counts the iterations of [range(max_retries)] still to run. *)
Fixpoint retry_loop (body : M bool) (max_retries : Z) (remaining : nat)
         (attempt : Z) : M bool :=
  match remaining with
  | O => ret false
  | S remaining' =>
      try_catch body
        (fun _ =>
           p <- gets page ;;
           match (attempt <? max_retries - 1)%Z, p with
           | true, Some h =>
               call (wait_for_timeout h RETRY_DELAY) ;;
               retry_loop body max_retries remaining' (attempt + 1)%Z
           | _, _ => ret false
           end)
  end.

(** [_robust_navigate] *)
Definition _robust_navigate (url : string) (max_retries : option Z) : M bool :=
  let max_retries := or_default max_retries RETRY_COUNT in
  p <- gets page ;;
  match p with
  | None => ret false
  | Some _ =>
      retry_loop
        (h <- the_page ;;
         call (goto h url LONG_TIMEOUT) ;;
         ret true)
        max_retries (Z.to_nat max_retries) 0%Z
  end.

(** [_wait_for_element_robust] *)
Definition _wait_for_element_robust (selector description : string)
           (timeout : option Z) (state : wait_state) : M bool :=
  let timeout := or_default timeout DEFAULT_TIMEOUT in
  try_catch
    (p <- gets page ;;
     match p with
     | None => ret false
     | Some h =>
         call (wait_for_selector h selector (Some state) timeout) ;;
         ret true
     end)
    (fun _ => ret false).

(** [_get_element_robust] *)
Definition _get_element_robust (selector description : string)
           (timeout : option Z) : M (option handle) :=
  let timeout := or_default timeout DEFAULT_TIMEOUT in
  try_catch
    (p <- gets page ;;
     match p with
     | None => ret None
     | Some h =>
         call (wait_for_selector h selector None timeout) ;;
         element <- call (query_selector h selector) ;;
         match element with
         | Some e => ret (Some e)
         | None => ret None
         end
     end)
    (fun _ => ret None).

(** The [try] block of one iteration of [_robust_click_element]. *)
Definition click_attempt (selector description : string) : M bool :=
  p <- gets page ;;
  match p with
  | None => raise (Exception "Page not available")
  | Some h =>
      call (wait_for_selector h selector (Some visible) DEFAULT_TIMEOUT) ;;
      element <- call (query_selector h selector) ;;
      match element with
      | None => raise (Exception ("Element not found: " ++ selector))
      | Some e =>
          v <- call (is_visible e) ;;
          actionable <- (if v then call (is_enabled e) else ret false) ;;
          if actionable then
            call (scroll_into_view_if_needed e) ;;
            wait_if_page ELEMENT_STABILITY_TIMEOUT ;;
            call (click e) ;;
            ret true
          else
            raise (Exception ("Element not actionable: " ++ description))
      end
  end.

(** [_robust_click_element] *)
Definition _robust_click_element (selector description : string)
           (max_retries : option Z) : M bool :=
  let max_retries := or_default max_retries RETRY_COUNT in
  retry_loop (click_attempt selector description)
             max_retries (Z.to_nat max_retries) 0%Z.

(** The [try] block of one iteration of [_robust_fill_input]. *)
Definition fill_attempt (selector text : string) : M bool :=
  p <- gets page ;;
  match p with
  | None => raise (Exception "Page not available")
  | Some h =>
      call (wait_for_selector h selector (Some visible) DEFAULT_TIMEOUT) ;;
      input_element <- call (query_selector h selector) ;;
      match input_element with
      | None => raise (Exception ("Input element not found: " ++ selector))
      | Some e =>
          v <- call (is_visible e) ;;
          actionable <- (if v then call (is_enabled e) else ret false) ;;
          if actionable then
            call (focus e) ;;
            call (select_text e) ;;
            p' <- gets page ;;
            match p' with
            | Some h' => call (keyboard_press h' "Delete")
            | None => ret tt
            end ;;
            call (fill e text) ;;
            current_value <- call (input_value e) ;;
            if String.eqb current_value text then ret true
            else
              raise (Exception ("Text verification failed. Expected: "
                                  ++ PyStr.take 50 text ++ "..., Got: "
                                  ++ PyStr.take 50 current_value ++ "..."))
          else
            raise (Exception "Input element not actionable")
      end
  end.

(** [_robust_fill_input] *)
Definition _robust_fill_input (selector text : string)
           (max_retries : option Z) : M bool :=
  let max_retries := or_default max_retries RETRY_COUNT in
  retry_loop (fill_attempt selector text)
             max_retries (Z.to_nat max_retries) 0%Z.

(** The loop of [_robust_fill_input_from_selectors]. *)
Fixpoint _robust_fill_input_from_selectors (selectors : list string)
         (text description : string) : M bool :=
  match selectors with
  | [] => ret false
  | selector :: rest =>
      r <- try_catch
             (p <- gets page ;;
              match p with
              | None => ret false
              | Some h =>
                  element <- call (query_selector h selector) ;;
                  match element with
                  | None => ret false
                  | Some e =>
                      v <- call (is_visible e) ;;
                      if v then _robust_fill_input selector text None
                      else ret false
                  end
              end)
             (fun _ => ret false) ;;
      if r then ret true
      else _robust_fill_input_from_selectors rest text description
  end.

(** The loop of [_robust_click_from_selectors]. *)
Fixpoint _robust_click_from_selectors (selectors : list string)
         (description : string) : M bool :=
  match selectors with
  | [] => ret false
  | selector :: rest =>
      r <- try_catch
             (p <- gets page ;;
              match p with
              | None => ret false
              | Some h =>
                  element <- call (query_selector h selector) ;;
                  match element with
                  | None => ret false
                  | Some e =>
                      v <- call (is_visible e) ;;
                      en <- (if v then call (is_enabled e) else ret false) ;;
                      if en then _robust_click_element selector description None
                      else ret false
                  end
              end)
             (fun _ => ret false) ;;
      if r then ret true
      else _robust_click_from_selectors rest description
  end.

(** The [while] loop of [_wait_for_login_completion]; [elapsed_ms] grows by
    the poll interval at each turn, so [fuel] turns suffice when [fuel] is at
    least [max_wait_ms / 5000 + 1]. *)
Fixpoint login_poll (fuel : nat) (h : handle) (elapsed_ms max_wait_ms : Z)
  : M bool :=
  match fuel with
  | O => out_of_fuel
  | S fuel' =>
      if (elapsed_ms <? max_wait_ms)%Z then
        call (wait_for_timeout h 5000) ;;
        let elapsed_ms := (elapsed_ms + 5000)%Z in
        current_url <- call (page_url h) ;;
        if negb (PyStr.contains "accounts.google.com" current_url)
        then ret true
        else login_poll fuel' h elapsed_ms max_wait_ms
      else ret false
  end.

(** [_wait_for_login_completion] *)
Definition _wait_for_login_completion (max_wait_seconds : Z) : M bool :=
  let max_wait_ms := (max_wait_seconds * 1000)%Z in
  p <- gets page ;;
  match p with
  | None => ret false
  | Some h =>
      try_catch
        (login_poll (S (Z.to_nat (max_wait_ms / 5000 + 1))) h 0%Z max_wait_ms)
        (fun _ => ret false)
  end.

(** [handle_google_login] *)
Definition handle_google_login : M bool :=
  try_catch
    (google_email <- call (getenv "GOOGLE_EMAIL") ;;
     google_password <- call (getenv "GOOGLE_PASSWORD") ;;
     match google_email, google_password with
     | Some email, Some password =>
         if negb (PyStr.truthy email) || negb (PyStr.truthy password)
         then ret false
         else
           p <- gets page ;;
           match p with
           | Some h => call (wait_for_load_state h "networkidle")
           | None => ret tt
           end ;;
           email_success <- _robust_fill_input_from_selectors
                              GoogleSelectors.EMAIL_INPUTS email "email input" ;;
           (if email_success then
              next_success <- _robust_click_from_selectors
                                GoogleSelectors.EMAIL_NEXT_BUTTONS
                                "email next button" ;;
              p <- gets page ;;
              match next_success, p with
              | true, Some h => call (wait_for_load_state h "networkidle")
              | _, _ => ret tt
              end
            else ret tt) ;;
           password_success <- _robust_fill_input_from_selectors
                                 GoogleSelectors.PASSWORD_INPUTS password
                                 "password input" ;;
           if password_success then
             submit_success <- _robust_click_from_selectors
                                 GoogleSelectors.PASSWORD_NEXT_BUTTONS
                                 "password next button" ;;
             if submit_success then _wait_for_login_completion 300
             else ret false
           else ret false
     | _, _ => ret false
     end)
    (fun _ => ret false).

(** The loop of [solve_captcha_if_present] over the three solvers. *)
Fixpoint try_solvers (solvers : list Op) : M bool :=
  match solvers with
  | [] => ret false
  | solve :: rest =>
      r <- try_catch (call solve ;; ret true) (fun _ => ret false) ;;
      if r then ret true else try_solvers rest
  end.

(** [solve_captcha_if_present] *)
Definition solve_captcha_if_present : M bool :=
  try_catch
    (p <- gets page ;;
     match p with
     | None => ret false
     | Some h =>
         try_solvers [solve_hcaptcha h; solve_recaptcha h; solve_geetest h]
     end)
    (fun _ => ret false).

(** ** The [WebAgent] base class

    Its abstract members are the variables of this section; a subclass
    supplies them, and may override [_setup_web_interface] and
    [execute_prompt]. *)

Section WebAgent.

Variable agent_name : string.
Variable web_url : string.
Variable input_selector : string.
Variable submit_selector : string.
Variable output_selector : string.
Variable loading_selector : option string.

(** The method [_setup_web_interface] of the instance. *)
Variable _setup_web_interface : M bool.

(** [self.output_file] and [self._read_output_file()], inherited from
    [CodingAgent] in [agents/base.py], which is not among the sources. *)
Variable output_file : string.
Variable _read_output_file : M string.

(** [config.agent_timeout_seconds] of [common/config.py], which is not among
    the sources. *)
Variable agent_timeout_seconds : Z.

(** [open_coding_interface] *)
Definition open_coding_interface : M bool :=
  try_catch
    (c <- gets botright_client ;;
     match c with
     | None =>
         h <- call Botright_start ;;
         modify (set_botright_client (Some h))
     | Some _ => ret tt
     end ;;
     b <- gets browser ;;
     match b with
     | None =>
         c <- gets botright_client ;;
         match c with
         | Some client =>
             h <- call (new_browser client) ;;
             modify (set_browser (Some h))
         | None => raise (AttributeError "'NoneType' object has no attribute")
         end
     | Some _ => ret tt
     end ;;
     b <- gets browser ;;
     match b with
     | Some bh =>
         ph <- call (new_page bh) ;;
         modify (set_page (Some ph)) ;;
         call (set_default_timeout ph DEFAULT_TIMEOUT) ;;
         call (set_default_navigation_timeout ph LONG_TIMEOUT) ;;
         navigation_success <- _robust_navigate web_url None ;;
         if negb navigation_success then ret false
         else
           setup_success <- _setup_web_interface ;;
           if negb setup_success then ret false
           else
             modify (set_ready true) ;;
             ret true
     | None => raise (AttributeError "'NoneType' object has no attribute")
     end)
    (fun _ => _cleanup_browser ;; ret false).

(** The default [_setup_web_interface] of the base class. *)
Definition default_setup_web_interface : M bool :=
  try_catch
    (solve_captcha_if_present ;;
     input_available <- _wait_for_element_robust input_selector "input field"
                          (Some DEFAULT_TIMEOUT) visible ;;
     if negb input_available then ret false else ret true)
    (fun _ => ret false).

(** [_send_prompt_to_web_interface] *)
Definition _send_prompt_to_web_interface (prompt : string) : M unit :=
  try_catch
    (ok <- _robust_fill_input input_selector prompt None ;;
     (if negb ok then raise (Exception "Failed to fill input field")
      else ret tt) ;;
     ok <- _robust_click_element submit_selector "submit button" None ;;
     (if negb ok then raise (Exception "Failed to click submit button")
      else ret tt) ;;
     wait_if_page RETRY_DELAY)
    (fun e =>
       raise (Exception ("Failed to send prompt to web interface: "
                           ++ exn_str e))).

(** One reading of the output area in [_monitor_output_changes]:
<<
    output_element = None
    if self.page:
        output_element = await self.page.query_selector(self.output_selector)
    current_content = ""
    if output_element:
        current_content = await output_element.text_content() or ""
>> *)
Definition read_output : M string :=
  p <- gets page ;;
  output_element <- match p with
                    | Some h => call (query_selector h output_selector)
                    | None => ret None
                    end ;;
  match output_element with
  | Some e =>
      t <- call (text_content e) ;;
      match t with
      | Some txt => ret txt
      | None => ret ""
      end
  | None => ret ""
  end.

Definition check_interval_ms : Z := 5000.
Definition stable_content_duration_ms : Z := 10000.

(** The [while] loop of [_monitor_output_changes].  The locals
    [last_content] and [last_change_time] are the loop's arguments.  In the
    source the whole loop body is one [try] whose handler waits for the check
    interval; here the body is cut where the locals change, each part under
    the same handler: the reading (which raises before any assignment) and
    the wait (which raises after them). *)
Fixpoint monitor_loop (fuel : nat) (timeout_ms start_time : Z)
         (last_content : string) (last_change_time : Z) : M unit :=
  match fuel with
  | O => out_of_fuel
  | S fuel' =>
      t <- now ;;
      if (t - start_time <? timeout_ms)%Z then
        r <- try_catch (c <- read_output ;; ret (Some c))
                       (fun _ => wait_if_page check_interval_ms ;; ret None) ;;
        match r with
        | None =>
            monitor_loop fuel' timeout_ms start_time
                         last_content last_change_time
        | Some current_content =>
            changed <- (if negb (String.eqb current_content last_content)
                        then t' <- now ;; ret (current_content, t')
                        else ret (last_content, last_change_time)) ;;
            let last_content := fst changed in
            let last_change_time := snd changed in
            current_time <- now ;;
            if ((stable_content_duration_ms
                   <=? current_time - last_change_time)%Z
                && Nat.ltb 100 (String.length current_content))%bool
            then ret tt
            else
              try_catch (wait_if_page check_interval_ms)
                        (fun _ => wait_if_page check_interval_ms) ;;
              monitor_loop fuel' timeout_ms start_time
                           last_content last_change_time
        end
      else
        raise (AgentTimeoutException agent_name (Z.quot timeout_ms 1000)
                                     "Web agent processing timed out")
  end.

(** [_monitor_output_changes] *)
Definition _monitor_output_changes (fuel : nat) (timeout_ms : Z) : M unit :=
  last_change_time <- now ;;
  start_time <- now ;;
  monitor_loop fuel timeout_ms start_time "" last_change_time.

(** [_wait_for_web_completion] *)
Definition _wait_for_web_completion (fuel : nat) : M unit :=
  let timeout_seconds := agent_timeout_seconds in
  let timeout_ms := (timeout_seconds * 1000)%Z in
  try_catch
    (p <- gets page ;;
     finished <-
       match loading_selector, p with
       | Some sel, Some h =>
           if PyStr.truthy sel then
             try_catch
               (call (wait_for_selector h sel (Some hidden) timeout_ms) ;;
                ret true)
               (fun _ => ret false)
           else ret false
       | _, _ => ret false
       end ;;
     if finished then ret tt
     else _monitor_output_changes fuel timeout_ms)
    (fun e =>
       if is_agent_timeout e then raise e else ret tt).

(** The prompt sent by [execute_prompt]: the task followed by the request to
    save a summary. *)
Definition nl : string := String "010"%char EmptyString.

Definition combined_prompt (prompt : string) : string :=
  prompt ++ nl ++ nl
  ++ "After completing the above task, please save a comprehensive summary of everything you did to a file called '"
  ++ output_file ++ "' in the current directory. Include:" ++ nl
  ++ "- All changes made" ++ nl
  ++ "- Explanations of what was done." ++ nl ++ nl
  ++ "IMPORTANT: Do NOT create or update any documentation files (such as README.md or docs/*) unless you are explicitly asked to do so in the original prompt. If you believe that creating a documentation file would help you better implement the required coding task, you may create it, but you must delete it once you are finished and before you finish the task.".

(** [WebAgent.execute_prompt] *)
Definition execute_prompt (fuel : nat) (prompt : string) : M AgentResponse :=
  try_catch
    (ready <- gets _is_browser_ready ;;
     p <- gets page ;;
     (if negb ready || negb (match p with Some _ => true | None => false end)
      then raise (Exception
                    "Browser not ready. Call open_coding_interface() first.")
      else ret tt) ;;
     _send_prompt_to_web_interface (combined_prompt prompt) ;;
     _wait_for_web_completion fuel ;;
     content <- _read_output_file ;;
     ret (mkResponse content true None))
    (fun e =>
       ret (mkResponse "" false
                       (Some ("Failed to execute prompt: " ++ exn_str e)))).

(** [get_web_output] *)
Definition get_web_output : M string :=
  try_catch
    (p <- gets page ;;
     match p with
     | None => ret ""
     | Some _ =>
         output_element <- _get_element_robust output_selector "output area"
                             None ;;
         match output_element with
         | Some e =>
             t <- call (text_content e) ;;
             match t with
             | Some txt => ret txt
             | None => ret ""
             end
         | None => ret ""
         end
     end)
    (fun _ => ret "").

End WebAgent.

(** ** The [OpenAICodexAgent] subclass *)

Section OpenAICodexAgent.

Import CodexSelectors.

(** [await self.page.<method>(...)] *)
Definition on_page {A} (k : handle -> M A) : M A :=
  h <- the_page ;; k h.

Definition codex_web_url : string :=
  "https://chatgpt.com/auth/login?next=/codex/settings/environments".
Definition codex_input_selector : string := PROMPT_INPUT.
Definition codex_submit_selector : string := CODE_BUTTON.
Definition codex_output_selector : string := TASK_LINK.
Definition codex_loading_selector : option string := Some LOADING.

(** [_wait_for_element] *)
Definition _wait_for_element (selector description : string) (timeout : Z)
  : M bool :=
  _wait_for_element_robust selector description (Some timeout) visible.

(** [_click_element] *)
Definition _click_element (selector description : string) : M bool :=
  _robust_click_element selector description None.

(** [_scroll_and_click] *)
Definition _scroll_and_click (element : handle) (description : string)
  : M unit :=
  try_catch
    (call (scroll_into_view_if_needed element) ;;
     on_page (fun h => call (wait_for_timeout h ELEMENT_STABILITY_TIMEOUT)) ;;
     v <- call (is_visible element) ;;
     actionable <- (if v then call (is_enabled element) else ret false) ;;
     if actionable then
       try_catch
         (call (click element))
         (fun _ => call (evaluate element "element => element.click()"))
     else
       raise (Exception ("Element " ++ description
                           ++ " not actionable after scrolling")))
    (fun _ => ret tt).

(** [_wait_for_loading_complete] *)
Definition _wait_for_loading_complete : M unit :=
  try_catch
    (loading_appeared <- _wait_for_element_robust LOADING "loading indicator"
                           (Some 5000%Z) visible ;;
     if loading_appeared then
       on_page (fun h => call (wait_for_selector h LOADING (Some hidden) 30000))
     else ret tt)
    (fun _ => ret tt).

(** [_is_environments_page] *)
Definition _is_environments_page (url : string) : bool :=
  PyStr.contains "chatgpt.com/codex/settings/environment" url.

(** [_is_login_page] *)
Definition _is_login_page : M bool :=
  try_catch
    (page_text <- on_page (fun h => call (page_content h)) ;;
     ret (forallb (fun text => PyStr.contains text page_text)
                  ["Get started"; "Log in"; "Sign up"]))
    (fun _ => ret false).

(** [_handle_authentication]; each of the three hops either returns [False]
    from the method ([None] below) or goes on with the URL it read last. *)
Definition _handle_authentication : M bool :=
  current_url <- on_page (fun h => call (page_url h)) ;;
  if _is_environments_page current_url then ret true
  else
    on_login <- (if PyStr.contains "auth/login" current_url then ret true
                 else _is_login_page) ;;
    hop1 <- (if on_login then
               clicked <- _click_element LOGIN_BUTTON "login button" ;;
               if negb clicked then ret None
               else
                 on_page (fun h => call (wait_for_timeout h 3000)) ;;
                 u <- on_page (fun h => call (page_url h)) ;;
                 ret (Some u)
             else ret (Some current_url)) ;;
    match hop1 with
    | None => ret false
    | Some current_url =>
        hop2 <- (if PyStr.contains "auth.openai.com" current_url then
                   clicked <- _click_element GOOGLE_BUTTON
                                "Google login button" ;;
                   if negb clicked then ret None
                   else
                     on_page (fun h => call (wait_for_timeout h 3000)) ;;
                     u <- on_page (fun h => call (page_url h)) ;;
                     ret (Some u)
                 else ret (Some current_url)) ;;
        match hop2 with
        | None => ret false
        | Some current_url =>
            hop3 <- (if PyStr.contains "accounts.google.com" current_url then
                       logged_in <- handle_google_login ;;
                       if negb logged_in then ret false
                       else
                         on_page (fun h => call (wait_for_timeout h 5000)) ;;
                         ret true
                     else ret true) ;;
            if negb hop3 then ret false
            else
              u <- on_page (fun h => call (page_url h)) ;;
              ret (_is_environments_page u)
        end
    end.

(** [_find_and_select_existing_environment] *)
Definition _find_and_select_existing_environment (repo_name : string)
  : M bool :=
  try_catch
    (let repo_selector := EXISTING_REPO_ROW repo_name in
     on_page (fun h => call (wait_for_load_state h "networkidle")) ;;
     element <- _get_element_robust repo_selector
                  ("existing environment for " ++ repo_name) None ;;
     match element with
     | Some _ =>
         ok <- _robust_click_element repo_selector
                 ("repository row for " ++ repo_name) None ;;
         if ok then
           on_page (fun h => call (wait_for_timeout h 2000)) ;;
           _robust_click_element USE_THIS_BUTTON "Use this button" None
         else ret false
     | None => ret false
     end)
    (fun _ => ret false).

(** [_wait_for_redirect] *)
Definition _wait_for_redirect : M unit :=
  on_page (fun h => call (wait_for_timeout h 3000)) ;;
  _wait_for_element USE_THIS_BUTTON "Use this button" 10000 ;;
  ret tt.

(** [_create_new_environment] *)
Definition _create_new_environment (repo_name : string) : M bool :=
  try_catch
    (_wait_for_element REPO_LIST_CONTAINER "creation list container" 10000 ;;
     _wait_for_element REPO_NAME_ELEMENTS "repository list" 10000 ;;
     on_page (fun h => call (wait_for_timeout h 2000)) ;;
     on_page (fun h => call (wait_for_selector h
                               "button p.text-token-text-primary"
                               None 10000)) ;;
     let repo_only := if PyStr.contains "/" repo_name
                      then PyStr.last_segment "/"%char repo_name
                      else repo_name in
     let repo_selector := NEW_REPO_BUTTON repo_only in
     element <- on_page (fun h => call (query_selector h repo_selector)) ;;
     shown <- match element with
              | Some e => call (is_visible e)
              | None => ret false
              end ;;
     match element, shown with
     | Some e, true =>
         _scroll_and_click e ("repository " ++ repo_only) ;;
         wait_if_page 2000 ;;
         final_create_element <-
           on_page (fun h => call (query_selector h FINAL_CREATE_BUTTON)) ;;
         shown' <- match final_create_element with
                   | Some e' => call (is_visible e')
                   | None => ret false
                   end ;;
         match final_create_element, shown' with
         | Some e', true =>
             _scroll_and_click e' "final create environment button" ;;
             _wait_for_redirect ;;
             _click_element USE_THIS_BUTTON "Use this button"
         | _, _ => ret false
         end
     | _, _ => ret false
     end)
    (fun _ => ret false).

(** [_handle_environments_page] *)
Definition _handle_environments_page : M bool :=
  repo_url <- get_working_repo_url ;;
  if negb (PyStr.truthy_opt repo_url) then ret true
  else
    let repo_name := _extract_repo_name
                       (match repo_url with Some u => u | None => "" end) in
    url <- on_page (fun h => call (page_url h)) ;;
    if PyStr.contains "settings/environment/create" url
    then _create_new_environment repo_name
    else
      found <- _find_and_select_existing_environment repo_name ;;
      if found then ret true
      else
        clicked <- _click_element CREATE_ENV_BUTTON
                     "create environment button" ;;
        if negb clicked then ret false
        else _create_new_environment repo_name.

(** [OpenAICodexAgent._setup_web_interface] *)
Definition codex_setup_web_interface : M bool :=
  try_catch
    (authenticated <- _handle_authentication ;;
     if negb authenticated then ret false
     else
       selected <- _handle_environments_page ;;
       if negb selected then ret false
       else ret true)
    (fun _ => ret false).

(** [open_coding_interface] as inherited by [OpenAICodexAgent]. *)
Definition codex_open_coding_interface : M bool :=
  open_coding_interface codex_web_url codex_setup_web_interface.

(** [_send_prompt] *)
Definition _send_prompt (prompt : string) : M unit :=
  ok <- _robust_fill_input PROMPT_INPUT prompt None ;;
  (if negb ok then raise (Exception "Failed to fill prompt input")
   else ret tt) ;;
  ok <- _robust_click_element CODE_BUTTON "Code button" None ;;
  if negb ok then raise (Exception "Failed to click Code button")
  else ret tt.

(** [_open_created_task] *)
Definition _open_created_task : M bool :=
  _wait_for_loading_complete ;;
  on_page (fun h => call (wait_for_timeout h 3000)) ;;
  task_element <- on_page (fun h => call (query_selector h TASK_LINK)) ;;
  match task_element with
  | Some e =>
      call (get_attribute e "href") ;;
      call (click e) ;;
      on_page (fun h => call (wait_for_timeout h 2000)) ;;
      ret true
  | None => ret false
  end.

(** [_focus_chat_input] *)
Definition _focus_chat_input : M unit :=
  try_catch
    (element <- on_page (fun h => call (query_selector h CHAT_INPUT)) ;;
     match element with
     | Some e =>
         call (click e) ;;
         on_page (fun h => call (wait_for_timeout h 1000))
     | None => ret tt
     end)
    (fun _ => ret tt).

(** [_wait_for_completion] *)
Definition _wait_for_completion : M unit :=
  try_catch
    (stop_button_appeared <- _wait_for_element_robust STOP_BUTTON "stop button"
                               (Some 30000%Z) visible ;;
     if stop_button_appeared then
       on_page (fun h => call (wait_for_selector h STOP_BUTTON (Some hidden)
                                                 1200000))
     else ret tt)
    (fun _ => ret tt) ;;
  on_page (fun h => call (wait_for_timeout h 2000)).

(** [_extract_output_content] *)
Definition _extract_output_content : M (option string) :=
  try_catch
    (on_page (fun h => call (wait_for_timeout h 2000)) ;;
     output_elements <-
       on_page (fun h => call (query_selector_all h OUTPUT_CONTENT)) ;;
     output_elements <-
       match output_elements with
       | [] => on_page (fun h => call (query_selector_all h
                          "div[class*='markdown'], div[class*='prose']"))
       | _ => ret output_elements
       end ;;
     match output_elements with
     | [] => ret None
     | e0 :: _ =>
         let content_element := last output_elements e0 in
         content <- call (inner_text content_element) ;;
         if PyStr.truthy content
            && Nat.ltb 0 (String.length (PyStr.strip content))
         then ret (Some (PyStr.strip content))
         else ret None
     end)
    (fun _ => ret None).

(** [_try_create_pr] *)
Definition _try_create_pr : M unit :=
  try_catch
    (on_page (fun h => call (wait_for_selector h CREATE_PR_BUTTON None 10000)) ;;
     element <- on_page (fun h => call (query_selector h CREATE_PR_BUTTON)) ;;
     shown <- match element with
              | Some e => call (is_visible e)
              | None => ret false
              end ;;
     match element, shown with
     | Some e, true =>
         call (click e) ;;
         on_page (fun h => call (wait_for_timeout h 3000))
     | _, _ => ret tt
     end)
    (fun _ => ret tt).

(** [_extract_pr_url] *)
Definition _extract_pr_url : M (option string) :=
  try_catch
    (on_page (fun h => call (wait_for_selector h VIEW_PR_LINK None 30000)) ;;
     pr_link <- on_page (fun h => call (query_selector h VIEW_PR_LINK)) ;;
     match pr_link with
     | Some e =>
         href <- call (get_attribute e "href") ;;
         match href with
         | Some u =>
             if PyStr.truthy u && PyStr.contains "github.com" u
                && PyStr.contains "/pull/" u
             then ret (Some u)
             else ret None
         | None => ret None
         end
     | None => ret None
     end)
    (fun _ => ret None).

(** [_complete_task_and_get_pr] *)
Definition _complete_task_and_get_pr : M (option string * option string) :=
  _focus_chat_input ;;
  _wait_for_completion ;;
  output_content <- _extract_output_content ;;
  _try_create_pr ;;
  pr_url <- _extract_pr_url ;;
  ret (output_content, pr_url).

(** The end of [execute_prompt]: the response built from the two optional
    captures. *)
Definition compose_response (output_content pr_url : option string)
  : AgentResponse :=
  let response_parts :=
    match output_content with
    | Some out =>
        if PyStr.truthy out
        then ["AGENT OUTPUT:"; PyStr.repeat_char "="%char 50; out;
              PyStr.repeat_char "="%char 50]
        else []
    | None => []
    end in
  let response_parts :=
    match pr_url with
    | Some url =>
        if PyStr.truthy url
        then app response_parts ["PR created: " ++ url]
        else response_parts
    | None => response_parts
    end in
  let status_message :=
    if PyStr.truthy_opt pr_url
    then "Task completed successfully with output and PR created."
    else if PyStr.truthy_opt output_content
         then "Task completed successfully with output generated."
         else "Task completed but no output or PR captured." in
  let final_content :=
    match response_parts with
    | [] => status_message
    | _ => PyStr.join (nl ++ nl) (status_message :: response_parts)
    end in
  mkResponse final_content true None.

(** [OpenAICodexAgent.execute_prompt] *)
Definition codex_execute_prompt (prompt : string) : M AgentResponse :=
  try_catch
    (_send_prompt prompt ;;
     opened <- _open_created_task ;;
     if negb opened
     then ret (mkResponse "" false (Some "Failed to open task"))
     else
       captured <- _complete_task_and_get_pr ;;
       ret (compose_response (fst captured) (snd captured)))
    (fun e => ret (mkResponse "" false (Some (exn_str e)))).

End OpenAICodexAgent.

End Agent.

Notation "x <- c ;; k" := (bind c (fun x => k))
  (at level 61, c at next level, right associativity).
Notation "c ;; k" := (bind c (fun _ => k))
  (at level 61, right associativity).

(* ===================================================================== *)
(** * A simulated browser                                                 *)
(* ===================================================================== *)

(** A small deterministic engine on which the agent can be run.  A [Profile]
    fixes how the simulated page behaves. *)
Module Sim.

Record Profile : Type := mkProfile {
  present : string -> bool;   (* the selectors that resolve to an element *)
  shown : bool;               (* [is_visible] of every element *)
  enabled : bool;             (* [is_enabled] of every element *)
  click_ok : bool;            (* whether [click] goes through *)
  hides : bool;               (* whether a wait for [hidden] is satisfied *)
  nav_ok : bool;              (* whether [goto] succeeds *)
  close_ok : bool;            (* whether [page.close()] succeeds *)
  echo : bool;                (* whether an input gives back what was filled *)
  url : string;               (* [page.url] *)
  text : string;              (* the text of every element *)
  href : option string        (* the [href] attribute of every element *)
}.

Record World : Type := mkWorld {
  time : Z;                   (* the clock, in milliseconds *)
  value : string              (* the value of the input last filled *)
}.

Definition start : World := mkWorld 0 "".

(** Time passes; a negative duration is no duration. *)
Definition tick (ms : Z) (w : World) : World :=
  mkWorld (time w + Z.max 0 ms) (value w).

Definition timeout_message : string := "Timeout exceeded".

Definition sim_respond (pf : Profile) (o : Op) (w : World)
  : reply (Ret o) * World :=
  match o as o0 return reply (Ret o0) * World with
  | Botright_start => (Done 1, w)
  | new_browser _ => (Done 2, w)
  | new_page _ => (Done 3, w)
  | botright_close _ => (Done tt, w)
  | browser_close _ => (Done tt, w)
  | page_close _ =>
      if close_ok pf then (Done tt, w) else (Failed "Target closed", w)
  | set_default_timeout _ _ => (Done tt, w)
  | set_default_navigation_timeout _ _ => (Done tt, w)
  | goto _ _ ms =>
      if nav_ok pf then (Done tt, w)
      else (Failed "net::ERR_CONNECTION_REFUSED", w)
  | wait_for_selector _ sel (Some hidden) ms =>
      if hides pf then (Done tt, w) else (Failed timeout_message, tick ms w)
  | wait_for_selector _ sel _ ms =>
      if present pf sel then (Done tt, w)
      else (Failed timeout_message, tick ms w)
  | wait_for_load_state _ _ => (Done tt, w)
  | wait_for_timeout _ ms => (Done tt, tick ms w)
  | query_selector _ sel =>
      (Done (if present pf sel then Some 7 else None), w)
  | query_selector_all _ sel =>
      (Done (if present pf sel then [7] else []), w)
  | keyboard_press _ _ => (Done tt, w)
  | page_url _ => (Done (url pf), w)
  | page_content _ => (Done "", w)
  | solve_hcaptcha _ => (Failed "no captcha", w)
  | solve_recaptcha _ => (Failed "no captcha", w)
  | solve_geetest _ => (Failed "no captcha", w)
  | is_visible _ => (Done (shown pf), w)
  | is_enabled _ => (Done (enabled pf), w)
  | scroll_into_view_if_needed _ => (Done tt, w)
  | click _ =>
      if click_ok pf then (Done tt, w)
      else (Failed "element intercepts pointer events", w)
  | focus _ => (Done tt, w)
  | select_text _ => (Done tt, w)
  | fill _ txt => (Done tt, mkWorld (time w) txt)
  | input_value _ => (Done (if echo pf then value w else ""), w)
  | text_content _ => (Done (Some (text pf)), w)
  | inner_text _ => (Done (text pf), w)
  | get_attribute _ _ => (Done (href pf), w)
  | evaluate _ _ => (Done tt, w)
  | getenv _ => (Done None, w)
  | time_time => (Done (time w), w)
  end.

Definition engine (pf : Profile) : Engine World :=
  {| respond := sim_respond pf; clock := fun w => (time w, w) |}.

(** A page on which everything is there and works: every selector resolves,
    elements are visible and enabled, clicks go through, inputs keep their
    text. *)
Definition cooperative : Profile :=
  mkProfile (fun _ => true) true true true true true true true
            "about:blank" "done" None.

(** A page on which no wait for a selector is ever satisfied. *)
Definition empty_page : Profile :=
  mkProfile (fun _ => false) true true true false true true true
            "about:blank" "" None.

(** Elements are found and visible but stay disabled. *)
Definition disabled_page : Profile :=
  mkProfile (fun _ => true) true false true true true true true
            "about:blank" "" None.

(** The busy indicator shows up and never goes away. *)
Definition busy_forever : Profile :=
  mkProfile (fun _ => true) true true true false true true true
            "about:blank" "done" None.

(** The native click is intercepted; everything else works. *)
Definition click_blocked : Profile :=
  mkProfile (fun _ => true) true true false true true true true
            "about:blank" "done" None.

(** The site cannot be reached. *)
Definition unreachable : Profile :=
  mkProfile (fun _ => true) true true true true false true true
            "about:blank" "done" None.

(** Closing the page fails. *)
Definition stuck_page : Profile :=
  mkProfile (fun _ => true) true true true true true false true
            "about:blank" "done" None.

(** The output area holds a long text that does not change. *)
Definition finished_page : Profile :=
  mkProfile (fun _ => true) true true true true true true true
            "about:blank" (PyStr.repeat_char "x"%char 120) None.

(** Inputs lose what is typed into them. *)
Definition forgetful_input : Profile :=
  mkProfile (fun _ => true) true true true true true true false
            "about:blank" "done" None.

(** A state of the agent with the given attributes, at the start of the
    simulated world, nothing recorded yet. *)
Definition state_of (a : Agent) : @State World := mkState a start [].

(** An agent whose interface was opened: client 1, browser 2, page 3. *)
Definition opened (ready : bool) (repo : option string) : Agent :=
  mkAgent (Some 1) (Some 2) (Some 3) ready repo None.

(** The calls of a trace, without the answers. *)
Definition ops (tr : list Event) : list Op := map ev_op tr.

(** The calls of [_handle_environments_page] with the empty repository name
    on a page where every selector resolves: the row found with the selector
    for the empty name is clicked and confirmed. *)
Definition empty_name_selection_calls : list Op :=
  [ page_url 3; wait_for_load_state 3 "networkidle";
    wait_for_selector 3 "tr.group\/row:has-text('')" None 30000;
    query_selector 3 "tr.group\/row:has-text('')";
    wait_for_selector 3 "tr.group\/row:has-text('')" (Some visible) 30000;
    query_selector 3 "tr.group\/row:has-text('')";
    is_visible 7; is_enabled 7; scroll_into_view_if_needed 7;
    wait_for_timeout 3 1000; click 7; wait_for_timeout 3 2000;
    wait_for_selector 3 "button:has-text('Use this')" (Some visible) 30000;
    query_selector 3 "button:has-text('Use this')";
    is_visible 7; is_enabled 7; scroll_into_view_if_needed 7;
    wait_for_timeout 3 1000; click 7 ].

(** The calls by which the Codex agent submits the prompt [fix]: the fill of
    the prompt input, verified, and the click on the Code button. *)
Definition submission_calls : list Op :=
  [ wait_for_selector 3 "#prompt-textarea" (Some visible) 30000;
    query_selector 3 "#prompt-textarea"; is_visible 7; is_enabled 7;
    focus 7; select_text 7; keyboard_press 3 "Delete";
    fill 7 "fix"; input_value 7;
    wait_for_selector 3 "button:has-text('Code')" (Some visible) 30000;
    query_selector 3 "button:has-text('Code')";
    is_visible 7; is_enabled 7; scroll_into_view_if_needed 7;
    wait_for_timeout 3 1000; click 7 ].

(** The trace of the Codex completion monitor when the stop button never
    goes away. *)
Definition busy_forever_run : list Event :=
  [ Ev (wait_for_selector 3 CodexSelectors.STOP_BUTTON (Some visible) 30000)
       (Done tt);
    Ev (wait_for_selector 3 CodexSelectors.STOP_BUTTON (Some hidden) 1200000)
       (Failed timeout_message);
    Ev (wait_for_timeout 3 2000) (Done tt) ].

(** The calls of [open_coding_interface] when the site cannot be reached. *)
Definition failed_navigation_calls : list Op :=
  [ Botright_start; new_browser 1; new_page 2;
    set_default_timeout 3 30000; set_default_navigation_timeout 3 60000;
    goto 3 codex_web_url 60000; wait_for_timeout 3 2000;
    goto 3 codex_web_url 60000; wait_for_timeout 3 2000;
    goto 3 codex_web_url 60000 ].

(** The calls of [open_coding_interface] when the site is reached but the
    login does not lead to the environments page. *)
Definition failed_setup_calls : list Op :=
  [ Botright_start; new_browser 1; new_page 2;
    set_default_timeout 3 30000; set_default_navigation_timeout 3 60000;
    goto 3 codex_web_url 60000;
    page_url 3; page_content 3; page_url 3 ].

(** The trace of one attempt to click the Code button when the native click
    is intercepted. *)
Definition blocked_click_run : list Event :=
  [ Ev (wait_for_selector 3 "button:has-text('Code')" (Some visible) 30000)
       (Done tt);
    Ev (query_selector 3 "button:has-text('Code')") (Done (Some 7));
    Ev (is_visible 7) (Done true);
    Ev (is_enabled 7) (Done true);
    Ev (scroll_into_view_if_needed 7) (Done tt);
    Ev (wait_for_timeout 3 1000) (Done tt);
    Ev (click 7) (Failed "element intercepts pointer events") ].

(** The trace of a fill of the prompt input with the text [fix] that is
    verified on its first pass. *)
Definition verified_run : list Event :=
  [ Ev (wait_for_selector 3 "#prompt-textarea" (Some visible) 30000) (Done tt);
    Ev (query_selector 3 "#prompt-textarea") (Done (Some 7));
    Ev (is_visible 7) (Done true);
    Ev (is_enabled 7) (Done true);
    Ev (focus 7) (Done tt);
    Ev (select_text 7) (Done tt);
    Ev (keyboard_press 3 "Delete") (Done tt);
    Ev (fill 7 "fix") (Done tt);
    Ev (input_value 7) (Done "fix"%string) ].

End Sim.

(** What the content of a Codex response says was captured: the output
    text (first component) and the PR link (second component).  The content
    starts with the status message, and the output section, when there is
    one, comes right after it. *)
Definition captured (content : string) : bool * bool :=
  let with_pr := "Task completed successfully with output and PR created." in
  let with_output := "Task completed successfully with output generated." in
  if PyStr.startswith (with_pr ++ nl ++ nl ++ "AGENT OUTPUT:") content
  then (true, true)
  else if PyStr.startswith with_pr content then (false, true)
  else if PyStr.startswith with_output content then (true, false)
  else (false, false).

Local Close Scope string_scope.
Local Open Scope list_scope.

(* ===================================================================== *)
(** * Vocabulary for traces and for assumptions on the world              *)
(* ===================================================================== *)

(** The calls that look an element up or ask whether it can be acted on. *)
Definition is_probe (o : Op) : bool :=
  match o with
  | query_selector _ _ | is_visible _ | is_enabled _ => true
  | _ => false
  end.

(** The wait between two attempts of a retrying interaction. *)
Definition retry_delay (h : handle) : Event :=
  Ev (wait_for_timeout h RETRY_DELAY) (Done tt).

(** The traces of successive attempts, with one retry delay between each
    two. *)
Fixpoint with_delays (h : handle) (blocks : list (list Event)) : list Event :=
  match blocks with
  | [] => []
  | [b] => b
  | b :: rest => b ++ retry_delay h :: with_delays h rest
  end.

(** An attempt starts with the wait for the selector to be visible. *)
Definition attempt_start (h : handle) (selector : string)
           (r : reply unit) : Event :=
  Ev (wait_for_selector h selector (Some visible) DEFAULT_TIMEOUT) r.

(** An attempt that did not get to act: the wait, then probes only. *)
Definition failed_attempt (h : handle) (selector : string)
           (blk : list Event) : Prop :=
  exists r rest,
    blk = attempt_start h selector r :: rest
    /\ Forall (fun ev => is_probe (ev_op ev) = true) rest.

(** An attempt of [_robust_fill_input] that ended in a read-back other than
    the intended text (or before any read-back): it starts with the wait and
    contains neither a further wait for the selector nor a delay. *)
Definition is_wait (o : Op) : bool :=
  match o with
  | wait_for_selector _ _ _ _ | wait_for_timeout _ _ => true
  | _ => false
  end.

Definition unverified_attempt (h : handle) (selector : string)
           (blk : list Event) : Prop :=
  exists r rest,
    blk = attempt_start h selector r :: rest
    /\ Forall (fun ev => is_wait (ev_op ev) = false) rest.

(** A read-back of an input that returned exactly [text]. *)
Definition is_matching_readback (text : string) (ev : Event) : bool :=
  match ev with
  | Ev o r =>
      match o as o0 return reply (Ret o0) -> bool with
      | input_value _ =>
          fun r0 => match r0 with
                    | Done v => String.eqb v text
                    | Failed _ => false
                    end
      | _ => fun _ => false
      end r
  end.

(** No event of the trace is a read-back that returned [text]. *)
Definition unverified (text : string) (tr : list Event) : Prop :=
  Forall (fun ev => is_matching_readback text ev = false) tr.

(** The trace of an attempt of [_robust_fill_input] in which every call
    completes and the read-back returns the text. *)
Definition verified_fill (h e : handle) (selector text : string)
  : list Event :=
  [ attempt_start h selector (Done tt);
    Ev (query_selector h selector) (Done (Some e));
    Ev (is_visible e) (Done true);
    Ev (is_enabled e) (Done true);
    Ev (focus e) (Done tt);
    Ev (select_text e) (Done tt);
    Ev (keyboard_press h "Delete") (Done tt);
    Ev (fill e text) (Done tt);
    Ev (input_value e) (Done text) ].

(** The programmatic click of [_scroll_and_click]. *)
Definition synthetic_click : string := "element => element.click()".

Definition is_evaluate (o : Op) : bool :=
  match o with evaluate _ _ => true | _ => false end.

(** No call of the trace runs a script on an element. *)
Definition no_script (tr : list Event) : Prop :=
  Forall (fun ev => is_evaluate (ev_op ev) = false) tr.

(** A native click that failed. *)
Definition is_failed_click (ev : Event) : bool :=
  match ev with
  | Ev o r =>
      match o as o0 return reply (Ret o0) -> bool with
      | click _ =>
          fun r0 => match r0 with Done _ => false | Failed _ => true end
      | _ => fun _ => false
      end r
  end.

(** An attempt of [_robust_click_element] without any script call. *)
Definition scriptless_attempt (h : handle) (selector : string)
           (blk : list Event) : Prop :=
  exists r rest,
    blk = attempt_start h selector r :: rest /\ no_script rest.

(** A call that failed. *)
Definition is_failed (ev : Event) : bool :=
  match ev_reply ev with Done _ => false | Failed _ => true end.

(** Every call of the trace completed. *)
Definition all_completed (tr : list Event) : Prop :=
  Forall (fun ev => is_failed ev = false) tr.

(** Nothing is held: no page, no browser, no client, and the ready flag is
    down. *)
Definition released (a : Agent) : Prop :=
  botright_client a = None /\ browser a = None /\ page a = None
  /\ _is_browser_ready a = false.

(** What the indicator-based monitor of the Codex agent saw of the stop
    button on page [h]: it never appeared within the short window (and no
    wait for its disappearance was made); it appeared and then went hidden;
    or it appeared and the wait for its disappearance failed. *)
Definition stop_button_appears (h : handle) (r : reply unit) : Event :=
  Ev (wait_for_selector h CodexSelectors.STOP_BUTTON (Some visible) 30000) r.

Definition stop_button_hides (h : handle) (r : reply unit) : Event :=
  Ev (wait_for_selector h CodexSelectors.STOP_BUTTON (Some hidden) 1200000) r.

Inductive indicator_outcome (h : handle) : list Event -> Prop :=
| never_appeared (m : string) :
    indicator_outcome h [stop_button_appears h (Failed m)]
| appeared_then_hidden :
    indicator_outcome h [stop_button_appears h (Done tt);
                         stop_button_hides h (Done tt)]
| never_hidden (m : string) :
    indicator_outcome h [stop_button_appears h (Done tt);
                         stop_button_hides h (Failed m)].

(** What a call of the content monitor read of the output area, if it is a
    reading: the text of the output element, or the empty text when there is
    no output element or it has no text. *)
Definition reading (ev : Event) : option string :=
  match ev with
  | Ev o r =>
      match o as o0 return reply (Ret o0) -> option string with
      | text_content _ =>
          fun r0 => match r0 with
                    | Done (Some v) => Some v
                    | Done None => Some EmptyString
                    | Failed _ => None
                    end
      | query_selector _ _ =>
          fun r0 => match r0 with
                    | Done None => Some EmptyString
                    | _ => None
                    end
      | _ => fun _ => None
      end r
  end.

(** Every reading of the output area in the trace returned [c]. *)
Definition steady (c : string) (tr : list Event) : Prop :=
  Forall (fun ev => reading ev = None \/ reading ev = Some c) tr.

(** A reading of the clock. *)
Definition clock_read (t : Z) : Event := Ev time_time (Done t).

(** The trace since [base] shows that [lc] is the content last read and that
    it has not been seen to change since the clock read [lct]. *)
Definition quiet (base : list Event) (lc : string) (lct : Z)
           (tr : list Event) : Prop :=
  lc = EmptyString
  \/ exists pre e post,
      tr = base ++ pre ++ [Ev (text_content e) (Done (Some lc)); clock_read lct]
                ++ post
      /\ steady lc post.


Section Assumptions.

Context {World : Type} {engine : Engine World}.

(** No element is ever both visible and enabled. *)
Definition never_actionable : Prop :=
  forall (e : handle) (w : World),
    fst (respond (is_visible e) w) = Done true ->
    fst (respond (is_enabled e) (snd (respond (is_visible e) w))) <> Done true.

(** The native click never goes through. *)
Definition click_never_registers : Prop :=
  forall (e : handle) (w : World),
    exists m, fst (respond (click e) w) = Failed m.

(** No selector ever resolves: every wait for a selector fails. *)
Definition no_selector_resolves : Prop :=
  forall (h : handle) (selector : string) (state : option wait_state)
         (timeout : Z) (w : World),
    exists m, fst (respond (wait_for_selector h selector state timeout) w)
              = Failed m.

(** The text of the output area never exceeds 100 characters. *)
Definition output_stays_short : Prop :=
  forall (e : handle) (w : World) (v : string),
    fst (respond (text_content e) w) = Done (Some v) ->
    (String.length v <= 100)%nat.

(** [tm] measures the time of the world: the clock reads a time between the
    time before and the time after the reading, no call turns time back, and
    a timed delay lasts at least its duration. *)
Definition time_passes (tm : World -> Z) : Prop :=
  (forall w, (tm w <= fst (clock w) <= tm (snd (clock w)))%Z)
  /\ (forall o w, (tm w <= tm (snd (respond o w)))%Z)
  /\ (forall h ms w,
        (tm w + ms <= tm (snd (respond (wait_for_timeout h ms) w)))%Z).

(** Timed delays always complete. *)
Definition delays_complete : Prop :=
  forall (h : handle) (ms : Z) (w : World),
    fst (respond (wait_for_timeout h ms) w) = Done tt.

(** The value read back from an input is never [text]. *)
Definition never_reads_back (text : string) : Prop :=
  forall (e : handle) (w : World),
    fst (respond (input_value e) w) <> Done text.

(** How [_wait_for_web_completion], started in [s], comes to run the
    content monitor, and in which state [s1]: there is no loading indicator
    to wait for (no selector, or no page), or the wait for the indicator to
    be hidden failed. *)
Inductive monitor_entered (loading_selector : option string) (timeout_ms : Z)
          (s : @State World) : @State World -> Prop :=
| no_indicator :
    (match loading_selector with
     | Some sel => PyStr.truthy sel
     | None => false
     end && match page (agent s) with Some _ => true | None => false end
     = false)%bool ->
    monitor_entered loading_selector timeout_ms s s
| indicator_wait_failed (sel : string) (h : handle) (m : string) (w : World) :
    loading_selector = Some sel ->
    PyStr.truthy sel = true ->
    page (agent s) = Some h ->
    respond (wait_for_selector h sel (Some hidden) timeout_ms) (world s)
      = (Failed m, w) ->
    monitor_entered loading_selector timeout_ms s
      (mkState (agent s) w
               (trace s ++ [Ev (wait_for_selector h sel (Some hidden) timeout_ms)
                               (Failed m)])).

(** [c], run from [s], returns [False] after exactly [n] attempts, each
    satisfying [attempt], with a retry delay between consecutive attempts and
    nothing else; the agent's attributes are unchanged. *)
Definition fails_after (attempt : list Event -> Prop) (h : handle)
           (c : @M World bool) (s : @State World) (n : nat) : Prop :=
  exists s' blocks,
    c s = (Ok false, s')
    /\ agent s' = agent s
    /\ trace s' = trace s ++ with_delays h blocks
    /\ length blocks = n
    /\ Forall attempt blocks.

End Assumptions.

(* ===================================================================== *)
(** * Further methods and vocabulary                                      *)
(* ===================================================================== *)

Section Status.

Context {World : Type} {engine : Engine World}.

(** [get_original_repo_url] *)
Definition get_original_repo_url : @M World (option string) := gets original_repo_url.

(** [is_coding_agent_open] *)
Definition is_coding_agent_open : @M World bool :=
  try_catch
    (ready <- gets _is_browser_ready ;;
     p <- gets page ;;
     ret (ready && match p with Some _ => true | None => false end)%bool)
    (fun _ => ret false).

(** [is_ide_open_with_correct_project]; [self._current_project_name] is an
    attribute kept by [CodingAgent] in [agents/base.py], which is not among
    the sources: it is an argument here. *)
Definition is_ide_open_with_correct_project
           (_current_project_name : option string) : @M World bool :=
  if negb (PyStr.truthy_opt _current_project_name)
  then gets _is_browser_ready
  else
    ready <- gets _is_browser_ready ;;
    p <- gets page ;;
    ret (ready && match p with Some _ => true | None => false end)%bool.

(** [is_coding_agent_open_with_project] *)
Definition is_coding_agent_open_with_project
           (_current_project_name : option string) : @M World bool :=
  opened <- is_coding_agent_open ;;
  if negb opened then ret false
  else
    correct <- is_ide_open_with_correct_project _current_project_name ;;
    if negb correct then ret false else ret true.

(** [c] leaves the attributes of the agent as they are and uses no loop
    budget. *)
Definition tame {A : Type} (c : @M World A) : Prop :=
  forall s, agent (snd (c s)) = agent s /\ fst (c s) <> OutOfFuel.

(** [c] always returns a value, and leaves the attributes of the agent as
    they are. *)
Definition always_returns {A : Type} (c : @M World A) : Prop :=
  forall s, exists v s', c s = (Ok v, s') /\ agent s' = agent s.

End Status.

(** The number of calls of a trace that satisfy [f]. *)
Definition count_calls (f : Op -> bool) (tr : list Event) : nat :=
  length (filter (fun ev => f (ev_op ev)) tr).

Definition is_goto (o : Op) : bool :=
  match o with goto _ _ _ => true | _ => false end.

Definition is_click (o : Op) : bool :=
  match o with click _ => true | _ => false end.

Definition is_selector_wait (o : Op) : bool :=
  match o with wait_for_selector _ _ _ _ => true | _ => false end.

Definition is_url_read (o : Op) : bool :=
  match o with page_url _ => true | _ => false end.

Definition is_getenv (o : Op) : bool :=
  match o with getenv _ => true | _ => false end.

(** The closing calls [_cleanup_browser] has to make for an agent: the page,
    then the browser, then the client, each if it is held. *)
Definition teardown_calls (a : Agent) : list Op :=
  match page a with Some h => [page_close h] | None => [] end
  ++ match browser a with Some h => [browser_close h] | None => [] end
  ++ match botright_client a with Some h => [botright_close h] | None => [] end.

(** The calls of a trace, without the answers. *)
Definition calls (tr : list Event) : list Op := map ev_op tr.

(** A response is well formed: a success carries no error, a failure
    carries its cause and no content. *)
Definition well_formed_response (r : AgentResponse) : Prop :=
  (success r = true /\ error_message r = None)
  \/ (success r = false /\ content r = EmptyString
      /\ exists m, error_message r = Some m).

(** The wait between two attempts, as a call. *)
Definition is_retry_delay (o : Op) : bool :=
  match o with
  | wait_for_timeout _ ms => (ms =? RETRY_DELAY)%Z
  | _ => false
  end.

(** A call satisfying [f] that completed. *)
Definition completed (f : Op -> bool) (ev : Event) : bool :=
  f (ev_op ev) && negb (is_failed ev).

(** No call of the trace satisfying [f] completed. *)
Definition none_completed (f : Op -> bool) (tr : list Event) : Prop :=
  Forall (fun ev => completed f ev = false) tr.

(** The trace ends with a completed call satisfying [f], the only one. *)
Definition ends_with_completed (f : Op -> bool) (tr : list Event) : Prop :=
  exists pre ev,
    tr = pre ++ [ev] /\ completed f ev = true /\ none_completed f pre.

Definition is_fill (o : Op) : bool :=
  match o with fill _ _ => true | _ => false end.

(** The address a completed read of the page's URL returned. *)
Definition url_read (ev : Event) : option string :=
  match ev with
  | Ev o r =>
      match o as o0 return reply (Ret o0) -> option string with
      | page_url _ =>
          fun r0 => match r0 with
                    | Done u => Some u
                    | Failed _ => None
                    end
      | _ => fun _ => None
      end r
  end.

(** Every address read in the trace is still on the Google sign-in pages. *)
Definition all_on_google (tr : list Event) : Prop :=
  Forall (fun ev => forall u, url_read ev = Some u ->
                    PyStr.contains "accounts.google.com" u = true) tr.

(** The trace ends with the read of an address off the Google sign-in
    pages, the first such read. *)
Definition ends_off_google (tr : list Event) : Prop :=
  exists pre ev u,
    tr = pre ++ [ev] /\ url_read ev = Some u
    /\ PyStr.contains "accounts.google.com" u = false
    /\ all_on_google pre.

(** The calls of the login poll: a five-second wait or a read of the URL. *)
Definition is_poll_call (o : Op) : bool :=
  match o with
  | wait_for_timeout _ ms => (ms =? 5000)%Z
  | page_url _ => true
  | _ => false
  end.

Section Shapes.

Context {World : Type} {engine : Engine World}.

(** Every call a computation makes is of the kind [P], in every run. *)
Definition confined (P : Op -> bool) {A : Type} (c : @M World A) : Prop :=
  forall s, exists new,
    trace (snd (c s)) = trace s ++ new
    /\ Forall (fun ev => P (ev_op ev) = true) new.

(** A computation answers [True] only right after an event that is
    [good]. *)
Definition true_only_after (good : Event -> bool) (c : @M World bool)
  : Prop :=
  forall s, exists new,
    trace (snd (c s)) = trace s ++ new
    /\ (fst (c s) = Ok true ->
        exists pre ev, new = pre ++ [ev] /\ good ev = true).

End Shapes.

(** Calls that only look at the page or let time pass. *)
Definition is_observation (o : Op) : bool :=
  match o with
  | wait_for_selector _ _ _ _ | wait_for_load_state _ _
  | wait_for_timeout _ _ | query_selector _ _ | query_selector_all _ _
  | page_url _ | page_content _ | is_visible _ | is_enabled _
  | input_value _ | text_content _ | inner_text _ | get_attribute _ _
  | time_time => true
  | _ => false
  end.

(** Calls on the open page and its elements: observations, and the
    actions of a user on the page. *)
Definition is_page_call (o : Op) : bool :=
  is_observation o
  || match o with
     | keyboard_press _ _ | scroll_into_view_if_needed _ | click _
     | focus _ | select_text _ | fill _ _ | evaluate _ _ => true
     | _ => false
     end.

Section Lookups.

Context {World : Type} {engine : Engine World}.

(** A lookup: a computation that always gives an answer, never raises, and
    only observes the page on the way. *)
Definition lookup {A : Type} (c : @M World A) : Prop :=
  always_returns c /\ confined is_observation c.

End Lookups.

(** A page of a user who is signed in already: the browser is at the
    environments page of Codex. *)
Definition signed_in : Sim.Profile :=
  Sim.mkProfile (fun _ => true) true true true true true true true
                "https://chatgpt.com/codex/settings/environments"%string
                "done"%string None.

(** An agent that holds nothing yet. *)
Definition fresh_agent : Agent := mkAgent None None None false None None.

(** A task page that shows no output text and a link to a pull request. *)
Definition pr_without_output : Sim.Profile :=
  Sim.mkProfile (fun _ => true) true true true true true true true
                "about:blank"%string ""%string
                (Some "https://github.com/acme/widget/pull/7"%string).

(** A completed read of a URL that is off Google's sign-in pages. *)
Definition reads_off_google (ev : Event) : bool :=
  match url_read ev with
  | Some u => negb (PyStr.contains "accounts.google.com" u)
  | None => false
  end.

(** The value a completed read of an environment variable returned, when
    the variable is the given one and its value is not empty. *)
Definition env_value (name : string) (ev : Event) : option string :=
  match ev with
  | Ev o r =>
      match o as o0 return reply (Ret o0) -> option string with
      | getenv n =>
          fun r0 => match r0 with
                    | Done (Some v) =>
                        if (String.eqb n name && PyStr.truthy v)%bool
                        then Some v else None
                    | _ => None
                    end
      | _ => fun _ => None
      end r
  end.

(** The credentials a run of [handle_google_login] read: its first two
    calls, when they returned a non-empty email and a non-empty password. *)
Definition credentials (tr : list Event) : option (string * string) :=
  match tr with
  | e1 :: e2 :: _ =>
      match env_value "GOOGLE_EMAIL" e1, env_value "GOOGLE_PASSWORD" e2 with
      | Some email, Some password => Some (email, password)
      | _, _ => None
      end
  | _ => None
  end.

(** The solvers [solve_captcha_if_present] tries on a page, in order. *)
Definition captcha_solvers (h : handle) : list Op :=
  [solve_hcaptcha h; solve_recaptcha h; solve_geetest h].

(** Every call of the trace failed. *)
Definition all_failed (tr : list Event) : Prop :=
  Forall (fun ev => is_failed ev = true) tr.

(** A completed read of a URL that is on the environments page of Codex. *)
Definition reads_environments_page (ev : Event) : bool :=
  match url_read ev with
  | Some u => _is_environments_page u
  | None => false
  end.

(** Every click of the trace comes after a read-back that returned
    [text]. *)
Definition click_only_after_readback (text : string) (tr : list Event)
  : Prop :=
  forall pre ev post,
    tr = pre ++ ev :: post ->
    is_click (ev_op ev) = true ->
    Exists (fun x => is_matching_readback text x = true) pre.

(** Every character of a string satisfies [f]. *)
Fixpoint all_chars (f : ascii -> bool) (x : string) : bool :=
  match x with
  | EmptyString => true
  | String c x' => f c && all_chars f x'
  end.

(** A non-empty string of the characters [[\w\-\.]]. *)
Definition is_name (x : string) : bool :=
  PyStr.truthy x && all_chars name_char x.

(** What may follow the repository name in a URL that [repo_pattern]
    matches: an optional [.git], an optional slash, and an optional final
    newline. *)
Definition repo_url_tails : list string :=
  [ ""; "/"; ".git"; ".git/";
    String "010"%char ""; "/" ++ String "010"%char "";
    ".git" ++ String "010"%char ""; ".git/" ++ String "010"%char "" ]%string.

Definition is_repo_url_tail (x : string) : bool :=
  existsb (String.eqb x) repo_url_tails.

(** The string ends with [.git] after at least one other character. *)
Fixpoint has_git_suffix (x : string) : bool :=
  match x with
  | EmptyString => false
  | String _ x' => String.eqb x' ".git" || has_git_suffix x'
  end.

(** What comes before [github.com] in the usual forms of a repository
    URL. *)
Definition repo_url_schemes : list string :=
  [ "https://"; "http://"; "git@"; "ssh://git@"; "git://"; "https://www.";
    "" ]%string.

Definition is_repo_url_scheme (x : string) : bool :=
  existsb (String.eqb x) repo_url_schemes.

(** The subject does not begin with a character of the class. *)
Definition stops (f : ascii -> bool) (x : string) : Prop :=
  match x with
  | String c _ => f c = false
  | EmptyString => True
  end.

(** The end of [repo_pattern]: [(?:\.git)?/?$] *)
Definition repo_pattern_end : Re.regex :=
  Re.Seq (Re.Opt (Re.NonCap (Re.Lit ".git")))
         (Re.Seq (Re.Opt (Re.Chr "/"%char)) Re.Eol).

(** A completed wait for the selector to be visible. *)
Definition shows (sel : string) (ev : Event) : bool :=
  match ev_op ev with
  | wait_for_selector _ sel' (Some visible) _ =>
      String.eqb sel' sel && negb (is_failed ev)
  | _ => false
  end.

(** Observations of the page and calls of the captcha solvers. *)
Definition is_setup_call (o : Op) : bool :=
  is_observation o
  || match o with
     | solve_hcaptcha _ | solve_recaptcha _ | solve_geetest _ => true
     | _ => false
     end.


(* ===================================================================== *)
(** * Properties                                                          *)
(* ===================================================================== *)

Section Properties.

Context {World : Type} {engine : Engine World}.

Implicit Types (s : @State World) (h e : handle).

(** ** Retrying interactions *)

(** When every attempt fails and the delays complete, the loop runs all its
    remaining iterations and returns [False]. *)
Lemma retry_loop_all_fail (body : M bool) (BP : list Event -> Prop) h max :
  delays_complete ->
  (forall s, page (agent s) = Some h ->
     exists ex w blk,
       body s = (Raise ex, mkState (agent s) w (trace s ++ blk)) /\ BP blk) ->
  forall (k : nat) (a : Z) s,
    page (agent s) = Some h ->
    (a + Z.of_nat k = max)%Z ->
    (1 <= k)%nat ->
    fails_after BP h (retry_loop body max k a) s k.
Proof.
  intros Hd Hbody k.
  induction k as [|k IH]; intros a s Hp Hk Hk1; [lia|].
  destruct (Hbody s Hp) as (ex & w & blk & Hrun & Hblk).
  unfold fails_after. cbn [retry_loop]. unfold try_catch at 1. rewrite Hrun.
  unfold bind at 1, gets at 1. cbn [agent]. rewrite Hp.
  destruct k as [|k].
  - (* the last iteration *)
    replace (a <? max - 1)%Z with false by (symmetry; apply Z.ltb_ge; lia).
    unfold ret.
    exists (mkState (agent s) w (trace s ++ blk)), [blk].
    cbn. repeat split; auto.
  - replace (a <? max - 1)%Z with true by (symmetry; apply Z.ltb_lt; lia).
    unfold bind at 1, call at 1. cbn [world agent trace].
    pose proof (Hd h RETRY_DELAY w) as Hdelay.
    destruct (respond (wait_for_timeout h RETRY_DELAY) w) as [r w1].
    cbn in Hdelay. subst r.
    set (s1 := mkState (agent s) w1 ((trace s ++ blk) ++ [Ev (wait_for_timeout h RETRY_DELAY) (Done tt)])).
    destruct (IH (a + 1)%Z s1) as (s' & blocks & Hrun' & Hag & Htr & Hlen & Hall);
      [exact Hp | lia | lia |].
    exists s', (blk :: blocks).
    rewrite Hrun'. repeat split; auto.
    + rewrite Htr. subst s1. cbn [trace].
      destruct blocks as [|b blocks]; [discriminate|].
      cbn [with_delays]. unfold retry_delay.
      repeat rewrite <- app_assoc. reflexivity.
    + cbn. now rewrite Hlen.
Qed.

(** Case analysis on the answer to the next call of the computation. *)
Ltac simpl_state :=
  cbn [agent world trace page fst snd] in *;
  repeat match goal with
         | H : page (agent ?s) = _ |- context [page (agent ?s)] => rewrite H
         end.

Ltac answer :=
  simpl_state;
  match goal with
  | |- context [respond ?o ?w] =>
      let r := fresh "r" in
      let w' := fresh "w" in
      let E := fresh "E" in
      destruct (respond o w) as [r w'] eqn:E; destruct r as [?|?];
      simpl_state
  end.

Ltac unfold_m :=
  unfold wait_if_page, the_page in *;
  unfold bind, gets, call, raise, ret, try_catch, modify, out_of_fuel in *;
  simpl_state.

(** Puts the trace of the goal in the form [trace s ++ block]. *)
Ltac normalize_trace :=
  simpl_state; repeat rewrite <- app_assoc; cbn [app].

Ltac failed_block :=
  normalize_trace; eexists _, _, _; split; [reflexivity|];
  eexists _, _; split; [reflexivity|repeat constructor].

Lemma click_attempt_never_actionable selector description h :
  never_actionable ->
  forall s, page (agent s) = Some h ->
    exists ex w blk,
      click_attempt selector description s
        = (Raise ex, mkState (agent s) w (trace s ++ blk))
      /\ failed_attempt h selector blk.
Proof.
  intros Hna s Hp. unfold click_attempt. unfold_m.
  answer; [|failed_block].
  answer; [|failed_block].
  destruct a0 as [e|]; [|failed_block].
  pose proof (Hna e w0) as Hna'.
  answer; [|failed_block].
  destruct a0; [|failed_block].
  answer; [|failed_block].
  destruct a0; [|failed_block].
  exfalso. now apply Hna'.
Qed.

Lemma fill_attempt_never_actionable selector text h :
  never_actionable ->
  forall s, page (agent s) = Some h ->
    exists ex w blk,
      fill_attempt selector text s
        = (Raise ex, mkState (agent s) w (trace s ++ blk))
      /\ failed_attempt h selector blk.
Proof.
  intros Hna s Hp. unfold fill_attempt. unfold_m.
  answer; [|failed_block].
  answer; [|failed_block].
  destruct a0 as [e|]; [|failed_block].
  pose proof (Hna e w0) as Hna'.
  answer; [|failed_block].
  destruct a0; [|failed_block].
  answer; [|failed_block].
  destruct a0; [|failed_block].
  exfalso. now apply Hna'.
Qed.

(** ** Verified fill *)

Ltac unverified_block :=
  normalize_trace; eexists; split; [reflexivity|];
  right; split; [eexists; reflexivity|];
  repeat (constructor; [first [reflexivity | assumption]|]); constructor.

(** One attempt of the fill either returns [True], and then it ends with a
    read-back of the text, the only one in its trace, or raises, and then no
    read-back of its trace is the text. *)
Lemma fill_attempt_block selector text s r s0 :
  fill_attempt selector text s = (r, s0) ->
  agent s0 = agent s
  /\ exists blk,
      trace s0 = trace s ++ blk
      /\ ((r = Ok true
           /\ exists pre e,
               blk = pre ++ [Ev (input_value e) (Done text)]
               /\ unverified text pre)
          \/ ((exists ex, r = Raise ex) /\ unverified text blk)).
Proof.
  unfold fill_attempt, unverified. unfold_m.
  destruct (page (agent s)) as [h|] eqn:Hp.
  2:{ intros H; inversion H; subst; split; [reflexivity|].
      exists []. rewrite app_nil_r. split; [reflexivity|].
      right. split; [eexists; reflexivity|constructor]. }
  answer; [|intros H; inversion H; subst; clear H; split; [reflexivity|];
            unverified_block].
  answer; [|intros H; inversion H; subst; clear H; split; [reflexivity|];
            unverified_block].
  destruct a0 as [e|];
    [|intros H; inversion H; subst; clear H; split; [reflexivity|];
      unverified_block].
  answer; [|intros H; inversion H; subst; clear H; split; [reflexivity|];
            unverified_block].
  destruct a0;
    [|intros H; inversion H; subst; clear H; split; [reflexivity|];
      unverified_block].
  answer; [|intros H; inversion H; subst; clear H; split; [reflexivity|];
            unverified_block].
  destruct a0;
    [|intros H; inversion H; subst; clear H; split; [reflexivity|];
      unverified_block].
  answer; [|intros H; inversion H; subst; clear H; split; [reflexivity|];
            unverified_block].
  answer; [|intros H; inversion H; subst; clear H; split; [reflexivity|];
            unverified_block].
  answer; [|intros H; inversion H; subst; clear H; split; [reflexivity|];
            unverified_block].
  answer; [|intros H; inversion H; subst; clear H; split; [reflexivity|];
            unverified_block].
  answer; [|intros H; inversion H; subst; clear H; split; [reflexivity|];
            unverified_block].
  destruct (String.eqb a4 text) eqn:Heq.
  - apply String.eqb_eq in Heq. subst a4.
    intros H; inversion H; subst; clear H. split; [reflexivity|].
    normalize_trace. eexists. split; [reflexivity|].
    left. split; [reflexivity|].
    eexists [_; _; _; _; _; _; _; _], e. split; [reflexivity|].
    repeat (constructor; [reflexivity|]). constructor.
  - intros H; inversion H; subst; clear H. split; [reflexivity|].
    unverified_block.
Qed.

(** The whole retry loop of the fill: a read-back of the text occurs in its
    trace exactly when it returns [True], and is then its last event. *)
Lemma fill_loop_verified selector text max :
  forall (k : nat) (a : Z) s r s',
    retry_loop (fill_attempt selector text) max k a s = (r, s') ->
    exists new,
      trace s' = trace s ++ new
      /\ (r = Ok true ->
          exists pre e,
            new = pre ++ [Ev (input_value e) (Done text)]
            /\ unverified text pre)
      /\ (r <> Ok true -> unverified text new).
Proof.
  induction k as [|k IH]; intros a s r s' Hrun.
  - cbn in Hrun. inversion Hrun; subst. exists []. rewrite app_nil_r.
    split; [reflexivity|]. split; [discriminate|]. intros _. constructor.
  - cbn [retry_loop] in Hrun. unfold try_catch at 1 in Hrun.
    destruct (fill_attempt selector text s) as [r0 s0] eqn:Hbody.
    apply fill_attempt_block in Hbody.
    destruct Hbody as (Hag & blk & Htr & [(Hr0 & pre & e & Hblk & Hpre)
                                         | ((ex & Hr0) & Hun)]); subst r0.
    + inversion Hrun; subst. exists (pre ++ [Ev (input_value e) (Done text)]).
      split; [assumption|]. split; [|congruence].
      intros _. now exists pre, e.
    + unfold bind at 1, gets at 1 in Hrun.
      destruct (a <? max - 1)%Z, (page (agent s0)) as [h|];
        try (unfold ret in Hrun; inversion Hrun; subst; exists blk;
             split; [assumption|]; split; [discriminate|]; intros _; exact Hun).
      unfold bind at 1, call at 1 in Hrun.
      destruct (respond (wait_for_timeout h RETRY_DELAY) (world s0))
        as [[[]|m] w1].
      * apply IH in Hrun. destruct Hrun as (new & Htr' & Hok & Hko).
        cbn [trace] in Htr'.
        exists (blk ++ Ev (wait_for_timeout h RETRY_DELAY) (Done tt) :: new).
        split; [rewrite Htr', Htr; now repeat rewrite <- app_assoc|].
        split.
        -- intros Hr. destruct (Hok Hr) as (pre & e & Hnew & Hpre).
           exists (blk ++ Ev (wait_for_timeout h RETRY_DELAY) (Done tt) :: pre), e.
           split; [rewrite Hnew; now rewrite <- app_assoc|].
           apply Forall_app. split; [exact Hun|].
           constructor; [reflexivity|exact Hpre].
        -- intros Hr. apply Forall_app. split; [exact Hun|].
           constructor; [reflexivity|now apply Hko].
      * inversion Hrun; subst. cbn [trace].
        exists (blk ++ [Ev (wait_for_timeout h RETRY_DELAY) (Failed m)]).
        split; [rewrite Htr; now rewrite <- app_assoc|].
        split; [discriminate|]. intros _.
        apply Forall_app. split; [exact Hun|]. repeat constructor.
Qed.

(** When the read-back never returns the text, an attempt of the fill
    raises, and its trace is the wait for the selector followed by calls that
    are neither waits nor delays. *)
Lemma fill_attempt_never_reads_back selector text h :
  never_reads_back text ->
  forall s, page (agent s) = Some h ->
    exists ex w blk,
      fill_attempt selector text s
        = (Raise ex, mkState (agent s) w (trace s ++ blk))
      /\ unverified_attempt h selector blk.
Proof.
  intros Hnr s Hp. unfold fill_attempt. unfold_m.
  answer; [|failed_block].
  answer; [|failed_block].
  destruct a0 as [e|]; [|failed_block].
  answer; [|failed_block].
  destruct a0; [|failed_block].
  answer; [|failed_block].
  destruct a0; [|failed_block].
  answer; [|failed_block].
  answer; [|failed_block].
  answer; [|failed_block].
  answer; [|failed_block].
  pose proof (Hnr e w6) as Hnr'.
  answer; [|failed_block].
  destruct (String.eqb a4 text) eqn:Heq; [|failed_block].
  apply String.eqb_eq in Heq. subst a4. now exfalso.
Qed.

(** A pass of the [try] block that returns [True] has made exactly the calls
    of a verified fill, all completed. *)
Lemma fill_attempt_success_trace selector text s s1 :
  fill_attempt selector text s = (Ok true, s1) ->
  exists h e,
    page (agent s) = Some h
    /\ trace s1 = trace s ++ verified_fill h e selector text.
Proof.
  unfold fill_attempt, verified_fill, attempt_start. unfold_m.
  destruct (page (agent s)) as [h|] eqn:Hp; [|discriminate].
  answer; [|discriminate].
  answer; [|discriminate].
  destruct a0 as [e|]; [|discriminate].
  answer; [|discriminate].
  destruct a0; [|discriminate].
  answer; [|discriminate].
  destruct a0; [|discriminate].
  answer; [|discriminate].
  answer; [|discriminate].
  answer; [|discriminate].
  answer; [|discriminate].
  answer; [|discriminate].
  destruct (String.eqb a4 text) eqn:Heq; [|discriminate].
  apply String.eqb_eq in Heq. subst a4.
  intros H; inversion H; subst; clear H.
  exists h, e. split; [reflexivity|].
  destruct a, a0, a1, a2, a3. normalize_trace. reflexivity.
Qed.

(** C5.  The fill reads the value back and compares it with the intended
    text.  (1) In every run, a read-back equal to the text occurs exactly
    when the fill returns [True], and it is then the last call of the run: a
    mismatch is never accepted as success, and nothing follows a match.
    (2) When every read-back differs from the text (page open, delays
    completing), each attempt counts as failed and is retried: the fill
    returns [False] after exactly [n] attempts.  (3) When the first pass
    reads the text back, the fill returns [True] in the state that pass
    left, its trace being the calls of that single attempt. *)
Theorem fill_is_verified_by_read_back :
  forall (selector text : string),
    (forall (max_retries : option Z) s r s',
       _robust_fill_input selector text max_retries s = (r, s') ->
       exists new,
         trace s' = trace s ++ new
         /\ (r = Ok true ->
             exists pre e,
               new = pre ++ [Ev (input_value e) (Done text)]
               /\ unverified text pre)
         /\ (r <> Ok true -> unverified text new))
    /\ (forall (n : Z) h s,
          (1 <= n)%Z ->
          page (agent s) = Some h ->
          delays_complete ->
          never_reads_back text ->
          fails_after (unverified_attempt h selector) h
                      (_robust_fill_input selector text (Some n))
                      s (Z.to_nat n))
    /\ (forall (max_retries : option Z) s s1,
          (1 <= or_default max_retries RETRY_COUNT)%Z ->
          fill_attempt selector text s = (Ok true, s1) ->
          _robust_fill_input selector text max_retries s = (Ok true, s1)
          /\ exists h e,
              trace s1 = trace s ++ verified_fill h e selector text).
Proof.
  intros selector text. split; [|split].
  - intros max_retries s r s' Hrun. unfold _robust_fill_input in Hrun.
    eapply fill_loop_verified; eauto.
  - intros n h s Hn Hp Hd Hnr. unfold _robust_fill_input, or_default.
    replace (n =? 0)%Z with false by (symmetry; apply Z.eqb_neq; lia).
    apply retry_loop_all_fail; auto; try lia.
    intros s0 Hp0. now apply fill_attempt_never_reads_back.
  - intros max_retries s s1 Hmax Hpass. split.
    + unfold _robust_fill_input.
      destruct (Z.to_nat (or_default max_retries RETRY_COUNT)) as [|k] eqn:Hk;
        [lia|].
      cbn [retry_loop]. unfold try_catch. now rewrite Hpass.
    + apply fill_attempt_success_trace in Hpass.
      destruct Hpass as (h & e & _ & Htr). now exists h, e.
Qed.

(** ** Click fallback *)

(** A property of events that holds of every call of the body and of the
    retry delays holds of the whole trace of the loop. *)
Lemma retry_loop_trace (body : M bool) (P : Event -> Prop) max :
  (forall s r s0, body s = (r, s0) ->
     agent s0 = agent s
     /\ exists blk, trace s0 = trace s ++ blk /\ Forall P blk) ->
  (forall h r, P (Ev (wait_for_timeout h RETRY_DELAY) r)) ->
  forall (k : nat) (a : Z) s r s',
    retry_loop body max k a s = (r, s') ->
    exists new, trace s' = trace s ++ new /\ Forall P new.
Proof.
  intros Hbody Hdelay. induction k as [|k IH]; intros a s r s' Hrun.
  - cbn in Hrun. inversion Hrun; subst. exists []. now rewrite app_nil_r.
  - cbn [retry_loop] in Hrun. unfold try_catch at 1 in Hrun.
    destruct (body s) as [r0 s0] eqn:Hb.
    apply Hbody in Hb. destruct Hb as (Hag & blk & Htr & Hblk).
    destruct r0 as [b|ex|].
    + inversion Hrun; subst. now exists blk.
    + unfold bind at 1, gets at 1 in Hrun.
      destruct (a <? max - 1)%Z, (page (agent s0)) as [h|];
        try (unfold ret in Hrun; inversion Hrun; subst; now exists blk).
      unfold bind at 1, call at 1 in Hrun.
      destruct (respond (wait_for_timeout h RETRY_DELAY) (world s0))
        as [[[]|m] w1].
      * apply IH in Hrun. destruct Hrun as (new & Htr' & Hnew).
        cbn [trace] in Htr'.
        exists (blk ++ Ev (wait_for_timeout h RETRY_DELAY) (Done tt) :: new).
        split; [rewrite Htr', Htr; now repeat rewrite <- app_assoc|].
        apply Forall_app. split; [exact Hblk|]. constructor; auto.
      * inversion Hrun; subst. cbn [trace].
        exists (blk ++ [Ev (wait_for_timeout h RETRY_DELAY) (Failed m)]).
        split; [rewrite Htr; now rewrite <- app_assoc|].
        apply Forall_app. split; [exact Hblk|]. repeat constructor. auto.
    + inversion Hrun; subst. now exists blk.
Qed.

Ltac scriptless :=
  intros H; inversion H; subst; clear H; split; [reflexivity|];
  normalize_trace; eexists; split; [reflexivity|]; repeat constructor.

(** An attempt of the retrying click never runs a script. *)
Lemma click_attempt_no_script selector description s r s0 :
  click_attempt selector description s = (r, s0) ->
  agent s0 = agent s
  /\ exists blk, trace s0 = trace s ++ blk /\ no_script blk.
Proof.
  unfold click_attempt, no_script. unfold_m.
  destruct (page (agent s)) as [h|] eqn:Hp.
  2:{ intros H; inversion H; subst; split; [reflexivity|].
      exists []. rewrite app_nil_r. split; [reflexivity|constructor]. }
  answer; [|scriptless].
  answer; [|scriptless].
  destruct a0 as [e|]; [|scriptless].
  answer; [|scriptless].
  destruct a0; [|scriptless].
  answer; [|scriptless].
  destruct a0; [|scriptless].
  answer; [|scriptless].
  answer; [|scriptless].
  answer; scriptless.
Qed.

(** With a native click that never registers, an attempt of the retrying
    click raises without having run a script. *)
Lemma click_attempt_unregistered selector description h :
  click_never_registers ->
  forall s, page (agent s) = Some h ->
    exists ex w blk,
      click_attempt selector description s
        = (Raise ex, mkState (agent s) w (trace s ++ blk))
      /\ scriptless_attempt h selector blk.
Proof.
  intros Hc s Hp. unfold click_attempt, scriptless_attempt, no_script.
  unfold_m.
  answer; [|failed_block].
  answer; [|failed_block].
  destruct a0 as [e|]; [|failed_block].
  answer; [|failed_block].
  destruct a0; [|failed_block].
  answer; [|failed_block].
  destruct a0; [|failed_block].
  answer; [|failed_block].
  answer; [|failed_block].
  destruct (Hc e w4) as (m & Hm).
  answer; [discriminate|failed_block].
Qed.

(** The runs of [_scroll_and_click]: it swallows every failure, and a native
    click that fails is followed by the synthetic click on the same element,
    which ends the run. *)
Ltac destruct_units :=
  repeat match goal with
         | a : Ret ?o |- _ =>
             let t := eval cbn in (Ret o) in
             match t with unit => destruct a end
         end.

Ltac no_failed_click :=
  intros H; inversion H; subst; clear H; destruct_units; normalize_trace;
  split; [reflexivity|]; split; [reflexivity|];
  eexists; split; [reflexivity|]; left; repeat constructor.

Ltac with_fallback :=
  intros H; inversion H; subst; clear H; destruct_units; normalize_trace;
  split; [reflexivity|]; split; [reflexivity|];
  eexists; split; [reflexivity|]; right;
  eexists [_; _; _; _], _, _; split; [reflexivity|repeat constructor].

Ltac decide_probe :=
  match goal with
  | b : Ret (is_visible _) |- _ => destruct b
  | b : Ret (is_enabled _) |- _ => destruct b
  end.

Lemma scroll_and_click_runs element description s r s' :
  _scroll_and_click element description s = (r, s') ->
  r = Ok tt
  /\ agent s' = agent s
  /\ exists new,
      trace s' = trace s ++ new
      /\ (Forall (fun ev => is_failed_click ev = false) new
          \/ exists pre m r',
              new = pre ++ [Ev (click element) (Failed m);
                            Ev (evaluate element synthetic_click) r']
              /\ Forall (fun ev => is_failed_click ev = false) pre).
Proof.
  unfold _scroll_and_click, synthetic_click, on_page. unfold_m.
  answer; [|no_failed_click].
  destruct (page (agent s)) as [h|] eqn:Hp; [|no_failed_click].
  answer; [|no_failed_click].
  answer; [|no_failed_click].
  decide_probe; [|no_failed_click].
  answer; [|no_failed_click].
  decide_probe; [|no_failed_click].
  answer; [no_failed_click|].
  answer; with_fallback.
Qed.

(** C7 (as amended).  The synthetic (JavaScript) click is the fallback of
    [_scroll_and_click] only: there, a native click that fails is followed at
    once by the synthetic click on the same element, and the helper returns
    normally whatever happens.  The retrying click [_robust_click_element]
    never runs a script: when the native click does not register, the
    attempt ends as failed without any fallback, and with the page open and
    the delays completing the operation returns [False] after its [n]
    attempts. *)
Theorem synthetic_click_only_in_scroll_and_click :
  (forall (element : handle) (description : string) s r s',
     _scroll_and_click element description s = (r, s') ->
     r = Ok tt
     /\ exists new,
         trace s' = trace s ++ new
         /\ (Forall (fun ev => is_failed_click ev = false) new
             \/ exists pre m r',
                 new = pre ++ [Ev (click element) (Failed m);
                               Ev (evaluate element synthetic_click) r']
                 /\ Forall (fun ev => is_failed_click ev = false) pre))
  /\ (forall (selector description : string) (max_retries : option Z)
             s r s',
        _robust_click_element selector description max_retries s = (r, s') ->
        exists new, trace s' = trace s ++ new /\ no_script new)
  /\ (forall (selector description : string) (n : Z) h s,
        (1 <= n)%Z ->
        page (agent s) = Some h ->
        delays_complete ->
        click_never_registers ->
        fails_after (scriptless_attempt h selector) h
                    (_robust_click_element selector description (Some n))
                    s (Z.to_nat n)).
Proof.
  split; [|split].
  - intros element description s r s' Hrun.
    apply scroll_and_click_runs in Hrun.
    destruct Hrun as (Hr & _ & Hnew). now split.
  - intros selector description max_retries s r s' Hrun.
    unfold _robust_click_element in Hrun.
    eapply retry_loop_trace in Hrun; eauto.
    + intros s0 r0 s1 Hb. now apply click_attempt_no_script in Hb.
    + reflexivity.
  - intros selector description n h s Hn Hp Hd Hc.
    unfold _robust_click_element, or_default.
    replace (n =? 0)%Z with false by (symmetry; apply Z.eqb_neq; lia).
    apply retry_loop_all_fail; auto; try lia.
    intros s0 Hp0. now apply click_attempt_unregistered.
Qed.

(** ** Browser lifecycle *)

Ltac teardown_failed :=
  match goal with
  | H : all_completed _ |- _ =>
      exfalso; unfold all_completed in H;
      repeat match goal with
             | H' : Forall _ (_ :: _) |- _ => inversion H'; clear H'; subst
             end;
      discriminate
  end.

Lemma app_self_nil {A} (l x : list A) : l = l ++ x -> x = [].
Proof.
  intros H. rewrite <- (app_nil_r l) in H at 1.
  apply app_inv_head in H. now symmetry.
Qed.

Ltac lifecycle :=
  repeat (unfold set_ready, set_page, set_browser, set_botright_client in *;
          cbn in *; try answer).

(** [_cleanup_browser] never raises. *)
Lemma cleanup_browser_returns s r s' :
  _cleanup_browser s = (r, s') -> r = Ok tt.
Proof.
  unfold _cleanup_browser. unfold_m.
  destruct s as [[c b p rd ru oru] w tr].
  destruct p as [p|]; destruct b as [b|]; destruct c as [c|];
    lifecycle; intros H; inversion H; reflexivity.
Qed.

(** After a [_cleanup_browser] whose calls all completed, nothing is held,
    and the calls made are the closing of what was held. *)
Lemma cleanup_browser_releases s s' new :
  _cleanup_browser s = (Ok tt, s') ->
  trace s' = trace s ++ new ->
  all_completed new ->
  released (agent s')
  /\ _cleanup_browser s' = (Ok tt, s').
Proof.
  unfold _cleanup_browser, released. unfold_m.
  destruct s as [[c b p rd ru oru] w tr].
  destruct p as [p|]; destruct b as [b|]; destruct c as [c|];
    lifecycle;
    intros H Htr Hall; inversion H; subst; clear H; cbn in *;
    repeat rewrite <- app_assoc in Htr;
    first [apply app_inv_head in Htr | apply app_self_nil in Htr];
    subst new; cbn in *;
    try teardown_failed; repeat split.
Qed.

(** C10.  Closing is idempotent.  [close_coding_interface] always returns
    [True].  After a close whose teardown calls all completed, and in a state
    where no browser was ever opened, nothing is held (page, browser and
    client are [None], the ready flag is [False]), and a further close
    returns [True] without making any call and without changing the state:
    close followed by close is a single close. *)
Theorem close_is_idempotent :
  (forall s r s', close_coding_interface s = (r, s') -> r = Ok true)
  /\ (forall s s1 new,
        close_coding_interface s = (Ok true, s1) ->
        trace s1 = trace s ++ new ->
        all_completed new ->
        released (agent s1)
        /\ close_coding_interface s1 = (Ok true, s1))
  /\ (forall w tr ru oru,
        let s := mkState (mkAgent None None None false ru oru) w tr in
        close_coding_interface s = (Ok true, s)).
Proof.
  split; [|split].
  - intros s r s'. unfold close_coding_interface.
    unfold try_catch at 1, bind at 1.
    destruct (_cleanup_browser s) as [r0 s0] eqn:Hc.
    apply cleanup_browser_returns in Hc. subst r0.
    unfold ret. intros H; now inversion H.
  - intros s s1 new. unfold close_coding_interface.
    unfold try_catch at 1, bind at 1.
    destruct (_cleanup_browser s) as [r0 s0] eqn:Hc.
    pose proof (cleanup_browser_returns _ _ _ Hc); subst r0.
    unfold ret. intros H Htr Hall. inversion H; subst; clear H.
    destruct (cleanup_browser_releases _ _ _ Hc Htr Hall) as [Hrel Hagain].
    split; [exact Hrel|].
    unfold try_catch, bind. now rewrite Hagain.
  - intros w tr ru oru s. reflexivity.
Qed.

(** ** Indicator-based completion *)

(** The next call is a timed delay, which completes by assumption [Hd]. *)
Ltac delay_completes Hd :=
  answer;
  [|exfalso;
    match goal with
    | E : respond (wait_for_timeout ?h ?ms) ?w = (Failed _, _) |- _ =>
        let X := fresh in
        pose proof (Hd h ms w) as X; rewrite E in X; discriminate
    end].

(** C2 (as amended).  The indicator-based monitor [_wait_for_completion],
    with the page open and the delays completing, always returns normally,
    that is, declares completion, after a final wait of 2 seconds: at once
    when the stop button does not appear within the short window (no wait
    for its disappearance is made); when the button appears and then goes
    hidden; and also when the button appears and the long wait for its
    disappearance fails: that failure is caught inside the monitor and no
    timeout error is raised.  In the base class, [_wait_for_web_completion]
    returns as soon as the loading indicator is hidden, and when that wait
    fails it hands over to the content-stability monitor. *)
Theorem indicator_monitor_always_declares_completion :
  (forall s h,
     page (agent s) = Some h ->
     delays_complete ->
     exists s' seen,
       _wait_for_completion s = (Ok tt, s')
       /\ agent s' = agent s
       /\ trace s' = trace s ++ seen ++ [Ev (wait_for_timeout h 2000) (Done tt)]
       /\ indicator_outcome h seen)
  /\ (forall agent_name output_selector loading timeout_seconds fuel s h,
        page (agent s) = Some h ->
        PyStr.truthy loading = true ->
        let wait_hidden :=
          wait_for_selector h loading (Some hidden) (timeout_seconds * 1000) in
        let answered := respond wait_hidden (world s) in
        let s1 := mkState (agent s) (snd answered)
                          (trace s ++ [Ev wait_hidden (fst answered)]) in
        _wait_for_web_completion agent_name output_selector (Some loading)
                                 timeout_seconds fuel s
        = match fst answered with
          | Done _ => (Ok tt, s1)
          | Failed _ =>
              try_catch
                (_monitor_output_changes agent_name output_selector fuel
                                         (timeout_seconds * 1000))
                (fun ex => if is_agent_timeout ex then raise ex else ret tt)
                s1
          end).
Proof.
  split.
  - intros s h Hp Hd.
    unfold _wait_for_completion, _wait_for_element_robust, or_default, on_page.
    cbn [Z.eqb]. unfold_m.
    answer.
    + answer.
      * delay_completes Hd. destruct_units. normalize_trace.
        eexists _, [_; _]. split; [reflexivity|]. split; [reflexivity|].
        split; [reflexivity|]. apply appeared_then_hidden.
      * delay_completes Hd. destruct_units. normalize_trace.
        eexists _, [_; _]. split; [reflexivity|]. split; [reflexivity|].
        split; [reflexivity|]. apply never_hidden.
    + delay_completes Hd. destruct_units. normalize_trace.
      eexists _, [_]. split; [reflexivity|]. split; [reflexivity|].
      split; [reflexivity|]. apply never_appeared.
  - intros agent_name output_selector loading timeout_seconds fuel s h Hp Ht.
    cbn zeta. unfold _wait_for_web_completion.
    unfold try_catch at 1, bind at 1, gets at 1. rewrite Hp, Ht.
    unfold bind at 1, try_catch at 1, bind at 1, call at 1.
    destruct (respond (wait_for_selector h loading (Some hidden)
                                         (timeout_seconds * 1000)) (world s))
      as [[a|m] w]; cbn [fst snd]; reflexivity.
Qed.

(** ** Workspace name extraction *)

(** A pattern that begins with a literal matches only where the subject
    begins with that literal. *)
Lemma mtch_literal_prefix (lit : string) :
  forall fuel (s : string) caps k,
    PyStr.startswith lit s = false ->
    Re.mtch (Re.Lit lit) fuel s caps k = None.
Proof.
  induction lit as [|c lit IH]; intros fuel s caps k Hs.
  - destruct s; discriminate.
  - destruct s as [|a s]; [reflexivity|].
    cbn in Hs |- *. rewrite Ascii.eqb_sym.
    destruct (Ascii.eqb c a); [|reflexivity].
    cbn in Hs. now apply IH.
Qed.

Lemma search_needs_literal (lit : string) (rest : Re.regex) fuel :
  forall s : string,
    PyStr.contains lit s = false ->
    Re.search_from (Re.Seq (Re.Lit lit) rest) fuel s = None.
Proof.
  induction s as [|a s IH]; intros Hs; cbn in Hs;
    apply orb_false_iff in Hs; destruct Hs as [Hpre Hrest].
  - cbn [Re.search_from]. unfold Re.match_here. cbn [Re.mtch].
    now rewrite mtch_literal_prefix.
  - cbn [Re.search_from]. unfold Re.match_here. cbn [Re.mtch].
    rewrite mtch_literal_prefix by assumption. now apply IH.
Qed.

Lemma extract_repo_name_without_github (url : string) :
  PyStr.contains "github.com" url = false ->
  _extract_repo_name url = EmptyString.
Proof.
  intros H. unfold _extract_repo_name, Re.search, repo_pattern.
  rewrite search_needs_literal by assumption.
  now destruct (negb (PyStr.truthy url)).
Qed.

(** On a page where no selector resolves, an attempt of the retrying click
    stops at its first wait. *)
Lemma click_attempt_unresolved selector description h :
  no_selector_resolves ->
  forall s, page (agent s) = Some h ->
    exists ex w blk,
      click_attempt selector description s
        = (Raise ex, mkState (agent s) w (trace s ++ blk))
      /\ failed_attempt h selector blk.
Proof.
  intros Hno s Hp. unfold click_attempt. unfold_m.
  destruct (Hno h selector (Some visible) DEFAULT_TIMEOUT (world s))
    as (m & Hm).
  answer; [discriminate|failed_block].
Qed.

(** The next call is a wait for a selector, which fails by assumption
    [Hno]. *)
Ltac selector_unresolved Hno :=
  answer;
  [exfalso;
   match goal with
   | E : respond (wait_for_selector ?h ?sel ?st ?t) ?w = (Done _, _) |- _ =>
       let m := fresh in
       let X := fresh in
       destruct (Hno h sel st t w) as (m & X); rewrite E in X; discriminate
   end|].

Lemma find_existing_unresolved repo_name h :
  no_selector_resolves ->
  forall s, page (agent s) = Some h ->
    exists s', _find_and_select_existing_environment repo_name s = (Ok false, s')
               /\ agent s' = agent s.
Proof.
  intros Hno s Hp.
  unfold _find_and_select_existing_environment, _get_element_robust,
    or_default, on_page.
  unfold_m.
  answer; [|eexists; split; reflexivity].
  selector_unresolved Hno.
  eexists; split; reflexivity.
Qed.

Lemma create_environment_unresolved repo_name h :
  no_selector_resolves ->
  forall s, page (agent s) = Some h ->
    exists s', _create_new_environment repo_name s = (Ok false, s')
               /\ agent s' = agent s.
Proof.
  intros Hno s Hp.
  unfold _create_new_environment, _wait_for_element, _wait_for_element_robust,
    or_default, on_page.
  cbn [Z.eqb]. unfold_m.
  selector_unresolved Hno.
  selector_unresolved Hno.
  answer; [|eexists; split; reflexivity].
  selector_unresolved Hno.
  eexists; split; reflexivity.
Qed.

(** C3 (as amended).  The name extraction maps the https and the colon
    shapes of a GitHub URL, with or without a trailing [.git] and a trailing
    slash, to [owner/name], and yields the empty name for every URL that does
    not contain [github.com].  The workspace selector makes no check on the
    name: it reports failure ([False], or the failure of the page to give its
    URL) when nothing it looks for on the page resolves. *)
Theorem repo_name_extraction_and_selection :
  (_extract_repo_name "https://github.com/acme/widget.git" = "acme/widget"%string
   /\ _extract_repo_name "git@github.com:acme/widget" = "acme/widget"%string
   /\ _extract_repo_name "https://github.com/acme/widget" = "acme/widget"%string
   /\ _extract_repo_name "https://github.com/acme/widget/" = "acme/widget"%string
   /\ _extract_repo_name "https://github.com/acme/widget.git/" = "acme/widget"%string
   /\ _extract_repo_name "git@github.com:acme/widget.git" = "acme/widget"%string
   /\ _extract_repo_name "git@github.com:acme/widget/" = "acme/widget"%string
   /\ _extract_repo_name "git@github.com:acme/widget.git/" = "acme/widget"%string)
  /\ (forall url : string,
        PyStr.contains "github.com" url = false ->
        _extract_repo_name url = EmptyString)
  /\ (forall s h (url : string),
        page (agent s) = Some h ->
        repo_url (agent s) = Some url ->
        PyStr.truthy url = true ->
        no_selector_resolves ->
        delays_complete ->
        exists r s',
          _handle_environments_page s = (r, s')
          /\ (r = Ok false \/ exists m, r = Raise (PlaywrightError m))).
Proof.
  split; [|split].
  - vm_compute. repeat split.
  - exact extract_repo_name_without_github.
  - intros s h url Hp Hu Ht Hno Hd.
    unfold _handle_environments_page, get_working_repo_url, on_page.
    unfold_m. rewrite Hu. cbn [PyStr.truthy_opt]. rewrite Ht. cbn [negb].
    answer.
    2:{ eexists _, _. split; [reflexivity|]. right. now eexists. }
    set (s1 := mkState (agent s) w (trace s ++ [Ev (page_url h) (Done a)])).
    assert (Hp1 : page (agent s1) = Some h) by exact Hp.
    destruct (PyStr.contains "settings/environment/create" a); cbv beta.
    + destruct (create_environment_unresolved (_extract_repo_name url) h Hno
                  s1 Hp1) as (s' & Hrun & _).
      eexists _, _. split; [exact Hrun|now left].
    + destruct (find_existing_unresolved (_extract_repo_name url) h Hno
                  s1 Hp1) as (s2 & Hrun & Hag).
      rewrite Hrun.
      assert (Hp2 : page (agent s2) = Some h) by (now rewrite Hag).
      unfold _click_element, _robust_click_element, or_default.
      destruct (retry_loop_all_fail
                  (click_attempt CodexSelectors.CREATE_ENV_BUTTON
                                 "create environment button")
                  (failed_attempt h CodexSelectors.CREATE_ENV_BUTTON)
                  h RETRY_COUNT Hd
                  (fun s0 Hp0 => click_attempt_unresolved _ _ h Hno s0 Hp0)
                  (Z.to_nat RETRY_COUNT) 0%Z s2 Hp2)
        as (s3 & blocks & Hclick & _); [reflexivity | cbn; lia |].
      rewrite Hclick. cbn [negb].
      eexists _, _. split; [reflexivity|now left].
Qed.

(** ** Best-effort steps *)

(** Case analysis on the answers of all the calls of a computation. *)
Ltac explore :=
  repeat (simpl_state; cbv beta iota;
          match goal with
          | |- context [match page (agent ?s) with _ => _ end] =>
              destruct (page (agent s))
          | |- context [respond ?o ?w] =>
              let E := fresh "E" in
              destruct (respond o w) as [[?|?] ?] eqn:E
          | |- context [match ?x with _ => _ end] =>
              is_var x; destruct x
          | |- context [if ?b then _ else _] => destruct b
          end).

Ltac returned := simpl_state; eexists _, _; reflexivity.

Lemma solve_captcha_never_raises s :
  exists v s', solve_captcha_if_present s = (Ok v, s').
Proof.
  unfold solve_captcha_if_present. unfold_m.
  destruct (page (agent s)) as [h|]; [|returned].
  cbn [try_solvers]. unfold_m. explore; returned.
Qed.

Lemma focus_chat_input_never_raises s :
  exists v s', _focus_chat_input s = (Ok v, s').
Proof.
  unfold _focus_chat_input, on_page. unfold_m. explore; returned.
Qed.

Lemma extract_output_content_never_raises s :
  exists v s', _extract_output_content s = (Ok v, s').
Proof.
  unfold _extract_output_content, on_page. unfold_m. explore; returned.
Qed.

Lemma try_create_pr_never_raises s :
  exists v s', _try_create_pr s = (Ok v, s').
Proof.
  unfold _try_create_pr, on_page. unfold_m. explore; returned.
Qed.

Lemma extract_pr_url_never_raises s :
  exists v s', _extract_pr_url s = (Ok v, s').
Proof.
  unfold _extract_pr_url, on_page. unfold_m. explore; returned.
Qed.

(** The response records what was captured. *)
Lemma compose_response_records output_content pr_url :
  success (compose_response output_content pr_url) = true
  /\ error_message (compose_response output_content pr_url) = None
  /\ captured (content (compose_response output_content pr_url))
     = (PyStr.truthy_opt output_content, PyStr.truthy_opt pr_url).
Proof.
  destruct output_content as [[|a out]|], pr_url as [[|b url]|];
    repeat split.
Qed.

(** The content of the response, case by case: the status line, then the
    output section when a non-empty output was captured, then the line of
    the PR link when a non-empty link was captured.  With a PR link and no
    output the status line is still the one that names both, and the output
    section is absent. *)
Lemma compose_response_content output_content pr_url :
  content (compose_response output_content pr_url)
  = match (if PyStr.truthy_opt output_content then output_content else None),
          (if PyStr.truthy_opt pr_url then pr_url else None) with
    | Some out, Some url =>
        PyStr.join (nl ++ nl)
          [ "Task completed successfully with output and PR created.";
            "AGENT OUTPUT:"; PyStr.repeat_char "="%char 50; out;
            PyStr.repeat_char "="%char 50; "PR created: " ++ url ]%string
    | Some out, None =>
        PyStr.join (nl ++ nl)
          [ "Task completed successfully with output generated.";
            "AGENT OUTPUT:"; PyStr.repeat_char "="%char 50; out;
            PyStr.repeat_char "="%char 50 ]%string
    | None, Some url =>
        PyStr.join (nl ++ nl)
          [ "Task completed successfully with output and PR created.";
            "PR created: " ++ url ]%string
    | None, None => "Task completed but no output or PR captured."%string
    end.
Proof.
  destruct output_content as [[|a out]|], pr_url as [[|b url]|];
    reflexivity.
Qed.

(** C9.  The best-effort steps (captcha solving, focusing the chat input,
    output extraction, PR creation, PR-link extraction) never raise: their
    failures are caught inside them.  Hence, once the prompt was sent, the
    created task was opened and the completion monitor returned, the task
    ends with [success = True] and no error message whatever was captured.
    The response is composed from exactly what the two extractions
    returned: the output that [_extract_output_content] returned after the
    monitor, and the PR link that [_extract_pr_url] returned after the
    attempt to create the PR.  Its content tells which of the two were
    captured: it holds the output section exactly when a non-empty output
    text was returned, and the line of the PR link exactly when a non-empty
    link was returned. *)
Theorem best_effort_steps_do_not_fail_the_task :
  (forall s, exists v s', solve_captcha_if_present s = (Ok v, s'))
  /\ (forall s, exists v s', _extract_output_content s = (Ok v, s'))
  /\ (forall s, exists v s', _try_create_pr s = (Ok v, s'))
  /\ (forall s, exists v s', _extract_pr_url s = (Ok v, s'))
  /\ (forall (prompt : string) s s1 s2 s3,
        _send_prompt prompt s = (Ok tt, s1) ->
        _open_created_task s1 = (Ok true, s2) ->
        _wait_for_completion (snd (_focus_chat_input s2)) = (Ok tt, s3) ->
        exists output_content pr_url,
          fst (_extract_output_content s3) = Ok output_content
          /\ _extract_pr_url
               (snd (_try_create_pr (snd (_extract_output_content s3))))
             = (Ok pr_url,
                snd (codex_execute_prompt prompt s))
          /\ fst (codex_execute_prompt prompt s)
             = Ok (compose_response output_content pr_url)
          /\ success (compose_response output_content pr_url) = true
          /\ error_message (compose_response output_content pr_url) = None
          /\ captured (content (compose_response output_content pr_url))
             = (PyStr.truthy_opt output_content, PyStr.truthy_opt pr_url))
  /\ (forall output_content pr_url,
        content (compose_response output_content pr_url)
        = match (if PyStr.truthy_opt output_content
                 then output_content else None),
                (if PyStr.truthy_opt pr_url then pr_url else None) with
          | Some out, Some url =>
              PyStr.join (nl ++ nl)
                [ "Task completed successfully with output and PR created.";
                  "AGENT OUTPUT:"; PyStr.repeat_char "="%char 50; out;
                  PyStr.repeat_char "="%char 50;
                  "PR created: " ++ url ]%string
          | Some out, None =>
              PyStr.join (nl ++ nl)
                [ "Task completed successfully with output generated.";
                  "AGENT OUTPUT:"; PyStr.repeat_char "="%char 50; out;
                  PyStr.repeat_char "="%char 50 ]%string
          | None, Some url =>
              PyStr.join (nl ++ nl)
                [ "Task completed successfully with output and PR created.";
                  "PR created: " ++ url ]%string
          | None, None =>
              "Task completed but no output or PR captured."%string
          end).
Proof.
  split; [exact solve_captcha_never_raises|].
  split; [exact extract_output_content_never_raises|].
  split; [exact try_create_pr_never_raises|].
  split; [exact extract_pr_url_never_raises|].
  split; [|exact compose_response_content].
  intros prompt s s1 s2 s3 Hsend Hopen Hwait.
  destruct (focus_chat_input_never_raises s2) as ([] & sf & Hfocus).
  rewrite Hfocus in Hwait. cbn [snd] in Hwait.
  destruct (extract_output_content_never_raises s3) as (out & so & Hout).
  destruct (try_create_pr_never_raises so) as ([] & sp & Hpr).
  destruct (extract_pr_url_never_raises sp) as (pr & s4 & Hurl).
  assert (Hrun : codex_execute_prompt prompt s
                 = (Ok (compose_response out pr), s4)).
  { unfold codex_execute_prompt, _complete_task_and_get_pr.
    unfold try_catch, bind, ret.
    rewrite Hsend, Hopen. cbn [negb].
    rewrite Hfocus, Hwait, Hout, Hpr, Hurl. reflexivity. }
  exists out, pr.
  rewrite Hrun, Hout. cbn [fst snd]. rewrite Hpr. cbn [snd].
  split; [reflexivity|]. split; [exact Hurl|]. split; [reflexivity|].
  destruct (compose_response_records out pr) as (Hs & He & Hc).
  now repeat split.
Qed.

(** ** Content-stability completion *)

Lemma steady_of_no_reading c blk :
  Forall (fun ev => reading ev = None) blk -> steady c blk.
Proof.
  unfold steady. intros H. eapply Forall_impl; [|exact H]. now left.
Qed.

Lemma quiet_extend base lc lct tr blk :
  quiet base lc lct tr -> steady lc blk -> quiet base lc lct (tr ++ blk).
Proof.
  intros [Hq|(pre & e & post & Htr & Hpost)] Hblk; [now left|].
  right. exists pre, e, (post ++ blk). split.
  - rewrite Htr. now repeat rewrite <- app_assoc.
  - now apply Forall_app.
Qed.

Ltac read_leaf :=
  intros H; inversion H; subst; clear H; split; [reflexivity|];
  normalize_trace; eexists; split; [reflexivity|].

Ltac steady_block :=
  repeat (constructor; [first [now left | now right]|]); constructor.

(** One reading of the output area: it raises before having read anything,
    or returns a content that its trace shows; a non-empty content is the
    answer to the last call, [text_content]. *)
Lemma read_output_run output_selector s r s1 :
  read_output output_selector s = (r, s1) ->
  agent s1 = agent s
  /\ exists blk,
      trace s1 = trace s ++ blk
      /\ match r with
         | Raise _ => Forall (fun ev => reading ev = None) blk
         | Ok c =>
             steady c blk
             /\ (c <> EmptyString ->
                 exists e blk0,
                   blk = blk0 ++ [Ev (text_content e) (Done (Some c))])
         | OutOfFuel => False
         end.
Proof.
  unfold read_output, steady. unfold_m.
  destruct (page (agent s)) as [h|] eqn:Hp.
  - answer; [|read_leaf; repeat constructor].
    destruct a as [e|].
    + answer; [|read_leaf; repeat constructor].
      destruct a as [v|]; read_leaf.
      * split; [steady_block|].
        intros _. now exists e, [Ev (query_selector h output_selector)
                                    (Done (Some e))].
      * split; [steady_block|]. intros Hc. now contradiction Hc.
    + read_leaf. split; [steady_block|]. intros Hc. now contradiction Hc.
  - intros H; inversion H; subst; clear H.
    split; [reflexivity|]. exists []. rewrite app_nil_r.
    split; [reflexivity|]. split; [constructor|].
    intros Hc. now contradiction Hc.
Qed.

(** The wait of the check interval makes no reading. *)
Lemma wait_if_page_run ms s r s1 :
  wait_if_page ms s = (r, s1) ->
  agent s1 = agent s
  /\ exists blk,
      trace s1 = trace s ++ blk
      /\ Forall (fun ev => reading ev = None) blk.
Proof.
  unfold_m. destruct (page (agent s)) as [h|].
  - answer; intros H; inversion H; subst; clear H;
      (split; [reflexivity|]); eexists; (split; [reflexivity|]);
      repeat constructor.
  - intros H; inversion H; subst; clear H.
    split; [reflexivity|]. exists []. rewrite app_nil_r.
    split; [reflexivity|constructor].
Qed.

(** When the loop of the monitor returns, the trace shows a content of more
    than 100 characters that was read, followed by a reading of the clock,
    by readings of the same content only, and by a reading of the clock at
    least 10 seconds later. *)
Lemma monitor_loop_completes agent_name output_selector base :
  forall (fuel : nat) (timeout_ms start_time : Z) (lc : string) (lct : Z)
         s s',
    monitor_loop agent_name output_selector fuel timeout_ms start_time lc lct s
      = (Ok tt, s') ->
    (exists mid, trace s = base ++ mid) ->
    quiet base lc lct (trace s) ->
    exists pre e c t0 post t,
      trace s' = base ++ pre
                   ++ [Ev (text_content e) (Done (Some c)); clock_read t0]
                   ++ post ++ [clock_read t]
      /\ steady c post
      /\ (stable_content_duration_ms <= t - t0)%Z
      /\ (100 < String.length c)%nat.
Proof.
  induction fuel as [|fuel IH];
    intros timeout_ms start_time lc lct s s' Hrun Hbase Hq;
    [discriminate|].
  cbn [monitor_loop] in Hrun.
  unfold bind at 1, now at 1 in Hrun.
  destruct (clock (world s)) as [t1 w1].
  destruct (t1 - start_time <? timeout_ms)%Z; [|discriminate].
  set (sa := mkState (agent s) w1 (trace s ++ [Ev time_time (Done t1)])) in *.
  assert (Hqa : quiet base lc lct (trace sa)).
  { apply quiet_extend; [exact Hq|]. steady_block. }
  assert (Hba : exists mid, trace sa = base ++ mid).
  { destruct Hbase as (mid & Hmid). exists (mid ++ [Ev time_time (Done t1)]).
    cbn. rewrite Hmid. now rewrite <- app_assoc. }
  clearbody sa. clear Hq Hbase.
  unfold bind at 1, try_catch at 1, bind at 1 in Hrun.
  destruct (read_output output_selector sa) as [r sb] eqn:Hread.
  apply read_output_run in Hread.
  destruct Hread as (Hag & blk & Htr & Hblk).
  destruct r as [cur|ex|]; [| |contradiction].
  - (* the output area was read *)
    destruct Hblk as (Hsteady & Hlast).
    unfold ret at 1 in Hrun.
    unfold bind at 1 in Hrun.
    destruct (negb (String.eqb cur lc)) eqn:Hchanged.
    + (* the content changed: the quiet period starts again *)
      unfold bind at 1, now at 1 in Hrun.
      destruct (clock (world sb)) as [t2 w2].
      unfold ret at 1 in Hrun. cbn [fst snd] in Hrun.
      unfold bind at 1, now at 1 in Hrun. cbn [world agent trace] in Hrun.
      destruct (clock w2) as [t3 w3].
      set (sc := mkState (agent sb) w3
                   ((trace sb ++ [Ev time_time (Done t2)])
                      ++ [Ev time_time (Done t3)])) in *.
      assert (Hbc : exists mid, trace sc = base ++ mid).
      { destruct Hba as (mid & Hmid).
        exists (mid ++ blk ++ [Ev time_time (Done t2); Ev time_time (Done t3)]).
        cbn. rewrite Htr, Hmid. now repeat rewrite <- app_assoc. }
      assert (Hshape : cur <> EmptyString ->
                exists pre e,
                  trace sc = base ++ pre
                    ++ [Ev (text_content e) (Done (Some cur)); clock_read t2]
                    ++ [clock_read t3]).
      { intros Hne. destruct (Hlast Hne) as (e & blk0 & Hb0).
        destruct Hba as (mid & Hmid).
        exists (mid ++ blk0), e. cbn. rewrite Htr, Hmid, Hb0.
        unfold clock_read. now repeat rewrite <- app_assoc. }
      destruct ((stable_content_duration_ms <=? t3 - t2)%Z
                && Nat.ltb 100 (String.length cur))%bool eqn:Hdone.
      * (* completion *)
        apply andb_prop in Hdone. destruct Hdone as [Hdur Hlen].
        apply Z.leb_le in Hdur. apply Nat.ltb_lt in Hlen.
        unfold ret in Hrun. inversion Hrun; subst s'.
        assert (Hne : cur <> EmptyString)
          by (intros ->; cbn in Hlen; lia).
        destruct (Hshape Hne) as (pre & e & Hsc).
        exists pre, e, cur, t2, [], t3.
        split; [exact Hsc|]. split; [constructor|]. now split.
      * unfold bind at 1, try_catch at 1 in Hrun.
        destruct (wait_if_page check_interval_ms sc) as [rw sd] eqn:Hw.
        apply wait_if_page_run in Hw. destruct Hw as (Hagd & blkw & Htrw & Hnw).
        assert (Hqc : quiet base cur t2 (trace sc)).
        { destruct cur as [|ch cur'] eqn:Hcur; [now left|].
          right. destruct Hshape as (pre & e & Hsc); [discriminate|].
          exists pre, e, [clock_read t3]. split; [exact Hsc|].
          steady_block. }
        destruct rw as [[]|exw|].
        -- apply (IH _ _ _ _ _ _ Hrun).
           ++ destruct Hbc as (mid & Hmid). exists (mid ++ blkw).
              rewrite Htrw, Hmid. now rewrite <- app_assoc.
           ++ rewrite Htrw. apply quiet_extend; [exact Hqc|].
              now apply steady_of_no_reading.
        -- destruct (wait_if_page check_interval_ms sd) as [rw' se] eqn:Hw'.
           apply wait_if_page_run in Hw'.
           destruct Hw' as (Hage & blkw' & Htrw' & Hnw').
           destruct rw' as [[]|exw'|]; try discriminate.
           apply (IH _ _ _ _ _ _ Hrun).
           ++ destruct Hbc as (mid & Hmid). exists (mid ++ blkw ++ blkw').
              rewrite Htrw', Htrw, Hmid. now repeat rewrite <- app_assoc.
           ++ rewrite Htrw', Htrw. rewrite <- app_assoc.
              apply quiet_extend; [exact Hqc|].
              apply steady_of_no_reading. now apply Forall_app.
        -- discriminate.
    + (* the content is the one read last *)
      apply negb_false_iff, String.eqb_eq in Hchanged. subst cur.
      unfold ret at 1 in Hrun. cbn [fst snd] in Hrun.
      unfold bind at 1, now at 1 in Hrun.
      destruct (clock (world sb)) as [t3 w3].
      set (sc := mkState (agent sb) w3
                   (trace sb ++ [Ev time_time (Done t3)])) in *.
      assert (Hqb : quiet base lc lct (trace sb)).
      { rewrite Htr. now apply quiet_extend. }
      assert (Hbb : exists mid, trace sb = base ++ mid).
      { destruct Hba as (mid & Hmid). exists (mid ++ blk).
        rewrite Htr, Hmid. now rewrite <- app_assoc. }
      destruct ((stable_content_duration_ms <=? t3 - lct)%Z
                && Nat.ltb 100 (String.length lc))%bool eqn:Hdone.
      * apply andb_prop in Hdone. destruct Hdone as [Hdur Hlen].
        apply Z.leb_le in Hdur. apply Nat.ltb_lt in Hlen.
        unfold ret in Hrun. inversion Hrun; subst s'.
        destruct Hqb as [->|(pre & e & post & Hsb & Hpost)];
          [cbn in Hlen; lia|].
        exists pre, e, lc, lct, post, t3.
        split; [|now repeat split].
        subst sc. cbn [trace]. rewrite Hsb. unfold clock_read.
        now repeat rewrite <- app_assoc.
      * assert (Hqc : quiet base lc lct (trace sc)).
        { subst sc. cbn [trace]. apply quiet_extend; [exact Hqb|].
          steady_block. }
        assert (Hbc : exists mid, trace sc = base ++ mid).
        { destruct Hbb as (mid & Hmid).
          exists (mid ++ [Ev time_time (Done t3)]).
          subst sc. cbn [trace]. rewrite Hmid. now rewrite <- app_assoc. }
        clearbody sc.
        unfold bind at 1, try_catch at 1 in Hrun.
        destruct (wait_if_page check_interval_ms sc) as [rw sd] eqn:Hw.
        apply wait_if_page_run in Hw. destruct Hw as (Hagd & blkw & Htrw & Hnw).
        destruct rw as [[]|exw|].
        -- apply (IH _ _ _ _ _ _ Hrun).
           ++ destruct Hbc as (mid & Hmid). exists (mid ++ blkw).
              rewrite Htrw, Hmid. now rewrite <- app_assoc.
           ++ rewrite Htrw. apply quiet_extend; [exact Hqc|].
              now apply steady_of_no_reading.
        -- destruct (wait_if_page check_interval_ms sd) as [rw' se] eqn:Hw'.
           apply wait_if_page_run in Hw'.
           destruct Hw' as (Hage & blkw' & Htrw' & Hnw').
           destruct rw' as [[]|exw'|]; try discriminate.
           apply (IH _ _ _ _ _ _ Hrun).
           ++ destruct Hbc as (mid & Hmid). exists (mid ++ blkw ++ blkw').
              rewrite Htrw', Htrw, Hmid. now repeat rewrite <- app_assoc.
           ++ rewrite Htrw', Htrw. rewrite <- app_assoc.
              apply quiet_extend; [exact Hqc|].
              apply steady_of_no_reading. now apply Forall_app.
        -- discriminate.
  - (* the reading raised: wait and go round again *)
    unfold bind at 1 in Hrun.
    destruct (wait_if_page check_interval_ms sb) as [rw sd] eqn:Hw.
    apply wait_if_page_run in Hw. destruct Hw as (Hagd & blkw & Htrw & Hnw).
    destruct rw as [[]|exw|]; try discriminate.
    unfold ret at 1 in Hrun.
    apply (IH _ _ _ _ _ _ Hrun).
    + destruct Hba as (mid & Hmid). exists (mid ++ blk ++ blkw).
      rewrite Htrw, Htr, Hmid. now repeat rewrite <- app_assoc.
    + rewrite Htrw, Htr. rewrite <- app_assoc.
      apply quiet_extend; [exact Hqa|].
      apply steady_of_no_reading. now apply Forall_app.
Qed.

(** Brings the answers found by case analysis into the other hypotheses. *)
Ltac use_answers :=
  repeat match goal with
         | E : respond ?o ?w = _, H : context [respond ?o ?w] |- _ =>
             rewrite E in H; cbn [fst snd] in H
         end.

(** Time along the steps of the monitor. *)
Lemma now_time (tm : World -> Z) s :
  time_passes tm ->
  exists t s1,
    now s = (Ok t, s1)
    /\ agent s1 = agent s
    /\ (tm (world s) <= t <= tm (world s1))%Z.
Proof.
  intros (Hclock & _ & _). unfold now.
  pose proof (Hclock (world s)) as Ht.
  destruct (clock (world s)) as [t w]. cbn in Ht.
  eexists _, _. split; [reflexivity|]. now split.
Qed.

Lemma wait_if_page_time (tm : World -> Z) ms s h :
  time_passes tm ->
  delays_complete ->
  page (agent s) = Some h ->
  exists s1,
    wait_if_page ms s = (Ok tt, s1)
    /\ agent s1 = agent s
    /\ (tm (world s) + ms <= tm (world s1))%Z.
Proof.
  intros (_ & _ & Hwait) Hd Hp. unfold_m.
  pose proof (Hwait h ms (world s)) as Ht.
  delay_completes Hd. use_answers. destruct_units.
  eexists. split; [reflexivity|]. now split.
Qed.

Lemma read_output_time (tm : World -> Z) output_selector s r s1 :
  time_passes tm ->
  output_stays_short ->
  read_output output_selector s = (r, s1) ->
  agent s1 = agent s
  /\ (tm (world s) <= tm (world s1))%Z
  /\ match r with
     | Ok c => (String.length c <= 100)%nat
     | Raise _ => True
     | OutOfFuel => False
     end.
Proof.
  intros (_ & Hmono & _) Hshort. unfold read_output. unfold_m.
  destruct (page (agent s)) as [h|].
  - pose proof (Hmono (query_selector h output_selector) (world s)) as H1.
    answer; use_answers.
    + destruct a as [e|].
      * pose proof (Hmono (text_content e) w) as H2.
        pose proof (Hshort e w) as H3.
        answer; use_answers.
        -- destruct a as [v|]; intros H; inversion H; subst; clear H;
             (split; [reflexivity|]); (split; [cbn; lia|]); cbn.
           ++ now apply H3.
           ++ lia.
        -- intros H; inversion H; subst; clear H.
           split; [reflexivity|]. split; [cbn; lia|exact I].
      * intros H; inversion H; subst; clear H.
        split; [reflexivity|]. split; [cbn; lia|cbn; lia].
    + intros H; inversion H; subst; clear H.
      split; [reflexivity|]. split; [cbn; lia|exact I].
  - intros H; inversion H; subst; clear H.
    split; [reflexivity|]. split; [lia|cbn; lia].
Qed.

(** With time passing and an output that stays short, the loop of the
    monitor ends by raising the timeout, within a number of turns bounded by
    the time left. *)
Lemma monitor_loop_times_out agent_name output_selector (tm : World -> Z) h :
  time_passes tm ->
  delays_complete ->
  output_stays_short ->
  forall (fuel : nat) (timeout_ms start_time : Z) (lc : string) (lct : Z) s,
    page (agent s) = Some h ->
    (Z.to_nat (timeout_ms - (tm (world s) - start_time)) < fuel)%nat ->
    exists s',
      monitor_loop agent_name output_selector fuel timeout_ms start_time
                   lc lct s
      = (Raise (AgentTimeoutException agent_name (Z.quot timeout_ms 1000)
                                      "Web agent processing timed out"), s')
      /\ agent s' = agent s.
Proof.
  intros Htm Hd Hshort.
  induction fuel as [|fuel IH]; intros timeout_ms start_time lc lct s Hp Hfuel;
    [lia|].
  cbn [monitor_loop].
  destruct (now_time tm s Htm) as (t1 & sa & Hnow & Haga & Ht1).
  unfold bind at 1. rewrite Hnow.
  destruct (t1 - start_time <? timeout_ms)%Z eqn:Hlt.
  2:{ eexists. split; [reflexivity|exact Haga]. }
  apply Z.ltb_lt in Hlt.
  assert (Hpa : page (agent sa) = Some h) by (now rewrite Haga).
  unfold bind at 1, try_catch at 1, bind at 1.
  destruct (read_output output_selector sa) as [r sb] eqn:Hread.
  destruct (read_output_time tm _ _ _ _ Htm Hshort Hread) as (Hagb & Htb & Hr).
  assert (Hpb : page (agent sb) = Some h) by (now rewrite Hagb).
  destruct r as [cur|ex|]; [| |contradiction].
  - unfold ret at 1. unfold bind at 1.
    assert (Hlen : Nat.ltb 100 (String.length cur) = false)
      by (apply Nat.ltb_ge; exact Hr).
    destruct (negb (String.eqb cur lc)).
    + destruct (now_time tm sb Htm) as (t2 & sb2 & Hnow2 & Hagb2 & Ht2).
      unfold bind at 1. rewrite Hnow2. unfold ret at 1. cbn [fst snd].
      destruct (now_time tm sb2 Htm) as (t3 & sc & Hnow3 & Hagc & Ht3).
      unfold bind at 1. rewrite Hnow3.
      rewrite Hlen, andb_false_r.
      assert (Hpc : page (agent sc) = Some h) by (now rewrite Hagc, Hagb2).
      destruct (wait_if_page_time tm check_interval_ms sc h Htm Hd Hpc)
        as (sd & Hw & Hagd & Htd).
      unfold bind at 1, try_catch at 1. rewrite Hw.
      destruct (IH timeout_ms start_time cur t2 sd) as (s' & Hrun & Hag');
        [now rewrite Hagd | unfold check_interval_ms in Htd; lia |].
      exists s'. split; [exact Hrun|].
      now rewrite Hag', Hagd, Hagc, Hagb2, Hagb, Haga.
    + unfold ret at 1. cbn [fst snd].
      destruct (now_time tm sb Htm) as (t3 & sc & Hnow3 & Hagc & Ht3).
      unfold bind at 1. rewrite Hnow3.
      rewrite Hlen, andb_false_r.
      assert (Hpc : page (agent sc) = Some h) by (now rewrite Hagc).
      destruct (wait_if_page_time tm check_interval_ms sc h Htm Hd Hpc)
        as (sd & Hw & Hagd & Htd).
      unfold bind at 1, try_catch at 1. rewrite Hw.
      destruct (IH timeout_ms start_time lc lct sd) as (s' & Hrun & Hag');
        [now rewrite Hagd | unfold check_interval_ms in Htd; lia |].
      exists s'. split; [exact Hrun|].
      now rewrite Hag', Hagd, Hagc, Hagb, Haga.
  - destruct (wait_if_page_time tm check_interval_ms sb h Htm Hd Hpb)
      as (sd & Hw & Hagd & Htd).
    unfold bind at 1. rewrite Hw. unfold ret at 1.
    destruct (IH timeout_ms start_time lc lct sd) as (s' & Hrun & Hag');
      [now rewrite Hagd | unfold check_interval_ms in Htd; lia |].
    exists s'. split; [exact Hrun|].
    now rewrite Hag', Hagd, Hagb, Haga.
Qed.

(** The exception of the content monitor passes through
    [_wait_for_web_completion] when it is the timeout, and is dropped
    otherwise. *)
Lemma wait_for_web_completion_outcome
      agent_name output_selector loading_selector timeout_seconds fuel
      s s1 ex s' :
  monitor_entered loading_selector (timeout_seconds * 1000) s s1 ->
  _monitor_output_changes agent_name output_selector fuel
                          (timeout_seconds * 1000) s1 = (Raise ex, s') ->
  _wait_for_web_completion agent_name output_selector loading_selector
                           timeout_seconds fuel s
  = (if is_agent_timeout ex then Raise ex else Ok tt, s').
Proof.
  intros Henter Hmon. unfold _wait_for_web_completion.
  unfold try_catch at 1, bind at 1, gets at 1.
  destruct Henter as [Hnone | sel h m w Hsel Ht Hp Hfail].
  - assert (Hskip :
      (finished <-
         match loading_selector, page (agent s) with
         | Some sel, Some h =>
             if PyStr.truthy sel then
               try_catch
                 (call (wait_for_selector h sel (Some hidden)
                                          (timeout_seconds * 1000)) ;;
                  ret true)
                 (fun _ => ret false)
             else ret false
         | _, _ => ret false
         end ;;
       if finished then ret tt
       else _monitor_output_changes agent_name output_selector fuel
                                    (timeout_seconds * 1000)) s
      = (Raise ex, s')).
    { destruct loading_selector as [sel|], (page (agent s)) as [h|];
        cbn in Hnone; try (unfold bind, ret; now rewrite Hmon).
      rewrite andb_true_r in Hnone. rewrite Hnone.
      unfold bind, ret. now rewrite Hmon. }
    rewrite Hskip. destruct (is_agent_timeout ex); reflexivity.
  - rewrite Hsel, Hp, Ht.
    unfold bind at 1, try_catch at 1, bind at 1, call at 1.
    rewrite Hfail. unfold ret at 1. rewrite Hmon.
    destruct (is_agent_timeout ex); reflexivity.
Qed.

(** An exception raised while waiting for completion ends the task of the
    base class as failed, with the exception as its cause. *)
Lemma execute_prompt_fails_on_exception
      agent_name input_selector submit_selector output_selector
      loading_selector output_file read_file timeout_seconds fuel
      (prompt : string) s h s1 ex s2 :
  _is_browser_ready (agent s) = true ->
  page (agent s) = Some h ->
  _send_prompt_to_web_interface input_selector submit_selector
    (combined_prompt output_file prompt) s = (Ok tt, s1) ->
  _wait_for_web_completion agent_name output_selector loading_selector
    timeout_seconds fuel s1 = (Raise ex, s2) ->
  execute_prompt agent_name input_selector submit_selector output_selector
    loading_selector output_file read_file timeout_seconds fuel prompt s
  = (Ok (mkResponse "" false
                    (Some ("Failed to execute prompt: " ++ exn_str ex)%string)),
     s2).
Proof.
  intros Hready Hp Hsend Hwait. unfold execute_prompt.
  unfold try_catch at 1, bind at 1, gets at 1.
  unfold bind at 1, gets at 1. rewrite Hready, Hp. cbn [negb orb].
  unfold bind at 1, ret at 1. unfold bind at 1. rewrite Hsend.
  unfold bind at 1. rewrite Hwait. reflexivity.
Qed.

(** C4.  The content-stability monitor [_monitor_output_changes] returns
    (declares completion) only when a content of more than 100 characters
    has been read, every reading of the output since the clock reading that
    followed that one has returned the same content, and the clock has then
    read a time at least 10 seconds later: a reading with another content
    moves the start of the quiet period to the clock reading that follows it.
    When time passes, delays complete and the output never exceeds 100
    characters, the monitor raises [AgentTimeoutException]; that exception
    passes through [_wait_for_web_completion], which drops every other one,
    and ends the task as failed. *)
Theorem content_stability_monitor :
  (forall agent_name output_selector fuel timeout_ms s s',
     _monitor_output_changes agent_name output_selector fuel timeout_ms s
       = (Ok tt, s') ->
     exists pre e c t0 post t,
       trace s' = trace s ++ pre
                    ++ [Ev (text_content e) (Done (Some c)); clock_read t0]
                    ++ post ++ [clock_read t]
       /\ steady c post
       /\ (stable_content_duration_ms <= t - t0)%Z
       /\ (100 < String.length c)%nat)
  /\ (forall agent_name output_selector (tm : World -> Z) h fuel timeout_ms s,
        time_passes tm ->
        delays_complete ->
        output_stays_short ->
        page (agent s) = Some h ->
        (Z.to_nat timeout_ms < fuel)%nat ->
        exists s',
          _monitor_output_changes agent_name output_selector fuel timeout_ms s
          = (Raise (AgentTimeoutException agent_name (Z.quot timeout_ms 1000)
                                          "Web agent processing timed out"),
             s'))
  /\ (forall agent_name output_selector loading_selector timeout_seconds fuel
             s s1 ex s',
        monitor_entered loading_selector (timeout_seconds * 1000) s s1 ->
        _monitor_output_changes agent_name output_selector fuel
                                (timeout_seconds * 1000) s1 = (Raise ex, s') ->
        _wait_for_web_completion agent_name output_selector loading_selector
                                 timeout_seconds fuel s
        = (if is_agent_timeout ex then Raise ex else Ok tt, s'))
  /\ (forall agent_name input_selector submit_selector output_selector
             loading_selector output_file read_file timeout_seconds fuel
             (prompt : string) s h s1 ex s2,
        _is_browser_ready (agent s) = true ->
        page (agent s) = Some h ->
        _send_prompt_to_web_interface input_selector submit_selector
          (combined_prompt output_file prompt) s = (Ok tt, s1) ->
        _wait_for_web_completion agent_name output_selector loading_selector
          timeout_seconds fuel s1 = (Raise ex, s2) ->
        exists response,
          execute_prompt agent_name input_selector submit_selector
            output_selector loading_selector output_file read_file
            timeout_seconds fuel prompt s = (Ok response, s2)
          /\ success response = false
          /\ error_message response
             = Some ("Failed to execute prompt: " ++ exn_str ex)%string).
Proof.
  split; [|split; [|split]].
  - intros agent_name output_selector fuel timeout_ms s s' Hrun.
    unfold _monitor_output_changes in Hrun.
    unfold bind at 1, now at 1 in Hrun.
    destruct (clock (world s)) as [t1 w1].
    unfold bind at 1, now at 1 in Hrun. cbn [world agent trace] in Hrun.
    destruct (clock w1) as [t2 w2].
    eapply (monitor_loop_completes agent_name output_selector (trace s))
      in Hrun.
    + exact Hrun.
    + cbn [trace]. eexists. now rewrite <- app_assoc.
    + now left.
  - intros agent_name output_selector tm h fuel timeout_ms s
           Htm Hd Hshort Hp Hfuel.
    unfold _monitor_output_changes.
    destruct (now_time tm s Htm) as (t1 & sa & Hnow1 & Haga & Ht1).
    unfold bind at 1. rewrite Hnow1.
    destruct (now_time tm sa Htm) as (t2 & sb & Hnow2 & Hagb & Ht2).
    unfold bind at 1. rewrite Hnow2.
    destruct (monitor_loop_times_out agent_name output_selector tm h
                Htm Hd Hshort fuel timeout_ms t2 EmptyString t1 sb)
      as (s' & Hrun & _); [now rewrite Hagb, Haga | lia |].
    now exists s'.
  - intros. now apply wait_for_web_completion_outcome with (s1 := s1).
  - intros agent_name input_selector submit_selector output_selector
           loading_selector output_file read_file timeout_seconds fuel
           prompt s h s1 ex s2 Hready Hp Hsend Hwait.
    eexists. split; [|split].
    + eapply execute_prompt_fails_on_exception; eauto.
    + reflexivity.
    + reflexivity.
Qed.

(** ** Readiness before submission *)

(** The guard of the base class: when the interface is not ready,
    [WebAgent.execute_prompt] returns a failed response with its cause and
    makes no call at all. *)
Lemma base_execute_prompt_refuses_when_not_ready
      agent_name input_selector submit_selector output_selector
      loading_selector output_file read_file timeout_seconds fuel
      (prompt : string) s :
  _is_browser_ready (agent s) = false \/ page (agent s) = None ->
  execute_prompt agent_name input_selector submit_selector output_selector
    loading_selector output_file read_file timeout_seconds fuel prompt s
  = (Ok (mkResponse "" false
           (Some "Failed to execute prompt: Browser not ready. Call open_coding_interface() first."%string)),
     s).
Proof.
  intros H. unfold execute_prompt. unfold_m.
  destruct H as [H|H]; rewrite H; [|destruct (_is_browser_ready (agent s))];
    reflexivity.
Qed.

(** Without a page, the retry loop stops at its first attempt: the handler
    of the loop returns [False] when there is no page to wait on. *)
Lemma robust_interaction_without_page selector description text
      (max_retries : option Z) s :
  page (agent s) = None ->
  (1 <= or_default max_retries RETRY_COUNT)%Z ->
  _robust_click_element selector description max_retries s = (Ok false, s)
  /\ _robust_fill_input selector text max_retries s = (Ok false, s).
Proof.
  intros Hp Hn. unfold _robust_click_element, _robust_fill_input.
  destruct (Z.to_nat (or_default max_retries RETRY_COUNT)) as [|k] eqn:Hk;
    [lia|].
  cbn [retry_loop]. unfold click_attempt, fill_attempt. unfold_m.
  destruct (0 <? or_default max_retries RETRY_COUNT - 1)%Z; now split.
Qed.

(** C1.  With the page open, on a selector whose element never becomes
    actionable, and for every retry policy with [max_attempts = n >= 1],
    [_robust_click_element] and [_robust_fill_input] return [False] after
    exactly [n] attempts: the trace is [n] failed attempts (the wait for the
    selector followed by probes only, no click and no fill) with one
    [RETRY_DELAY] wait between consecutive attempts and nothing after the
    last.  Without [max_retries] the number of attempts is 3. *)
Theorem robust_interaction_fails_after_max_attempts :
  forall (h : handle) (selector description text : string) (s : State),
    page (agent s) = Some h ->
    never_actionable ->
    delays_complete ->
    (forall n : Z, (1 <= n)%Z ->
       fails_after (failed_attempt h selector) h
                   (_robust_click_element selector description (Some n))
                   s (Z.to_nat n)
       /\ fails_after (failed_attempt h selector) h
                      (_robust_fill_input selector text (Some n))
                      s (Z.to_nat n))
    /\ fails_after (failed_attempt h selector) h
                   (_robust_click_element selector description None) s 3
    /\ fails_after (failed_attempt h selector) h
                   (_robust_fill_input selector text None) s 3.
Proof.
  intros h selector description text s Hp Hna Hd.
  assert (Hclick : forall m : Z, (1 <= m)%Z ->
            fails_after (failed_attempt h selector) h
              (retry_loop (click_attempt selector description) m
                          (Z.to_nat m) 0%Z) s (Z.to_nat m)).
  { intros m Hm. apply retry_loop_all_fail; auto; try lia.
    intros s0 Hp0. now apply click_attempt_never_actionable. }
  assert (Hfill : forall m : Z, (1 <= m)%Z ->
            fails_after (failed_attempt h selector) h
              (retry_loop (fill_attempt selector text) m
                          (Z.to_nat m) 0%Z) s (Z.to_nat m)).
  { intros m Hm. apply retry_loop_all_fail; auto; try lia.
    intros s0 Hp0. now apply fill_attempt_never_actionable. }
  split; [|split].
  - intros n Hn.
    unfold _robust_click_element, _robust_fill_input, or_default.
    replace (n =? 0)%Z with false by (symmetry; apply Z.eqb_neq; lia).
    split; [apply Hclick | apply Hfill]; lia.
  - apply (Hclick 3%Z). lia.
  - apply (Hfill 3%Z). lia.
Qed.

(** ** What the interaction code leaves alone *)

Lemma tame_ret {A} (a : A) : tame (@ret World A a).
Proof. intros s. split; [reflexivity|discriminate]. Qed.

Lemma tame_raise {A} (ex : exn) : tame (@raise World A ex).
Proof. intros s. split; [reflexivity|discriminate]. Qed.

Lemma tame_gets {A} (f : Agent -> A) : tame (@gets World A f).
Proof. intros s. split; [reflexivity|discriminate]. Qed.

Lemma tame_call (o : Op) : tame (call o).
Proof.
  intros s. unfold call. destruct (respond o (world s)) as [[a|m] w];
    split; try reflexivity; discriminate.
Qed.

Lemma tame_now : tame now.
Proof.
  intros s. unfold now. destruct (clock (world s)) as [t w].
  split; [reflexivity|discriminate].
Qed.

Lemma tame_bind {A B} (c : @M World A) (k : A -> @M World B) :
  tame c -> (forall a, tame (k a)) -> tame (bind c k).
Proof.
  intros Hc Hk s. unfold bind. destruct (Hc s) as [Hag Hf].
  destruct (c s) as [[a|ex|] s1]; cbn in *.
  - destruct (Hk a s1) as [Hag' Hf']. split; [congruence|exact Hf'].
  - split; [exact Hag|discriminate].
  - now contradiction Hf.
Qed.

Lemma tame_try {A} (c : @M World A) (handler : exn -> @M World A) :
  tame c -> (forall ex, tame (handler ex)) -> tame (try_catch c handler).
Proof.
  intros Hc Hh s. unfold try_catch. destruct (Hc s) as [Hag Hf].
  destruct (c s) as [[a|ex|] s1]; cbn in *.
  - split; [exact Hag|discriminate].
  - destruct (Hh ex s1) as [Hag' Hf']. split; [congruence|exact Hf'].
  - now contradiction Hf.
Qed.

(** A tame computation whose exceptions are all turned into a value always
    returns. *)
Lemma tame_try_returns {A} (c : @M World A) (v : A) :
  tame c -> always_returns (try_catch c (fun _ => ret v)).
Proof.
  intros Hc s. unfold try_catch, ret. destruct (Hc s) as [Hag Hf].
  destruct (c s) as [[a|ex|] s1]; cbn in *.
  - now exists a, s1.
  - now exists v, s1.
  - now contradiction Hf.
Qed.

Lemma always_returns_tame {A} (c : @M World A) : always_returns c -> tame c.
Proof.
  intros Hc s. destruct (Hc s) as (v & s' & Hrun & Hag). rewrite Hrun.
  split; [exact Hag|discriminate].
Qed.

Lemma tame_the_page : tame (@the_page World).
Proof.
  unfold the_page. apply tame_bind; [apply tame_gets|].
  intros [h|]; [apply tame_ret|apply tame_raise].
Qed.

Lemma tame_on_page {A} (k : handle -> @M World A) :
  (forall h, tame (k h)) -> tame (on_page k).
Proof.
  intros Hk. unfold on_page. apply tame_bind; [apply tame_the_page|exact Hk].
Qed.

Create HintDb tame.

(** Decomposes a goal [tame c] along the structure of [c]. *)
Ltac tame_auto :=
  repeat first
    [ progress cbv beta
    | assumption
    | solve [auto with tame]
    | apply tame_ret | apply tame_raise | apply tame_gets | apply tame_call
    | apply tame_now
    | match goal with
      | |- tame (call ?o) => exact (tame_call o)
      | |- tame (on_page _) => apply tame_on_page; intros ?
      | |- tame (bind _ _) => apply tame_bind; [|intros ?]
      | |- tame (try_catch _ _) => apply tame_try; [|intros ?]
      | |- tame (match ?x with _ => _ end) => destruct x
      | |- tame (let _ := _ in _) => cbv zeta
      end ].

Lemma tame_wait_if_page ms : tame (wait_if_page ms).
Proof. unfold wait_if_page. tame_auto. Qed.

#[local] Hint Resolve tame_wait_if_page tame_the_page tame_on_page : tame.

Lemma tame_retry_loop (body : @M World bool) max :
  tame body -> forall k a, tame (retry_loop body max k a).
Proof.
  intros Hb. induction k as [|k IH]; intros a; cbn [retry_loop]; tame_auto.
Qed.

Lemma tame_click_attempt selector description :
  tame (click_attempt selector description).
Proof. unfold click_attempt. tame_auto. Qed.

Lemma tame_fill_attempt selector text : tame (fill_attempt selector text).
Proof. unfold fill_attempt. tame_auto. Qed.

Lemma tame_robust_click selector description max_retries :
  tame (_robust_click_element selector description max_retries).
Proof.
  unfold _robust_click_element. apply tame_retry_loop, tame_click_attempt.
Qed.

Lemma tame_robust_fill selector text max_retries :
  tame (_robust_fill_input selector text max_retries).
Proof.
  unfold _robust_fill_input. apply tame_retry_loop, tame_fill_attempt.
Qed.

Lemma tame_robust_navigate url max_retries :
  tame (_robust_navigate url max_retries).
Proof.
  unfold _robust_navigate. cbv zeta. tame_auto.
  apply tame_retry_loop. tame_auto.
Qed.

Lemma tame_wait_for_element_robust selector description timeout state :
  tame (_wait_for_element_robust selector description timeout state).
Proof. unfold _wait_for_element_robust. tame_auto. Qed.

Lemma tame_get_element_robust selector description timeout :
  tame (_get_element_robust selector description timeout).
Proof. unfold _get_element_robust. tame_auto. Qed.

#[local] Hint Resolve tame_robust_click tame_robust_fill tame_robust_navigate
  tame_wait_for_element_robust tame_get_element_robust : tame.

Lemma tame_fill_from_selectors text description :
  forall selectors,
    tame (_robust_fill_input_from_selectors selectors text description).
Proof.
  induction selectors as [|sel rest IH];
    cbn [_robust_fill_input_from_selectors]; tame_auto.
Qed.

Lemma tame_click_from_selectors description :
  forall selectors,
    tame (_robust_click_from_selectors selectors description).
Proof.
  induction selectors as [|sel rest IH];
    cbn [_robust_click_from_selectors]; tame_auto.
Qed.

(** The polling loop of the login wait ends within its budget when the
    budget covers the time left. *)
Lemma tame_login_poll h max_wait_ms :
  forall (fuel : nat) (elapsed_ms : Z),
    (max_wait_ms - elapsed_ms <= 5000 * (Z.of_nat fuel - 1))%Z ->
    (1 <= fuel)%nat ->
    tame (login_poll fuel h elapsed_ms max_wait_ms).
Proof.
  induction fuel as [|fuel IH]; intros elapsed_ms Hleft Hfuel; [lia|].
  cbn [login_poll].
  destruct (elapsed_ms <? max_wait_ms)%Z eqn:Hlt; [|apply tame_ret].
  apply Z.ltb_lt in Hlt.
  tame_auto. apply IH; lia.
Qed.

Lemma tame_wait_for_login_completion max_wait_seconds :
  tame (_wait_for_login_completion max_wait_seconds).
Proof.
  unfold _wait_for_login_completion. cbv zeta. tame_auto.
  apply tame_login_poll; [|lia].
  pose proof (Z.div_mod (max_wait_seconds * 1000) 5000 ltac:(lia)) as Hdm.
  pose proof (Z.mod_pos_bound (max_wait_seconds * 1000) 5000 ltac:(lia)) as Hb.
  destruct (Z_le_gt_dec 0 (max_wait_seconds * 1000 / 5000 + 1)) as [Hpos|Hneg].
  - rewrite Nat2Z.inj_succ, Z2Nat.id by exact Hpos. lia.
  - rewrite Nat2Z.inj_succ.
    replace (Z.to_nat (max_wait_seconds * 1000 / 5000 + 1)) with 0%nat by lia.
    lia.
Qed.

#[local] Hint Resolve tame_fill_from_selectors tame_click_from_selectors
  tame_wait_for_login_completion : tame.

Lemma tame_handle_google_login : tame handle_google_login.
Proof. unfold handle_google_login. tame_auto. Qed.

Lemma tame_try_solvers : forall solvers, tame (try_solvers solvers).
Proof.
  induction solvers as [|o rest IH]; cbn [try_solvers]; tame_auto.
Qed.

Lemma tame_solve_captcha : tame solve_captcha_if_present.
Proof.
  unfold solve_captcha_if_present. tame_auto. apply tame_try_solvers.
Qed.

#[local] Hint Resolve tame_handle_google_login tame_solve_captcha : tame.

Lemma tame_scroll_and_click element description :
  tame (_scroll_and_click element description).
Proof. unfold _scroll_and_click. tame_auto. Qed.

Lemma tame_wait_for_loading_complete : tame _wait_for_loading_complete.
Proof. unfold _wait_for_loading_complete. tame_auto. Qed.

Lemma tame_is_login_page : tame _is_login_page.
Proof. unfold _is_login_page. tame_auto. Qed.

#[local] Hint Resolve tame_scroll_and_click tame_wait_for_loading_complete
  tame_is_login_page : tame.

Lemma tame_handle_authentication : tame _handle_authentication.
Proof.
  unfold _handle_authentication, _click_element. tame_auto.
Qed.

Lemma tame_find_existing repo_name :
  tame (_find_and_select_existing_environment repo_name).
Proof. unfold _find_and_select_existing_environment. tame_auto. Qed.

Lemma tame_create_environment repo_name :
  tame (_create_new_environment repo_name).
Proof.
  unfold _create_new_environment, _wait_for_redirect, _wait_for_element,
    _click_element.
  tame_auto.
Qed.

#[local] Hint Resolve tame_handle_authentication tame_find_existing
  tame_create_environment : tame.

Lemma tame_handle_environments_page : tame _handle_environments_page.
Proof.
  unfold _handle_environments_page, get_working_repo_url, _click_element.
  tame_auto.
Qed.

#[local] Hint Resolve tame_handle_environments_page : tame.

Lemma tame_codex_setup : tame codex_setup_web_interface.
Proof. unfold codex_setup_web_interface. tame_auto. Qed.

Lemma tame_send_prompt prompt : tame (_send_prompt prompt).
Proof. unfold _send_prompt. tame_auto. Qed.

Lemma tame_open_created_task : tame _open_created_task.
Proof. unfold _open_created_task. tame_auto. Qed.

Lemma tame_focus_chat_input : tame _focus_chat_input.
Proof. unfold _focus_chat_input. tame_auto. Qed.

Lemma tame_wait_for_completion : tame _wait_for_completion.
Proof. unfold _wait_for_completion. tame_auto. Qed.

Lemma tame_extract_output_content : tame _extract_output_content.
Proof. unfold _extract_output_content. tame_auto. Qed.

Lemma tame_try_create_pr : tame _try_create_pr.
Proof. unfold _try_create_pr. tame_auto. Qed.

Lemma tame_extract_pr_url : tame _extract_pr_url.
Proof. unfold _extract_pr_url. tame_auto. Qed.

#[local] Hint Resolve tame_codex_setup tame_send_prompt tame_open_created_task
  tame_focus_chat_input tame_wait_for_completion tame_extract_output_content
  tame_try_create_pr tame_extract_pr_url : tame.

Lemma tame_complete_task : tame _complete_task_and_get_pr.
Proof. unfold _complete_task_and_get_pr. tame_auto. Qed.

#[local] Hint Resolve tame_complete_task : tame.

Lemma tame_codex_execute_prompt prompt : tame (codex_execute_prompt prompt).
Proof. unfold codex_execute_prompt. tame_auto. Qed.

(** ** Task results *)

(** X1.  [OpenAICodexAgent.execute_prompt] never raises: it always returns a
    response, well formed (a success without error, or a failure with its
    cause and an empty content), and leaves the attributes of the agent as
    they were. *)
Theorem codex_task_always_yields_a_response :
  forall (prompt : string) s,
    exists response s',
      codex_execute_prompt prompt s = (Ok response, s')
      /\ agent s' = agent s
      /\ well_formed_response response.
Proof.
  intros prompt s. unfold codex_execute_prompt, try_catch.
  unfold bind at 1.
  destruct (tame_send_prompt prompt s) as [Hag1 Hf1].
  destruct (_send_prompt prompt s) as [[[]|ex|] s1]; cbn [fst snd] in *;
    [| |now contradiction Hf1].
  - unfold bind at 1.
    destruct (tame_open_created_task s1) as [Hag2 Hf2].
    destruct (_open_created_task s1) as [[opened|ex|] s2]; cbn [fst snd] in *;
      [| |now contradiction Hf2].
    + destruct opened; cbn [negb].
      * unfold bind at 1.
        destruct (tame_complete_task s2) as [Hag3 Hf3].
        destruct (_complete_task_and_get_pr s2) as [[captured_|ex|] s3];
          cbn [fst snd] in *; [| |now contradiction Hf3].
        -- unfold ret. eexists _, _. split; [reflexivity|].
           split; [congruence|]. left.
           destruct (compose_response_records (fst captured_) (snd captured_))
             as (Hs & He & _). now split.
        -- unfold ret. eexists _, _. split; [reflexivity|].
           split; [congruence|]. right. cbn. repeat split. now eexists.
      * unfold ret. eexists _, _. split; [reflexivity|].
        split; [congruence|]. right. cbn. repeat split. now eexists.
    + unfold ret. eexists _, _. split; [reflexivity|].
      split; [congruence|]. right. cbn. repeat split. now eexists.
  - unfold ret. eexists _, _. split; [reflexivity|].
    split; [congruence|]. right. cbn. repeat split. now eexists.
Qed.

(** X2.  [WebAgent.execute_prompt] never raises: unless the model's loop
    budget runs out, it returns a well-formed response, whose cause, on
    failure, starts with [Failed to execute prompt: ]. *)
Theorem base_task_always_yields_a_response :
  forall agent_name input_selector submit_selector output_selector
         loading_selector output_file read_file timeout_seconds fuel
         (prompt : string) s,
    match fst (execute_prompt agent_name input_selector submit_selector
                 output_selector loading_selector output_file read_file
                 timeout_seconds fuel prompt s) with
    | Ok response =>
        well_formed_response response
        /\ (success response = false ->
            exists m,
              error_message response
              = Some ("Failed to execute prompt: " ++ m)%string)
    | Raise _ => False
    | OutOfFuel => True
    end.
Proof.
  intros. unfold execute_prompt, try_catch.
  match goal with
  | |- context [let (r, s') := ?body s in _] => destruct (body s) as [[v|ex|] s1] eqn:Hbody
  end; cbn [fst]; [| |exact I].
  - (* the body returned: it built a success *)
    revert Hbody. unfold bind, ret, raise, gets.
    repeat match goal with
           | |- context [match ?x with _ => _ end] =>
               lazymatch x with
               | context [match _ with _ => _ end] => fail
               | _ => destruct x
               end
           end;
      intros H; inversion H; subst; clear H;
      (split; [left; now split | cbn; discriminate]).
  - unfold ret. cbn [fst]. split.
    + right. cbn. repeat split. now eexists.
    + intros _. now eexists.
Qed.

(** ** Lifecycle *)

Ltac prefix_of_teardown k :=
  exists k; reflexivity.

(** X3.  [_cleanup_browser], and with it [close_coding_interface], never
    raises and always lowers the ready flag, so that afterwards
    [is_coding_agent_open] answers [False].  The calls it makes are an
    initial part of: close the page, close the browser, close the client,
    each only if held (it stops at the first close that fails); when they all
    complete, they are all made and nothing is held any more.  It never
    changes the repository context, and never makes the agent hold a handle
    it did not hold. *)
Theorem cleanup_always_lowers_the_ready_flag :
  forall s,
    exists s' new,
      _cleanup_browser s = (Ok tt, s')
      /\ close_coding_interface s = (Ok true, s')
      /\ trace s' = trace s ++ new
      /\ _is_browser_ready (agent s') = false
      /\ is_coding_agent_open s' = (Ok false, s')
      /\ repo_url (agent s') = repo_url (agent s)
      /\ original_repo_url (agent s') = original_repo_url (agent s)
      /\ (exists k, calls new = firstn k (teardown_calls (agent s)))
      /\ (all_completed new ->
          calls new = teardown_calls (agent s) /\ released (agent s'))
      /\ (page (agent s') = None \/ page (agent s') = page (agent s))
      /\ (browser (agent s') = None \/ browser (agent s') = browser (agent s))
      /\ (botright_client (agent s') = None
          \/ botright_client (agent s') = botright_client (agent s)).
Proof.
  intros s.
  unfold close_coding_interface, _cleanup_browser, is_coding_agent_open,
    released, teardown_calls, calls.
  unfold_m.
  destruct s as [[c b p rd ru oru] w tr].
  destruct p as [p|]; destruct b as [b|]; destruct c as [c|];
    lifecycle; destruct_units; normalize_trace;
    eexists _, _;
    (split; [reflexivity|]); (split; [reflexivity|]);
    (split; [first [reflexivity | symmetry; apply app_nil_r]|]);
    (split; [reflexivity|]);
    (split; [reflexivity|]); (split; [reflexivity|]);
    (split; [reflexivity|]);
    (split;
     [first [prefix_of_teardown 0%nat | prefix_of_teardown 1%nat
            | prefix_of_teardown 2%nat | prefix_of_teardown 3%nat]|]);
    (split; [intros Hall; try teardown_failed; repeat split|]);
    cbn; repeat split; auto.
Qed.

Lemma cleanup_keeps_context s :
  exists s',
    _cleanup_browser s = (Ok tt, s')
    /\ repo_url (agent s') = repo_url (agent s)
    /\ original_repo_url (agent s') = original_repo_url (agent s).
Proof.
  unfold _cleanup_browser. unfold_m.
  destruct s as [[c b p rd ru oru] w tr].
  destruct p as [p|]; destruct b as [b|]; destruct c as [c|];
    lifecycle; destruct_units; eexists; repeat split.
Qed.

(** X4.  [open_coding_interface], for a setup that leaves the attributes
    alone, never raises and never changes the repository context.  It
    returns [True] only with the ready flag up and a page held, so that
    [is_coding_agent_open] then answers [True]; a client and a browser held
    before are the ones held after: they are used again. *)
Theorem open_reports_true_only_when_ready :
  forall (web_url : string) (setup : @M World bool),
    tame setup ->
    forall s,
      exists b s',
        open_coding_interface web_url setup s = (Ok b, s')
        /\ repo_url (agent s') = repo_url (agent s)
        /\ original_repo_url (agent s') = original_repo_url (agent s)
        /\ (b = true ->
            _is_browser_ready (agent s') = true
            /\ page (agent s') <> None
            /\ is_coding_agent_open s' = (Ok true, s')
            /\ (forall c, botright_client (agent s) = Some c ->
                          botright_client (agent s') = Some c)
            /\ (forall bh, browser (agent s) = Some bh ->
                           browser (agent s') = Some bh)).
Proof.
  intros web_url setup Hsetup s.
  unfold open_coding_interface, is_coding_agent_open. unfold_m.
  destruct s as [[c b p rd ru oru] w tr].
  destruct b as [b|]; destruct c as [c|]; lifecycle;
    try (match goal with
         | |- context [_cleanup_browser ?st] =>
             let sc := fresh "sc" in
             let Hc := fresh "Hc" in
             let Hru := fresh "Hru" in
             let Horu := fresh "Horu" in
             destruct (cleanup_keeps_context st) as (sc & Hc & Hru & Horu);
             rewrite Hc; eexists _, _; (split; [reflexivity|]);
             cbn in *; (split; [assumption|]); (split; [assumption|]);
             discriminate
         end).
  all: match goal with
       | |- context [retry_loop ?body ?max ?k ?a ?st] =>
           let Hnav := fresh "Hnav" in
           assert (Hnav := tame_retry_loop body max ltac:(tame_auto) k a st);
           destruct (retry_loop body max k a st) as [[nav|ex|] s3];
           cbn [fst snd agent] in Hnav; destruct Hnav as [Hag Hf];
           [| |now contradiction Hf]
       end.
  all: try (match goal with
            | |- context [_cleanup_browser ?st] =>
                let sc := fresh "sc" in
                let Hc := fresh "Hc" in
                let Hru := fresh "Hru" in
                let Horu := fresh "Horu" in
                destruct (cleanup_keeps_context st) as (sc & Hc & Hru & Horu);
                rewrite Hc; eexists _, _; (split; [reflexivity|]);
                rewrite Hru, Horu, Hag; cbn;
                (split; [reflexivity|]); (split; [reflexivity|]);
                discriminate
            end).
  all: destruct nav; cbn [negb];
    [|eexists _, _; (split; [reflexivity|]); rewrite Hag; cbn;
      (split; [reflexivity|]); (split; [reflexivity|]); discriminate].
  all: destruct (Hsetup s3) as [Hag2 Hf2];
    destruct (setup s3) as [[ok|ex|] s4]; cbn [fst snd] in Hag2, Hf2;
    [| |now contradiction Hf2].
  all: try (match goal with
            | |- context [_cleanup_browser ?st] =>
                let sc := fresh "sc" in
                let Hc := fresh "Hc" in
                let Hru := fresh "Hru" in
                let Horu := fresh "Horu" in
                destruct (cleanup_keeps_context st) as (sc & Hc & Hru & Horu);
                rewrite Hc; eexists _, _; (split; [reflexivity|]);
                rewrite Hru, Horu, Hag2, Hag; cbn;
                (split; [reflexivity|]); (split; [reflexivity|]);
                discriminate
            end).
  all: destruct ok; cbn [negb];
    eexists _, _; (split; [reflexivity|]); cbn [agent repo_url
      original_repo_url _is_browser_ready page browser botright_client];
    rewrite Hag2, Hag; cbn;
    (split; [reflexivity|]); (split; [reflexivity|]);
    try discriminate.
  all: intros _; split; [reflexivity|]; split; [discriminate|];
    split; [reflexivity|]; split; intros ? H; inversion H; reflexivity.
Qed.

(** ** Bounds and outcomes of the retrying interactions *)

Lemma count_calls_app f (l1 l2 : list Event) :
  count_calls f (l1 ++ l2) = (count_calls f l1 + count_calls f l2)%nat.
Proof. unfold count_calls. now rewrite filter_app, length_app. Qed.

(** A body that makes at most one call of a kind per run makes the loop
    make at most as many such calls as it has iterations. *)
Lemma retry_loop_count (f : Op -> bool) (body : @M World bool) max :
  (forall h, f (wait_for_timeout h RETRY_DELAY) = false) ->
  (forall s r s0, body s = (r, s0) ->
     exists blk, trace s0 = trace s ++ blk /\ (count_calls f blk <= 1)%nat) ->
  forall (k : nat) (a : Z) s,
    exists new,
      trace (snd (retry_loop body max k a s)) = trace s ++ new
      /\ (count_calls f new <= k)%nat.
Proof.
  intros Hdelay Hbody. induction k as [|k IH]; intros a s.
  - cbn. exists []. now rewrite app_nil_r.
  - cbn [retry_loop]. unfold try_catch at 1.
    destruct (body s) as [r0 s0] eqn:Hb.
    apply Hbody in Hb. destruct Hb as (blk & Htr & Hblk).
    destruct r0 as [b|ex|]; cbn [snd]; try (exists blk; split; [assumption|lia]).
    unfold bind at 1, gets at 1.
    destruct (a <? max - 1)%Z, (page (agent s0)) as [h|];
      try (unfold ret; cbn [snd]; exists blk; split; [assumption|lia]).
    unfold bind at 1, call at 1.
    destruct (respond (wait_for_timeout h RETRY_DELAY) (world s0))
      as [[[]|m] w1].
    + match goal with
      | |- context [retry_loop body max k ?a1 ?s1] =>
          destruct (IH a1 s1) as (new & Htr' & Hnew)
      end.
      cbn [trace] in Htr'.
      exists (blk ++ Ev (wait_for_timeout h RETRY_DELAY) (Done tt) :: new).
      split; [rewrite Htr', Htr; now repeat rewrite <- app_assoc|].
      rewrite count_calls_app. unfold count_calls at 2. cbn [filter ev_op].
      rewrite Hdelay. fold (count_calls f new). lia.
    + cbn [snd trace].
      exists (blk ++ [Ev (wait_for_timeout h RETRY_DELAY) (Failed m)]).
      split; [rewrite Htr; now rewrite <- app_assoc|].
      rewrite count_calls_app. unfold count_calls at 2. cbn [filter ev_op].
      rewrite Hdelay. cbn. lia.
Qed.

(** A body that makes no retry delay makes the loop make at most one delay
    per attempt that remains after the current one. *)
Lemma retry_loop_delays (body : @M World bool) max :
  (forall s r s0, body s = (r, s0) ->
     exists blk, trace s0 = trace s ++ blk
                 /\ count_calls is_retry_delay blk = 0%nat) ->
  forall (k : nat) (a : Z) s,
    exists new,
      trace (snd (retry_loop body max k a s)) = trace s ++ new
      /\ (count_calls is_retry_delay new <= Z.to_nat (max - 1 - a))%nat.
Proof.
  intros Hbody. induction k as [|k IH]; intros a s.
  - cbn. exists []. rewrite app_nil_r. split; cbn; [reflexivity|lia].
  - cbn [retry_loop]. unfold try_catch at 1.
    destruct (body s) as [r0 s0] eqn:Hb.
    apply Hbody in Hb. destruct Hb as (blk & Htr & Hblk).
    destruct r0 as [b|ex|]; cbn [snd];
      try (exists blk; split; [assumption|]; rewrite Hblk; lia).
    unfold bind at 1, gets at 1.
    destruct (a <? max - 1)%Z eqn:Hlt, (page (agent s0)) as [h|];
      try (unfold ret; cbn [snd]; exists blk; split; [assumption|];
           rewrite Hblk; lia).
    apply Z.ltb_lt in Hlt.
    unfold bind at 1, call at 1.
    destruct (respond (wait_for_timeout h RETRY_DELAY) (world s0))
      as [[[]|m] w1].
    + match goal with
      | |- context [retry_loop body max k ?a1 ?s1] =>
          destruct (IH a1 s1) as (new & Htr' & Hnew)
      end.
      cbn [trace] in Htr'.
      exists (blk ++ Ev (wait_for_timeout h RETRY_DELAY) (Done tt) :: new).
      split; [rewrite Htr', Htr; now repeat rewrite <- app_assoc|].
      rewrite count_calls_app, Hblk. unfold count_calls.
      cbn [filter ev_op is_retry_delay]. rewrite Z.eqb_refl.
      cbn [length]. fold (count_calls is_retry_delay new). lia.
    + cbn [snd trace].
      exists (blk ++ [Ev (wait_for_timeout h RETRY_DELAY) (Failed m)]).
      split; [rewrite Htr; now rewrite <- app_assoc|].
      rewrite count_calls_app, Hblk. unfold count_calls.
      cbn [filter ev_op is_retry_delay]. rewrite Z.eqb_refl. cbn [length].
      lia.
Qed.

(** A loop whose body returns [True] right after a completed call of a
    kind, and raises without one otherwise, returns [True] right after the
    first completed call of that kind. *)
Lemma retry_loop_stops (f : Op -> bool) (body : @M World bool) max :
  (forall h, f (wait_for_timeout h RETRY_DELAY) = false) ->
  (forall s r s0, body s = (r, s0) ->
     exists blk, trace s0 = trace s ++ blk
       /\ ((r = Ok true /\ ends_with_completed f blk)
           \/ ((exists ex, r = Raise ex) /\ none_completed f blk))) ->
  forall (k : nat) (a : Z) s r s',
    retry_loop body max k a s = (r, s') ->
    exists new,
      trace s' = trace s ++ new
      /\ ((r = Ok true /\ ends_with_completed f new)
          \/ ((r = Ok false \/ exists ex, r = Raise ex)
              /\ none_completed f new)).
Proof.
  intros Hdelay Hbody. induction k as [|k IH]; intros a s r s'.
  - cbn. unfold ret. intros H; inversion H; subst.
    exists []. rewrite app_nil_r. split; [reflexivity|].
    right. split; [now left|constructor].
  - cbn [retry_loop]. unfold try_catch at 1.
    destruct (body s) as [r0 s0] eqn:Hb.
    apply Hbody in Hb.
    destruct Hb as (blk & Htr & [[-> Hend]|[[ex ->] Hnone]]).
    { intros H; inversion H; subst.
      exists blk. split; [assumption|]. left. now split. }
    unfold bind at 1, gets at 1.
    destruct (a <? max - 1)%Z, (page (agent s0)) as [h|];
      try (unfold ret; intros H; inversion H; subst;
           exists blk; split; [assumption|];
           right; split; [now left|assumption]).
    unfold bind at 1, call at 1.
    destruct (respond (wait_for_timeout h RETRY_DELAY) (world s0))
      as [[[]|m] w1].
    + intros H. apply IH in H. destruct H as (new & Htr' & Hnew).
      cbn [trace] in Htr'.
      assert (Hd : completed f (Ev (wait_for_timeout h RETRY_DELAY) (Done tt))
                   = false)
        by (unfold completed; cbn [ev_op]; now rewrite Hdelay).
      exists (blk ++ Ev (wait_for_timeout h RETRY_DELAY) (Done tt) :: new).
      split; [rewrite Htr', Htr; now repeat rewrite <- app_assoc|].
      destruct Hnew as [[Hr (pre & ev & -> & Hev & Hpre)]|[Hr Hn]].
      * left. split; [assumption|].
        exists (blk ++ Ev (wait_for_timeout h RETRY_DELAY) (Done tt) :: pre), ev.
        split; [now rewrite <- app_assoc|]. split; [assumption|].
        apply Forall_app. split; [assumption|]. now constructor.
      * right. split; [assumption|].
        apply Forall_app. split; [assumption|]. now constructor.
    + intros H; inversion H; subst. cbn [trace].
      exists (blk ++ [Ev (wait_for_timeout h RETRY_DELAY) (Failed m)]).
      split; [rewrite Htr; now rewrite <- app_assoc|].
      right. split; [right; eexists; reflexivity|].
      apply Forall_app. split; [assumption|].
      constructor; [|constructor].
      unfold completed. cbn [ev_op]. now rewrite Hdelay.
Qed.

(** The leaves of the case analysis of one attempt. *)
Ltac counted_leaf :=
  let H := fresh in
  intros H; inversion H; subst; clear H; normalize_trace;
  first [ exists []; rewrite app_nil_r; split; [reflexivity|]
        | eexists; split; [reflexivity|] ];
  cbn; repeat split; lia.

Lemma click_attempt_counts selector description s r s0 :
  click_attempt selector description s = (r, s0) ->
  exists blk,
    trace s0 = trace s ++ blk
    /\ (count_calls is_selector_wait blk <= 1)%nat
    /\ (count_calls is_click blk <= 1)%nat
    /\ count_calls is_retry_delay blk = 0%nat.
Proof.
  unfold click_attempt. unfold_m. explore; counted_leaf.
Qed.

Lemma fill_attempt_counts selector text s r s0 :
  fill_attempt selector text s = (r, s0) ->
  exists blk,
    trace s0 = trace s ++ blk
    /\ (count_calls is_selector_wait blk <= 1)%nat
    /\ (count_calls is_fill blk <= 1)%nat
    /\ count_calls is_retry_delay blk = 0%nat.
Proof.
  unfold fill_attempt. unfold_m. explore; counted_leaf.
Qed.

Lemma goto_attempt_counts url s r s0 :
  (h <- the_page ;; call (goto h url LONG_TIMEOUT) ;; ret true) s = (r, s0) ->
  exists blk,
    trace s0 = trace s ++ blk
    /\ (count_calls is_goto blk <= 1)%nat
    /\ count_calls is_retry_delay blk = 0%nat.
Proof.
  unfold_m. explore; counted_leaf.
Qed.

(** A check of [ends_with_completed] that computes. *)
Lemma ends_with_completed_check f (tr : list Event) :
  match rev tr with
  | ev :: pre =>
      (completed f ev && forallb (fun x => negb (completed f x)) pre)%bool
  | [] => false
  end = true ->
  ends_with_completed f tr.
Proof.
  intros H. destruct (rev tr) as [|ev pre] eqn:Hrev; [discriminate|].
  apply andb_prop in H. destruct H as [Hev Hpre].
  exists (rev pre), ev. split.
  - rewrite <- (rev_involutive tr), Hrev. reflexivity.
  - split; [assumption|]. apply Forall_forall. intros x Hx.
    apply in_rev in Hx. rewrite forallb_forall in Hpre.
    apply Hpre in Hx. now destruct (completed f x).
Qed.

Ltac outcome_leaf :=
  let H := fresh in
  intros H; inversion H; subst; clear H; normalize_trace;
  first [ exists []; rewrite app_nil_r; split; [reflexivity|]
        | eexists; split; [reflexivity|] ];
  first [ left; split; [reflexivity|];
          apply ends_with_completed_check; reflexivity
        | right; split; [eexists; reflexivity|];
          repeat (constructor; [reflexivity|]); constructor ].

Lemma click_attempt_outcome selector description s r s0 :
  click_attempt selector description s = (r, s0) ->
  exists blk,
    trace s0 = trace s ++ blk
    /\ ((r = Ok true /\ ends_with_completed is_click blk)
        \/ ((exists ex, r = Raise ex) /\ none_completed is_click blk)).
Proof.
  unfold click_attempt. unfold_m. explore; outcome_leaf.
Qed.

Lemma goto_attempt_outcome url s r s0 :
  (h <- the_page ;; call (goto h url LONG_TIMEOUT) ;; ret true) s = (r, s0) ->
  exists blk,
    trace s0 = trace s ++ blk
    /\ ((r = Ok true /\ ends_with_completed is_goto blk)
        \/ ((exists ex, r = Raise ex) /\ none_completed is_goto blk)).
Proof.
  unfold_m. explore; outcome_leaf.
Qed.

(** X5. Every run of a retrying interaction, whatever the browser answers,
    makes at most [max_retries] attempts and one delay fewer: navigation makes
    at most that many [goto] calls, a click at most that many selector waits
    and clicks, a fill at most that many selector waits and fills. *)
Theorem retries_never_exceed_the_limit :
  forall (max_retries : option Z) s,
    let n := Z.to_nat (or_default max_retries RETRY_COUNT) in
    (forall url, exists new,
        trace (snd (_robust_navigate url max_retries s)) = trace s ++ new
        /\ (count_calls is_goto new <= n)%nat
        /\ (count_calls is_retry_delay new <= n - 1)%nat)
    /\ (forall selector description, exists new,
           trace (snd (_robust_click_element selector description
                                             max_retries s))
           = trace s ++ new
           /\ (count_calls is_selector_wait new <= n)%nat
           /\ (count_calls is_click new <= n)%nat
           /\ (count_calls is_retry_delay new <= n - 1)%nat)
    /\ (forall selector text, exists new,
           trace (snd (_robust_fill_input selector text max_retries s))
           = trace s ++ new
           /\ (count_calls is_selector_wait new <= n)%nat
           /\ (count_calls is_fill new <= n)%nat
           /\ (count_calls is_retry_delay new <= n - 1)%nat).
Proof.
  intros max_retries s n. subst n.
  set (max := or_default max_retries RETRY_COUNT).
  split; [|split].
  - intros url. unfold _robust_navigate. fold max. cbv zeta.
    unfold bind at 1, gets at 1.
    destruct (page (agent s)) as [h|].
    2:{ exists []. unfold ret. cbn. rewrite app_nil_r.
        repeat split; lia. }
    set (body := bind the_page _).
    destruct (retry_loop_count is_goto body max) with (k := Z.to_nat max)
      (a := 0%Z) (s := s) as (new & Htr & Hn).
    { reflexivity. }
    { intros s1 r s0 H. apply goto_attempt_counts in H.
      destruct H as (blk & ? & ? & ?). now exists blk. }
    destruct (retry_loop_delays body max) with (k := Z.to_nat max)
      (a := 0%Z) (s := s) as (new' & Htr' & Hd).
    { intros s1 r s0 H. apply goto_attempt_counts in H.
      destruct H as (blk & ? & ? & ?). now exists blk. }
    rewrite Htr in Htr'. apply app_inv_head in Htr'. subst new'.
    exists new. repeat split; [assumption|assumption|lia].
  - intros selector description. unfold _robust_click_element. fold max.
    cbv zeta.
    set (body := click_attempt selector description).
    destruct (retry_loop_count is_selector_wait body max)
      with (k := Z.to_nat max) (a := 0%Z) (s := s) as (new & Htr & Hn).
    { reflexivity. }
    { intros s1 r s0 H. apply click_attempt_counts in H.
      destruct H as (blk & ? & ? & ? & ?). now exists blk. }
    destruct (retry_loop_count is_click body max)
      with (k := Z.to_nat max) (a := 0%Z) (s := s) as (new1 & Htr1 & Hc).
    { reflexivity. }
    { intros s1 r s0 H. apply click_attempt_counts in H.
      destruct H as (blk & ? & ? & ? & ?). now exists blk. }
    destruct (retry_loop_delays body max) with (k := Z.to_nat max)
      (a := 0%Z) (s := s) as (new' & Htr' & Hd).
    { intros s1 r s0 H. apply click_attempt_counts in H.
      destruct H as (blk & ? & ? & ? & ?). now exists blk. }
    rewrite Htr in Htr', Htr1.
    apply app_inv_head in Htr', Htr1. subst new' new1.
    exists new. repeat split; [assumption|assumption|assumption|lia].
  - intros selector text. unfold _robust_fill_input. fold max. cbv zeta.
    set (body := fill_attempt selector text).
    destruct (retry_loop_count is_selector_wait body max)
      with (k := Z.to_nat max) (a := 0%Z) (s := s) as (new & Htr & Hn).
    { reflexivity. }
    { intros s1 r s0 H. apply fill_attempt_counts in H.
      destruct H as (blk & ? & ? & ? & ?). now exists blk. }
    destruct (retry_loop_count is_fill body max)
      with (k := Z.to_nat max) (a := 0%Z) (s := s) as (new1 & Htr1 & Hc).
    { reflexivity. }
    { intros s1 r s0 H. apply fill_attempt_counts in H.
      destruct H as (blk & ? & ? & ? & ?). now exists blk. }
    destruct (retry_loop_delays body max) with (k := Z.to_nat max)
      (a := 0%Z) (s := s) as (new' & Htr' & Hd).
    { intros s1 r s0 H. apply fill_attempt_counts in H.
      destruct H as (blk & ? & ? & ? & ?). now exists blk. }
    rewrite Htr in Htr', Htr1.
    apply app_inv_head in Htr', Htr1. subst new' new1.
    exists new. repeat split; [assumption|assumption|assumption|lia].
Qed.

(** X6. A robust click returns [True] exactly when its last call is a click
    that completed, and then no earlier click of the run completed; in every
    other run it returns [False] or raises and no click completed.  The same
    holds of the robust navigation and its [goto] calls.  Neither runs out of
    attempts without an answer. *)
Theorem retrying_stops_at_the_first_success :
  forall (max_retries : option Z) s,
    (forall selector description,
        let run := _robust_click_element selector description max_retries s in
        exists new,
          trace (snd run) = trace s ++ new
          /\ ((fst run = Ok true /\ ends_with_completed is_click new)
              \/ ((fst run = Ok false \/ exists ex, fst run = Raise ex)
                  /\ none_completed is_click new)))
    /\ (forall url,
           let run := _robust_navigate url max_retries s in
           exists new,
             trace (snd run) = trace s ++ new
             /\ ((fst run = Ok true /\ ends_with_completed is_goto new)
                 \/ ((fst run = Ok false \/ exists ex, fst run = Raise ex)
                     /\ none_completed is_goto new))).
Proof.
  intros max_retries s. split.
  - intros selector description run. subst run.
    unfold _robust_click_element. cbv zeta.
    match goal with
    | |- context [retry_loop ?b ?m ?k ?a s] =>
        destruct (retry_loop b m k a s) as [r s'] eqn:Hrun
    end.
    apply (retry_loop_stops is_click) in Hrun;
      [exact Hrun|reflexivity|apply click_attempt_outcome].
  - intros url run. subst run.
    destruct (_robust_navigate url max_retries s) as [r s'] eqn:Hrun.
    cbn [fst snd]. revert Hrun.
    unfold _robust_navigate. cbv zeta.
    unfold bind at 1, gets at 1.
    destruct (page (agent s)) as [h|].
    2:{ unfold ret. intros H; inversion H; subst.
        exists []. rewrite app_nil_r.
        split; [reflexivity|]. right. split; [now left|constructor]. }
    intros Hrun.
    apply (retry_loop_stops is_goto) in Hrun;
      [exact Hrun|reflexivity|apply goto_attempt_outcome].
Qed.

(** ** The wait for the end of the Google login *)

Lemma login_poll_run h max_wait_ms :
  forall (fuel : nat) (elapsed_ms : Z) s r s',
    login_poll fuel h elapsed_ms max_wait_ms s = (r, s') ->
    exists new,
      trace s' = trace s ++ new
      /\ (count_calls is_url_read new
          <= Z.to_nat ((max_wait_ms - elapsed_ms + 4999) / 5000))%nat
      /\ Forall (fun ev => is_poll_call (ev_op ev) = true) new
      /\ ((r = Ok true /\ ends_off_google new)
          \/ (r <> Ok true /\ all_on_google new)).
Proof.
  induction fuel as [|fuel IH]; intros elapsed_ms s r s'.
  - cbn. unfold out_of_fuel. intros H; inversion H; subst.
    exists []. rewrite app_nil_r. split; [reflexivity|].
    split; [cbn; lia|]. split; [constructor|].
    right. split; [discriminate|constructor].
  - cbn [login_poll].
    destruct (elapsed_ms <? max_wait_ms)%Z eqn:Hlt.
    2:{ unfold ret. intros H; inversion H; subst.
        exists []. rewrite app_nil_r. split; [reflexivity|].
        split; [cbn; lia|]. split; [constructor|].
        right. split; [discriminate|constructor]. }
    apply Z.ltb_lt in Hlt.
    unfold bind at 1, call at 1.
    destruct (respond (wait_for_timeout h 5000) (world s)) as [[[]|m] w1].
    2:{ intros H; inversion H; subst. cbn [trace].
        eexists. split; [reflexivity|]. split; [cbn; lia|].
        split; [repeat constructor|].
        right. split; [discriminate|].
        constructor; [|constructor]. intros u Hu. discriminate. }
    cbv zeta. unfold bind at 1, call at 1. cbn [world agent trace].
    destruct (respond (page_url h) w1) as [[u|m] w2].
    2:{ intros H; inversion H; subst. cbn [trace].
        rewrite <- app_assoc. cbn [app].
        eexists. split; [reflexivity|].
        split.
        { unfold count_calls. cbn [filter ev_op is_url_read length].
          assert (1 <= (max_wait_ms - elapsed_ms + 4999) / 5000)%Z
            by (apply Z.div_le_lower_bound; lia).
          lia. }
        split; [repeat constructor|].
        right. split; [discriminate|].
        repeat (constructor; [intros ? ?; discriminate|]). constructor. }
    assert (Hone : (1 <= (max_wait_ms - elapsed_ms + 4999) / 5000)%Z)
      by (apply Z.div_le_lower_bound; lia).
    destruct (PyStr.contains "accounts.google.com" u) eqn:Hu; cbn [negb].
    + intros H. apply IH in H. destruct H as (new & Htr & Hcount & Hpoll & Hout).
      cbn [trace] in Htr. rewrite <- app_assoc in Htr. cbn [app] in Htr.
      exists (Ev (wait_for_timeout h 5000) (Done tt)
              :: Ev (page_url h) (Done u) :: new).
      split; [rewrite Htr; now rewrite <- app_assoc|].
      assert (Hon : all_on_google [Ev (wait_for_timeout h 5000) (Done tt);
                                   Ev (page_url h) (Done u)]).
      { constructor; [intros ? ?; discriminate|].
        constructor; [|constructor].
        intros u' Hu'. cbn in Hu'. now inversion Hu'; subst. }
      split.
      { unfold count_calls in *. cbn [filter ev_op is_url_read length].
        replace (max_wait_ms - (elapsed_ms + 5000) + 4999)%Z
          with (max_wait_ms - elapsed_ms + 4999 + (-1) * 5000)%Z in Hcount
          by ring.
        rewrite Z.div_add in Hcount by lia. lia. }
      split; [repeat (constructor; [reflexivity|]); assumption|].
      destruct Hout as [[-> (pre & ev & u' & -> & Hev & Hoff & Hpre)]
                       |[Hr Hall]].
      * left. split; [reflexivity|].
        exists (Ev (wait_for_timeout h 5000) (Done tt)
                :: Ev (page_url h) (Done u) :: pre), ev, u'.
        split; [reflexivity|]. split; [assumption|]. split; [assumption|].
        apply (Forall_app _ [_; _] pre). now split.
      * right. split; [assumption|].
        apply (Forall_app _ [_; _] new). now split.
    + unfold ret. intros H; inversion H; subst. cbn [trace].
      rewrite <- app_assoc. cbn [app].
      eexists. split; [reflexivity|].
      split; [unfold count_calls; cbn [filter ev_op is_url_read length]; lia|].
      split; [repeat constructor|].
      left. split; [reflexivity|].
      exists [Ev (wait_for_timeout h 5000) (Done tt)],
             (Ev (page_url h) (Done u)), u.
      split; [reflexivity|]. split; [reflexivity|]. split; [assumption|].
      constructor; [intros ? ?; discriminate|constructor].
Qed.

(** X7. The wait for the end of the Google login always returns, whatever
    the browser answers, and raises nothing.  It only waits five seconds and
    reads the page's URL in turn, and reads the URL at most once per five
    seconds of its allowance, rounded up.  It returns [True] exactly when
    its last call read a URL without [accounts.google.com], the first such
    one; when it returns [False], every URL it read was still on Google's
    sign-in pages. *)
Theorem login_wait_returns_true_only_off_google :
  forall (max_wait_seconds : Z) s,
    exists b s' new,
      _wait_for_login_completion max_wait_seconds s = (Ok b, s')
      /\ agent s' = agent s
      /\ trace s' = trace s ++ new
      /\ (count_calls is_url_read new
          <= Z.to_nat ((max_wait_seconds * 1000 + 4999) / 5000))%nat
      /\ Forall (fun ev => is_poll_call (ev_op ev) = true) new
      /\ (b = true -> ends_off_google new)
      /\ (b = false -> all_on_google new).
Proof.
  intros max_wait_seconds s.
  destruct (tame_wait_for_login_completion max_wait_seconds s)
    as [Hagent Hfuel].
  revert Hagent Hfuel.
  unfold _wait_for_login_completion. cbv zeta.
  unfold bind at 1 2 3, gets at 1 2 3.
  destruct (page (agent s)) as [h|].
  2:{ unfold ret. cbn. intros _ _. exists false, s, [].
      rewrite app_nil_r. split; [reflexivity|]. split; [reflexivity|].
      split; [reflexivity|]. split; [cbn; lia|]. split; [constructor|].
      split; [discriminate|constructor]. }
  unfold try_catch.
  match goal with
  | |- context [login_poll ?k h ?e ?m s] =>
      destruct (login_poll k h e m s) as [r s1] eqn:Hrun
  end.
  apply login_poll_run in Hrun.
  destruct Hrun as (new & Htr & Hcount & Hpoll & Hout).
  replace (max_wait_seconds * 1000 - 0 + 4999)%Z
    with (max_wait_seconds * 1000 + 4999)%Z in Hcount by ring.
  destruct r as [b|ex|]; unfold ret; cbn [fst snd]; intros Hagent Hfuel.
  - exists b, s1, new. repeat split; try assumption.
    + intros ->. destruct Hout as [[_ H]|[H _]]; [exact H|congruence].
    + intros ->. destruct Hout as [[H _]|[_ H]]; [discriminate|exact H].
  - exists false, s1, new. repeat split; try assumption.
    + discriminate.
    + intros _. destruct Hout as [[H _]|[_ H]]; [discriminate|exact H].
  - congruence.
Qed.

(** ** The calls a computation is confined to *)

Lemma confined_ret P {A} (a : A) : confined P (@ret World A a).
Proof. intros s. exists []. cbn. now rewrite app_nil_r. Qed.

Lemma confined_raise P {A} (ex : exn) : confined P (@raise World A ex).
Proof. intros s. exists []. cbn. now rewrite app_nil_r. Qed.

Lemma confined_gets P {A} (f : Agent -> A) : confined P (@gets World A f).
Proof. intros s. exists []. cbn. now rewrite app_nil_r. Qed.

Lemma confined_call P (o : Op) : P o = true -> confined P (call o).
Proof.
  intros Ho s. unfold call. destruct (respond o (world s)) as [[a|m] w];
    cbn; eexists; (split; [reflexivity|]); repeat constructor; exact Ho.
Qed.

Lemma confined_now P : P time_time = true -> confined P now.
Proof.
  intros Ho s. unfold now. destruct (clock (world s)) as [t w].
  cbn. eexists; (split; [reflexivity|]); repeat constructor; exact Ho.
Qed.

Lemma confined_bind P {A B} (c : @M World A) (k : A -> @M World B) :
  confined P c -> (forall a, confined P (k a)) -> confined P (bind c k).
Proof.
  intros Hc Hk s. unfold bind. destruct (Hc s) as (n1 & Htr & Hn1).
  destruct (c s) as [[a|ex|] s1]; cbn in *; try (now exists n1).
  destruct (Hk a s1) as (n2 & Htr2 & Hn2). exists (n1 ++ n2).
  split; [rewrite Htr2, Htr; now rewrite app_assoc|].
  apply Forall_app. now split.
Qed.

Lemma confined_try P {A} (c : @M World A) (handler : exn -> @M World A) :
  confined P c -> (forall ex, confined P (handler ex)) ->
  confined P (try_catch c handler).
Proof.
  intros Hc Hh s. unfold try_catch. destruct (Hc s) as (n1 & Htr & Hn1).
  destruct (c s) as [[a|ex|] s1]; cbn in *; try (now exists n1).
  destruct (Hh ex s1) as (n2 & Htr2 & Hn2). exists (n1 ++ n2).
  split; [rewrite Htr2, Htr; now rewrite app_assoc|].
  apply Forall_app. now split.
Qed.

Lemma confined_weaken (P Q : Op -> bool) {A} (c : @M World A) :
  (forall o, P o = true -> Q o = true) -> confined P c -> confined Q c.
Proof.
  intros HPQ Hc s. destruct (Hc s) as (new & Htr & Hnew).
  exists new. split; [assumption|].
  eapply Forall_impl; [|exact Hnew]. intros ev. apply HPQ.
Qed.

Lemma observation_is_page_call o :
  is_observation o = true -> is_page_call o = true.
Proof. unfold is_page_call. now intros ->. Qed.

Lemma confined_observation {A} (c : @M World A) :
  confined is_observation c -> confined is_page_call c.
Proof. apply confined_weaken, observation_is_page_call. Qed.

Create HintDb confined.

(** Decomposes a goal [confined P c] along the structure of [c]. *)
Ltac confined_auto :=
  repeat first
    [ progress cbv beta
    | assumption
    | solve [auto with confined]
    | apply confined_ret | apply confined_raise | apply confined_gets
    | match goal with
      | |- confined ?P (call ?o) => exact (confined_call P o eq_refl)
      | |- confined _ now => apply confined_now; reflexivity
      | |- confined _ (on_page _) => unfold on_page
      | |- confined _ (the_page) => unfold the_page
      | |- confined _ (wait_if_page _) => unfold wait_if_page
      | |- confined _ (bind _ _) => apply confined_bind; [|intros ?]
      | |- confined _ (try_catch _ _) => apply confined_try; [|intros ?]
      | |- confined _ (match ?x with _ => _ end) => destruct x
      | |- confined _ (let _ := _ in _) => cbv zeta
      | |- confined is_page_call _ =>
          apply confined_observation; solve [auto with confined]
      | |- confined (fun _ => true) _ =>
          first [ apply (confined_weaken is_observation);
                  [intros; reflexivity|solve [auto with confined]]
                | apply (confined_weaken is_page_call);
                  [intros; reflexivity|solve [auto with confined]] ]
      end ].

Lemma confined_retry_loop P (body : @M World bool) max :
  (forall h, P (wait_for_timeout h RETRY_DELAY) = true) ->
  confined P body -> forall k a, confined P (retry_loop body max k a).
Proof.
  intros Hd Hb. induction k as [|k IH]; intros a; cbn [retry_loop];
    confined_auto.
  apply confined_call, Hd.
Qed.

Lemma confined_wait_for_element_robust selector description timeout state :
  confined is_observation
           (_wait_for_element_robust selector description timeout state).
Proof. unfold _wait_for_element_robust. confined_auto. Qed.

Lemma confined_get_element_robust selector description timeout :
  confined is_observation
           (_get_element_robust selector description timeout).
Proof. unfold _get_element_robust. confined_auto. Qed.

Lemma confined_robust_click selector description max_retries :
  confined is_page_call
           (_robust_click_element selector description max_retries).
Proof.
  unfold _robust_click_element. cbv zeta.
  apply confined_retry_loop; [reflexivity|].
  unfold click_attempt. confined_auto.
Qed.

Lemma confined_robust_fill selector text max_retries :
  confined is_page_call (_robust_fill_input selector text max_retries).
Proof.
  unfold _robust_fill_input. cbv zeta.
  apply confined_retry_loop; [reflexivity|].
  unfold fill_attempt. confined_auto.
Qed.

#[local] Hint Resolve confined_wait_for_element_robust
  confined_get_element_robust confined_robust_click confined_robust_fill
  : confined.

Lemma confined_fill_from_selectors text description :
  forall selectors,
    confined is_page_call
             (_robust_fill_input_from_selectors selectors text description).
Proof.
  induction selectors as [|sel rest IH];
    cbn [_robust_fill_input_from_selectors]; confined_auto.
Qed.

Lemma confined_click_from_selectors description :
  forall selectors,
    confined is_page_call
             (_robust_click_from_selectors selectors description).
Proof.
  induction selectors as [|sel rest IH];
    cbn [_robust_click_from_selectors]; confined_auto.
Qed.

Lemma confined_login_poll h max_wait_ms :
  forall fuel elapsed_ms,
    confined is_observation (login_poll fuel h elapsed_ms max_wait_ms).
Proof.
  induction fuel as [|fuel IH]; intros elapsed_ms; cbn [login_poll].
  - intros s. exists []. cbn. now rewrite app_nil_r.
  - confined_auto.
Qed.

Lemma confined_wait_for_login_completion max_wait_seconds :
  confined is_observation (_wait_for_login_completion max_wait_seconds).
Proof.
  unfold _wait_for_login_completion. cbv zeta. confined_auto.
  apply confined_login_poll.
Qed.

Lemma confined_scroll_and_click element description :
  confined is_page_call (_scroll_and_click element description).
Proof. unfold _scroll_and_click. confined_auto. Qed.

Lemma confined_wait_for_loading_complete :
  confined is_observation _wait_for_loading_complete.
Proof. unfold _wait_for_loading_complete. confined_auto. Qed.

Lemma confined_is_login_page : confined is_observation _is_login_page.
Proof. unfold _is_login_page. confined_auto. Qed.

#[local] Hint Resolve confined_fill_from_selectors
  confined_click_from_selectors confined_wait_for_login_completion
  confined_scroll_and_click confined_wait_for_loading_complete
  confined_is_login_page : confined.

Lemma confined_click_element selector description :
  confined is_page_call (_click_element selector description).
Proof. apply confined_robust_click. Qed.

Lemma confined_wait_for_element selector description timeout :
  confined is_observation (_wait_for_element selector description timeout).
Proof. apply confined_wait_for_element_robust. Qed.

Lemma confined_handle_google_login :
  confined (fun _ => true) handle_google_login.
Proof. unfold handle_google_login. confined_auto. Qed.

#[local] Hint Resolve confined_click_element confined_wait_for_element
  confined_handle_google_login : confined.

Lemma confined_send_prompt prompt : confined is_page_call (_send_prompt prompt).
Proof. unfold _send_prompt. confined_auto. Qed.

Lemma confined_open_created_task : confined is_page_call _open_created_task.
Proof. unfold _open_created_task. confined_auto. Qed.

Lemma confined_focus_chat_input : confined is_page_call _focus_chat_input.
Proof. unfold _focus_chat_input. confined_auto. Qed.

Lemma confined_wait_for_completion :
  confined is_observation _wait_for_completion.
Proof. unfold _wait_for_completion. confined_auto. Qed.

Lemma confined_extract_output_content :
  confined is_observation _extract_output_content.
Proof. unfold _extract_output_content. confined_auto. Qed.

Lemma confined_try_create_pr : confined is_page_call _try_create_pr.
Proof. unfold _try_create_pr. confined_auto. Qed.

Lemma confined_extract_pr_url : confined is_observation _extract_pr_url.
Proof. unfold _extract_pr_url. confined_auto. Qed.

#[local] Hint Resolve confined_send_prompt confined_open_created_task
  confined_focus_chat_input confined_wait_for_completion
  confined_extract_output_content confined_try_create_pr
  confined_extract_pr_url : confined.

Lemma confined_complete_task :
  confined is_page_call _complete_task_and_get_pr.
Proof. unfold _complete_task_and_get_pr. confined_auto. Qed.

#[local] Hint Resolve confined_complete_task : confined.

Lemma confined_codex_execute_prompt prompt :
  confined is_page_call (codex_execute_prompt prompt).
Proof. unfold codex_execute_prompt. confined_auto. Qed.

Lemma confined_read_output output_selector :
  confined is_observation (read_output output_selector).
Proof. unfold read_output. confined_auto. Qed.

#[local] Hint Resolve confined_read_output : confined.

Lemma confined_monitor_loop agent_name output_selector :
  forall fuel timeout_ms start_time last_content last_change_time,
    confined is_observation
             (monitor_loop agent_name output_selector fuel timeout_ms
                           start_time last_content last_change_time).
Proof.
  induction fuel as [|fuel IH]; intros; cbn [monitor_loop].
  - intros s. exists []. cbn. now rewrite app_nil_r.
  - confined_auto.
Qed.

#[local] Hint Resolve confined_monitor_loop : confined.

Lemma confined_wait_for_web_completion agent_name output_selector
      loading_selector agent_timeout_seconds fuel :
  confined is_observation
           (_wait_for_web_completion agent_name output_selector
                                     loading_selector agent_timeout_seconds
                                     fuel).
Proof.
  unfold _wait_for_web_completion, _monitor_output_changes.
  cbv zeta. confined_auto.
Qed.

Lemma confined_send_prompt_to_web_interface input_selector submit_selector
      prompt :
  confined is_page_call
           (_send_prompt_to_web_interface input_selector submit_selector
                                          prompt).
Proof. unfold _send_prompt_to_web_interface. confined_auto. Qed.

Lemma tame_get_web_output output_selector :
  always_returns (get_web_output output_selector).
Proof.
  unfold get_web_output. apply tame_try_returns. tame_auto.
Qed.

(** X8. The lookups of the agents always give an answer, whatever the
    browser does: they raise nothing, leave the agent as it was, and on the
    way they only observe the page (waits, queries, reads of text, attributes
    and the URL), never acting on it. *)
Theorem lookups_only_observe_and_always_answer :
  (forall selector description timeout state,
      lookup (_wait_for_element_robust selector description timeout state))
  /\ (forall selector description timeout,
         lookup (_get_element_robust selector description timeout))
  /\ (forall output_selector, lookup (get_web_output output_selector))
  /\ (forall max_wait_seconds,
         lookup (_wait_for_login_completion max_wait_seconds))
  /\ lookup _is_login_page
  /\ lookup _wait_for_loading_complete
  /\ lookup _extract_output_content
  /\ lookup _extract_pr_url.
Proof.
  unfold lookup. repeat split; intros.
  - unfold _wait_for_element_robust. apply tame_try_returns. tame_auto.
  - apply confined_wait_for_element_robust.
  - unfold _get_element_robust. apply tame_try_returns. tame_auto.
  - apply confined_get_element_robust.
  - apply tame_get_web_output.
  - unfold get_web_output. confined_auto.
  - unfold _wait_for_login_completion. cbv zeta.
    intros s. pose proof (tame_wait_for_login_completion max_wait_seconds s)
      as [Hag Hfuel].
    revert Hag Hfuel. unfold _wait_for_login_completion. cbv zeta.
    unfold bind, gets. destruct (page (agent s)) as [h|].
    + unfold try_catch, ret.
      match goal with
      | |- context [login_poll ?k h ?e ?m s] =>
          destruct (login_poll k h e m s) as [[b|ex|] s1]
      end; cbn; intros Hag Hfuel;
        [now exists b, s1|now exists false, s1|congruence].
    + intros _ _. now exists false, s.
  - apply confined_wait_for_login_completion.
  - unfold _is_login_page. apply tame_try_returns. tame_auto.
  - apply confined_is_login_page.
  - unfold _wait_for_loading_complete. apply tame_try_returns. tame_auto.
  - apply confined_wait_for_loading_complete.
  - unfold _extract_output_content. apply tame_try_returns. tame_auto.
  - apply confined_extract_output_content.
  - unfold _extract_pr_url. apply tame_try_returns. tame_auto.
  - apply confined_extract_pr_url.
Qed.

(** X9. Waiting for the agent to finish only observes the page, in every
    run and for every budget of loop turns, a timeout included: the base
    class's wait (the loading indicator, then the monitoring of the output)
    and the Codex agent's wait for the stop button make no call that acts on
    the page, navigates or closes anything. *)
Theorem waiting_for_completion_only_observes :
  (forall agent_name output_selector loading_selector agent_timeout_seconds
          fuel,
      confined is_observation
               (_wait_for_web_completion agent_name output_selector
                                         loading_selector
                                         agent_timeout_seconds fuel))
  /\ (forall agent_name output_selector fuel timeout_ms,
         confined is_observation
                  (_monitor_output_changes agent_name output_selector fuel
                                           timeout_ms))
  /\ confined is_observation _wait_for_completion.
Proof.
  split; [|split]; intros.
  - apply confined_wait_for_web_completion.
  - unfold _monitor_output_changes. confined_auto.
  - apply confined_wait_for_completion.
Qed.

(** X10. Sending a prompt and running a Codex task stay on the open page:
    every call they make is an observation of the page or a user's action on
    it or on one of its elements.  They never start or close a browser, open
    or close a page, navigate, read the environment or call a captcha
    solver. *)
Theorem tasks_stay_on_the_open_page :
  (forall prompt, confined is_page_call (codex_execute_prompt prompt))
  /\ (forall prompt, confined is_page_call (_send_prompt prompt))
  /\ (forall input_selector submit_selector prompt,
         confined is_page_call
                  (_send_prompt_to_web_interface input_selector
                                                 submit_selector prompt)).
Proof.
  split; [|split]; intros.
  - apply confined_codex_execute_prompt.
  - apply confined_send_prompt.
  - apply confined_send_prompt_to_web_interface.
Qed.

(** ** Answers that follow a decisive event *)

Lemma confined_any P {A} (c : @M World A) :
  confined P c -> confined (fun _ => true) c.
Proof. apply confined_weaken. reflexivity. Qed.

Lemma toa_ret_false good : true_only_after good (@ret World bool false).
Proof.
  intros s. exists []. cbn. rewrite app_nil_r. split; [reflexivity|].
  discriminate.
Qed.

Lemma toa_raise good ex : true_only_after good (@raise World bool ex).
Proof.
  intros s. exists []. cbn. rewrite app_nil_r. split; [reflexivity|].
  discriminate.
Qed.

Lemma toa_bind good {A} (c : @M World A) (k : A -> @M World bool) :
  confined (fun _ => true) c ->
  (forall a, true_only_after good (k a)) ->
  true_only_after good (bind c k).
Proof.
  intros Hc Hk s. unfold bind. destruct (Hc s) as (n1 & Htr & _).
  destruct (c s) as [[a|ex|] s1]; cbn in *;
    try (exists n1; split; [assumption|discriminate]).
  destruct (Hk a s1) as (n2 & Htr2 & Hn2). exists (n1 ++ n2).
  split; [rewrite Htr2, Htr; now rewrite app_assoc|].
  intros Hb. destruct (Hn2 Hb) as (pre & ev & -> & Hev).
  exists (n1 ++ pre), ev. split; [now rewrite app_assoc|assumption].
Qed.

Lemma toa_try good (c : @M World bool) (handler : exn -> @M World bool) :
  true_only_after good c ->
  (forall ex, true_only_after good (handler ex)) ->
  true_only_after good (try_catch c handler).
Proof.
  intros Hc Hh s. unfold try_catch. destruct (Hc s) as (n1 & Htr & Hn1).
  destruct (c s) as [[a|ex|] s1]; cbn in *; try (now exists n1).
  destruct (Hh ex s1) as (n2 & Htr2 & Hn2). exists (n1 ++ n2).
  split; [rewrite Htr2, Htr; now rewrite app_assoc|].
  intros Hb. destruct (Hn2 Hb) as (pre & ev & -> & Hev).
  exists (n1 ++ pre), ev. split; [now rewrite app_assoc|assumption].
Qed.

(** [if c: return True] followed by the rest. *)
Lemma toa_or_else good (c rest : @M World bool) :
  true_only_after good c ->
  true_only_after good rest ->
  true_only_after good (bind c (fun r => if r then ret true else rest)).
Proof.
  intros Hc Hr s. unfold bind. destruct (Hc s) as (n1 & Htr & Hn1).
  destruct (c s) as [[[|]|ex|] s1]; cbn in *;
    try (exists n1; split; [assumption|discriminate]).
  - exists n1. split; [assumption|]. intros _. now apply Hn1.
  - destruct (Hr s1) as (n2 & Htr2 & Hn2). exists (n1 ++ n2).
    split; [rewrite Htr2, Htr; now rewrite app_assoc|].
    intros Hb. destruct (Hn2 Hb) as (pre & ev & -> & Hev).
    exists (n1 ++ pre), ev. split; [now rewrite app_assoc|assumption].
Qed.

Lemma toa_weaken (good good' : Event -> bool) (c : @M World bool) :
  (forall ev, good ev = true -> good' ev = true) ->
  true_only_after good c -> true_only_after good' c.
Proof.
  intros Hw Hc s. destruct (Hc s) as (new & Htr & Hn).
  exists new. split; [assumption|].
  intros Hb. destruct (Hn Hb) as (pre & ev & -> & Hev).
  exists pre, ev. split; [reflexivity|now apply Hw].
Qed.

Create HintDb toa.

Ltac confined_side :=
  first [ solve [confined_auto]
        | apply (confined_any is_observation); solve [confined_auto]
        | apply (confined_any is_page_call); solve [confined_auto] ].

(** Decomposes a goal [true_only_after good c] along the structure of
    [c]. *)
Ltac toa_auto :=
  repeat first
    [ progress cbv beta
    | assumption
    | solve [auto with toa]
    | apply toa_ret_false | apply toa_raise
    | match goal with
      | |- true_only_after _ (bind _ (fun r => if r then ret true else _)) =>
          apply toa_or_else
      | |- true_only_after _ (bind _ _) =>
          apply toa_bind; [confined_side|intros ?]
      | |- true_only_after _ (try_catch _ _) => apply toa_try; [|intros ?]
      | |- true_only_after _ (match ?x with _ => _ end) => destruct x
      | |- true_only_after _ (let _ := _ in _) => cbv zeta
      end ].

Lemma toa_robust_click selector description max_retries :
  true_only_after (completed is_click)
                  (_robust_click_element selector description max_retries).
Proof.
  intros s. unfold _robust_click_element. cbv zeta.
  match goal with
  | |- context [retry_loop ?b ?m ?k ?a s] =>
      destruct (retry_loop b m k a s) as [r s'] eqn:Hrun
  end.
  apply (retry_loop_stops is_click) in Hrun;
    [|reflexivity|apply click_attempt_outcome].
  destruct Hrun as (new & Htr & Hout). exists new. split; [assumption|].
  cbn [fst]. intros ->.
  destruct Hout as [[_ (pre & ev & -> & Hev & _)]|[[H|[ex H]] _]];
    try discriminate.
  now exists pre, ev.
Qed.

Lemma toa_robust_fill selector text max_retries :
  true_only_after (is_matching_readback text)
                  (_robust_fill_input selector text max_retries).
Proof.
  intros s. unfold _robust_fill_input. cbv zeta.
  match goal with
  | |- context [retry_loop ?b ?m ?k ?a s] =>
      destruct (retry_loop b m k a s) as [r s'] eqn:Hrun
  end.
  apply fill_loop_verified in Hrun.
  destruct Hrun as (new & Htr & Hok & _). exists new. split; [assumption|].
  cbn [fst]. intros ->.
  destruct (Hok eq_refl) as (pre & e & -> & _).
  exists pre, (Ev (input_value e) (Done text)). split; [reflexivity|].
  cbn. apply String.eqb_refl.
Qed.

#[local] Hint Resolve toa_robust_click toa_robust_fill : toa.

Lemma toa_fill_from_selectors text description :
  forall selectors,
    true_only_after (is_matching_readback text)
      (_robust_fill_input_from_selectors selectors text description).
Proof.
  induction selectors as [|sel rest IH];
    cbn [_robust_fill_input_from_selectors]; toa_auto.
Qed.

Lemma toa_click_from_selectors description :
  forall selectors,
    true_only_after (completed is_click)
      (_robust_click_from_selectors selectors description).
Proof.
  induction selectors as [|sel rest IH];
    cbn [_robust_click_from_selectors]; toa_auto.
Qed.

Lemma toa_wait_for_login_completion max_wait_seconds :
  true_only_after reads_off_google
                  (_wait_for_login_completion max_wait_seconds).
Proof.
  intros s. unfold _wait_for_login_completion. cbv zeta.
  unfold bind, gets. destruct (page (agent s)) as [h|].
  2:{ exists []. cbn. rewrite app_nil_r. split; [reflexivity|discriminate]. }
  unfold try_catch.
  match goal with
  | |- context [login_poll ?k h ?e ?m s] =>
      destruct (login_poll k h e m s) as [r s1] eqn:Hrun
  end.
  apply login_poll_run in Hrun.
  destruct Hrun as (new & Htr & _ & _ & Hout).
  destruct r as [b|ex|]; unfold ret; cbn [fst snd];
    exists new; (split; [assumption|]); try discriminate.
  intros Hb. inversion Hb; subst.
  destruct Hout as [[_ (pre & ev & u & -> & Hev & Hoff & _)]|[H _]];
    [|congruence].
  exists pre, ev. split; [reflexivity|].
  unfold reads_off_google. now rewrite Hev, Hoff.
Qed.

#[local] Hint Resolve toa_wait_for_login_completion : toa.

Lemma toa_handle_google_login :
  true_only_after reads_off_google handle_google_login.
Proof. unfold handle_google_login. toa_auto. Qed.

Lemma try_catch_bind_call {A} (o : Op) (k : Ret o -> @M World A)
      (handler : exn -> @M World A) s :
  try_catch (bind (call o) k) handler s
  = match respond o (world s) with
    | (Done a, w) =>
        try_catch (k a) handler
                  (mkState (agent s) w (trace s ++ [Ev o (Done a)]))
    | (Failed m, w) =>
        handler (PlaywrightError m)
                (mkState (agent s) w (trace s ++ [Ev o (Failed m)]))
    end.
Proof.
  unfold try_catch, bind, call.
  destruct (respond o (world s)) as [[a|m] w]; reflexivity.
Qed.

Lemma always_returns_bind {A B} (c : @M World A) (k : A -> @M World B) :
  always_returns c -> (forall a, always_returns (k a)) ->
  always_returns (bind c k).
Proof.
  intros Hc Hk s. unfold bind. destruct (Hc s) as (a & s1 & -> & Hag).
  destruct (Hk a s1) as (b & s2 & -> & Hag2). exists b, s2.
  split; [reflexivity|congruence].
Qed.

Lemma always_returns_ret {A} (a : A) : always_returns (@ret World A a).
Proof. intros s. now exists a, s. Qed.

Lemma fill_from_selectors_returns text description :
  forall selectors,
    always_returns
      (_robust_fill_input_from_selectors selectors text description).
Proof.
  induction selectors as [|sel rest IH];
    cbn [_robust_fill_input_from_selectors].
  - apply always_returns_ret.
  - apply always_returns_bind.
    + apply tame_try_returns. tame_auto.
    + intros [|]; [apply always_returns_ret|exact IH].
Qed.

Lemma click_from_selectors_returns description :
  forall selectors,
    always_returns (_robust_click_from_selectors selectors description).
Proof.
  induction selectors as [|sel rest IH];
    cbn [_robust_click_from_selectors].
  - apply always_returns_ret.
  - apply always_returns_bind.
    + apply tame_try_returns. tame_auto.
    + intros [|]; [apply always_returns_ret|exact IH].
Qed.

(** Puts together what a computation is known to do in one run. *)
Lemma run_facts good P (c : @M World bool) :
  always_returns c -> confined P c -> true_only_after good c ->
  forall s, exists b s' new,
    c s = (Ok b, s')
    /\ agent s' = agent s
    /\ trace s' = trace s ++ new
    /\ Forall (fun ev => P (ev_op ev) = true) new
    /\ (b = true -> exists pre ev, new = pre ++ [ev] /\ good ev = true).
Proof.
  intros Hr Hc Ht s.
  destruct (Hr s) as (b & s' & Hrun & Hag).
  destruct (Hc s) as (new & Htr & Hnew).
  destruct (Ht s) as (new' & Htr' & Hgood).
  rewrite Hrun in Htr, Htr', Hgood. cbn [fst snd] in *.
  rewrite Htr in Htr'. apply app_inv_head in Htr'. subst new'.
  exists b, s', new. repeat split; try assumption.
  intros ->. now apply Hgood.
Qed.

(** X11. Trying a list of selectors always gives an answer and raises
    nothing, whatever the browser does, and stays on the open page.  The
    fill answers [True] only when its last call read the text back from the
    input; the click answers [True] only when its last call is a click that
    completed.  With no selector to try, both answer [False] without a
    call. *)
Theorem selector_lists_answer_true_only_after_success :
  (forall selectors text description s,
      exists b s' new,
        _robust_fill_input_from_selectors selectors text description s
        = (Ok b, s')
        /\ agent s' = agent s
        /\ trace s' = trace s ++ new
        /\ Forall (fun ev => is_page_call (ev_op ev) = true) new
        /\ (b = true ->
            exists pre ev,
              new = pre ++ [ev] /\ is_matching_readback text ev = true))
  /\ (forall selectors description s,
         exists b s' new,
           _robust_click_from_selectors selectors description s = (Ok b, s')
           /\ agent s' = agent s
           /\ trace s' = trace s ++ new
           /\ Forall (fun ev => is_page_call (ev_op ev) = true) new
           /\ (b = true ->
               exists pre ev,
                 new = pre ++ [ev] /\ completed is_click ev = true))
  /\ (forall text description s,
         _robust_fill_input_from_selectors [] text description s
         = (Ok false, s))
  /\ (forall description s,
         _robust_click_from_selectors [] description s = (Ok false, s)).
Proof.
  split; [|split; [|split]].
  - intros selectors text description. apply run_facts.
    + apply fill_from_selectors_returns.
    + apply confined_fill_from_selectors.
    + apply toa_fill_from_selectors.
  - intros selectors description. apply run_facts.
    + apply click_from_selectors_returns.
    + apply confined_click_from_selectors.
    + apply toa_click_from_selectors.
  - reflexivity.
  - reflexivity.
Qed.

Lemma google_login_without_credentials s new :
  trace (snd (handle_google_login s)) = trace s ++ new ->
  credentials new = None ->
  fst (handle_google_login s) = Ok false
  /\ Forall (fun ev => is_getenv (ev_op ev) = true) new.
Proof.
  unfold handle_google_login. rewrite try_catch_bind_call.
  destruct (respond (getenv "GOOGLE_EMAIL") (world s)) as [[oe|m] w1].
  2:{ cbn. intros Htr _. apply app_inv_head in Htr. subst new.
      split; [reflexivity|repeat constructor]. }
  rewrite try_catch_bind_call. cbn [world agent trace].
  destruct (respond (getenv "GOOGLE_PASSWORD") w1) as [[op|m] w2].
  2:{ cbn. rewrite <- app_assoc. intros Htr _.
      apply app_inv_head in Htr. subst new.
      split; [reflexivity|repeat constructor]. }
  rewrite <- app_assoc. cbn [app].
  destruct oe as [email|], op as [password|];
    try (cbn; intros Htr _; apply app_inv_head in Htr; subst new;
         split; [reflexivity|repeat constructor]).
  destruct (PyStr.truthy email) eqn:He, (PyStr.truthy password) eqn:Hp;
    cbn [negb orb];
    try (cbn; intros Htr _; apply app_inv_head in Htr; subst new;
         split; [reflexivity|repeat constructor]).
  match goal with
  | |- context [try_catch ?R ?hd ?s2] =>
      assert (Hc : confined (fun _ => true) (try_catch R hd))
        by (apply confined_try; [confined_side|intros; confined_auto]);
      destruct (Hc s2) as (rest & Hrest & _)
  end.
  rewrite Hrest. cbn [trace]. rewrite <- app_assoc.
  intros Htr. apply app_inv_head in Htr. subst new.
  cbn. rewrite He, Hp. discriminate.
Qed.

(** X12. The Google login always gives an answer and raises nothing.  Its
    first calls read the two credentials from the environment; when they are
    not both set and non-empty it answers [False] and makes no call on the
    page.  It answers [True] only when its last call read a URL of the page
    that is no longer on [accounts.google.com]. *)
Theorem google_login_needs_credentials_and_leaves_google :
  forall s,
    exists b s' new,
      handle_google_login s = (Ok b, s')
      /\ agent s' = agent s
      /\ trace s' = trace s ++ new
      /\ (credentials new = None ->
          b = false /\ Forall (fun ev => is_getenv (ev_op ev) = true) new)
      /\ (b = true ->
          credentials new <> None
          /\ exists pre ev,
              new = pre ++ [ev] /\ reads_off_google ev = true).
Proof.
  intros s.
  assert (Hr : always_returns handle_google_login)
    by (unfold handle_google_login; apply tame_try_returns; tame_auto).
  destruct (Hr s) as (b & s' & Hrun & Hag).
  destruct (toa_handle_google_login s) as (new & Htr & Hgood).
  pose proof (google_login_without_credentials s new Htr) as Hnone.
  rewrite Hrun in Htr, Hgood, Hnone. cbn [fst snd] in *.
  exists b, s', new. repeat split; try assumption.
  - apply Hnone in H. destruct H as [H _]. congruence.
  - now apply Hnone.
  - subst b. intros Hcred. apply Hnone in Hcred.
    destruct Hcred as [H _]. discriminate.
  - subst b. now apply Hgood.
Qed.

(** X13. The captcha step always gives an answer and raises nothing.  On an
    open page it calls the solvers for hCaptcha, reCaptcha and geeTest in
    that order and stops at the first that completes: it answers [True]
    exactly when its last call completed, every solver called before having
    failed, and [False] when every solver it called failed.  Without a page
    it answers [False] with no call. *)
Theorem captcha_step_stops_at_the_first_solver_that_completes :
  forall s,
    exists b s' new,
      solve_captcha_if_present s = (Ok b, s')
      /\ agent s' = agent s
      /\ trace s' = trace s ++ new
      /\ (forall h, page (agent s) = Some h ->
            exists k, calls new = firstn k (captcha_solvers h))
      /\ (page (agent s) = None -> new = [] /\ b = false)
      /\ (b = true ->
          exists pre ev,
            new = pre ++ [ev] /\ is_failed ev = false /\ all_failed pre)
      /\ (b = false -> all_failed new).
Proof.
  intros s. unfold solve_captcha_if_present.
  unfold try_catch at 1, bind at 1, gets at 1.
  destruct (page (agent s)) as [h|] eqn:Hp.
  2:{ exists false, s, []. unfold ret. rewrite app_nil_r.
      repeat split; try reflexivity; try discriminate; try constructor. }
  cbn [try_solvers]. unfold_m.
  destruct (respond (solve_hcaptcha h) (world s)) as [[[]|m1] w1].
  { eexists true, _, [_]. cbn [agent trace].
    split; [reflexivity|]. split; [reflexivity|]. split; [reflexivity|].
    split; [intros h' Hh; inversion Hh; subst; now exists 1%nat|].
    split; [discriminate|]. split; [|discriminate].
    intros _. eexists [], _. repeat split. constructor. }
  cbn [world agent trace].
  destruct (respond (solve_recaptcha h) w1) as [[[]|m2] w2].
  { eexists true, _, [_; _]. cbn [agent trace].
    split; [reflexivity|]. split; [reflexivity|].
    split; [now rewrite <- app_assoc|].
    split; [intros h' Hh; inversion Hh; subst; now exists 2%nat|].
    split; [discriminate|]. split; [|discriminate].
    intros _. eexists [_], _. repeat split. repeat constructor. }
  cbn [world agent trace].
  destruct (respond (solve_geetest h) w2) as [[[]|m3] w3].
  { eexists true, _, [_; _; _]. cbn [agent trace].
    split; [reflexivity|]. split; [reflexivity|].
    split; [now repeat rewrite <- app_assoc|].
    split; [intros h' Hh; inversion Hh; subst; now exists 3%nat|].
    split; [discriminate|]. split; [|discriminate].
    intros _. eexists [_; _], _. repeat split. repeat constructor. }
  eexists false, _, [_; _; _]. cbn [agent trace].
  split; [reflexivity|]. split; [reflexivity|].
  split; [now repeat rewrite <- app_assoc|].
  split; [intros h' Hh; inversion Hh; subst; now exists 3%nat|].
  split; [discriminate|]. split; [discriminate|].
  intros _. repeat constructor.
Qed.

(** ** The Codex setup *)

(** A read of the URL followed by a continuation that answers [True] at
    once only on the environments page. *)
Lemma toa_url_read (k : string -> @M World bool) :
  (forall u, (k u = ret true /\ _is_environments_page u = true)
             \/ true_only_after reads_environments_page (k u)) ->
  true_only_after reads_environments_page
                  (bind (on_page (fun h => call (page_url h))) k).
Proof.
  intros Hk s. unfold on_page, the_page, bind, gets, ret, call.
  destruct (page (agent s)) as [h|].
  2:{ exists []. cbn. rewrite app_nil_r. split; [reflexivity|discriminate]. }
  destruct (respond (page_url h) (world s)) as [[u|m] w].
  2:{ eexists. cbn. split; [reflexivity|discriminate]. }
  destruct (Hk u) as [[-> Hu]|Ht].
  - exists [Ev (page_url h) (Done u)]. cbn. split; [reflexivity|].
    intros _. exists [], (Ev (page_url h) (Done u)).
    split; [reflexivity|]. exact Hu.
  - match goal with
    | |- context [k u ?s1] => destruct (Ht s1) as (n2 & Htr2 & Hn2)
    end.
    cbn [trace] in Htr2.
    exists (Ev (page_url h) (Done u) :: n2).
    split; [rewrite Htr2; now rewrite <- app_assoc|].
    intros Hb. destruct (Hn2 Hb) as (pre & ev & -> & Hev).
    now exists (Ev (page_url h) (Done u) :: pre), ev.
Qed.

Lemma toa_final_url_check :
  true_only_after reads_environments_page
    (bind (on_page (fun h => call (page_url h)))
          (fun u => ret (_is_environments_page u))).
Proof.
  apply toa_url_read. intros u.
  destruct (_is_environments_page u) eqn:Hu.
  - left. now split.
  - right. apply toa_ret_false.
Qed.

#[local] Hint Resolve toa_final_url_check : toa.

Lemma toa_handle_authentication :
  true_only_after reads_environments_page _handle_authentication.
Proof.
  unfold _handle_authentication. apply toa_url_read. intros u.
  destruct (_is_environments_page u) eqn:Hu; [left; now split|right].
  toa_auto.
Qed.

Lemma authentication_when_signed_in s h u w :
  page (agent s) = Some h ->
  respond (page_url h) (world s) = (Done u, w) ->
  _is_environments_page u = true ->
  _handle_authentication s
  = (Ok true, mkState (agent s) w (trace s ++ [Ev (page_url h) (Done u)])).
Proof.
  intros Hp Hr Hu.
  unfold _handle_authentication, on_page, the_page.
  unfold bind at 1. unfold bind at 1. unfold bind at 1, gets at 1.
  rewrite Hp. unfold ret at 1. unfold call at 1. rewrite Hr. rewrite Hu.
  reflexivity.
Qed.

(** X14. The authentication of the Codex agent leaves the agent's
    attributes alone and answers [True] only when its last call read a URL
    of the environments page.  When the first URL it reads is already on
    that page it answers [True] with that single call: a signed-in user is
    not taken through the login again. *)
Theorem authentication_succeeds_only_on_the_environments_page :
  forall s,
    exists r s' new,
      _handle_authentication s = (r, s')
      /\ r <> OutOfFuel
      /\ agent s' = agent s
      /\ trace s' = trace s ++ new
      /\ (r = Ok true ->
          exists pre ev,
            new = pre ++ [ev] /\ reads_environments_page ev = true)
      /\ (forall h u w,
            page (agent s) = Some h ->
            respond (page_url h) (world s) = (Done u, w) ->
            _is_environments_page u = true ->
            r = Ok true /\ new = [Ev (page_url h) (Done u)]).
Proof.
  intros s.
  destruct (tame_handle_authentication s) as [Hag Hfuel].
  destruct (toa_handle_authentication s) as (new & Htr & Hgood).
  destruct (_handle_authentication s) as [r s'] eqn:Hrun.
  cbn [fst snd] in *.
  exists r, s', new.
  split; [reflexivity|]. split; [assumption|]. split; [assumption|].
  split; [assumption|]. split; [assumption|].
  intros h u w Hp Hr Hu.
  rewrite (authentication_when_signed_in s h u w Hp Hr Hu) in Hrun.
  inversion Hrun; subst. cbn [trace] in Htr.
  apply app_inv_head in Htr. now split.
Qed.

Lemma confined_wait_for_redirect : confined is_observation _wait_for_redirect.
Proof. unfold _wait_for_redirect. confined_auto. Qed.

#[local] Hint Resolve confined_wait_for_redirect : confined.

Lemma toa_click_element selector description :
  true_only_after (completed is_click) (_click_element selector description).
Proof. apply toa_robust_click. Qed.

#[local] Hint Resolve toa_click_element : toa.

Lemma toa_find_existing repo_name :
  true_only_after (completed is_click)
                  (_find_and_select_existing_environment repo_name).
Proof. unfold _find_and_select_existing_environment. toa_auto. Qed.

Lemma toa_create_environment repo_name :
  true_only_after (completed is_click) (_create_new_environment repo_name).
Proof. unfold _create_new_environment. toa_auto. Qed.

Lemma confined_find_existing repo_name :
  confined is_page_call (_find_and_select_existing_environment repo_name).
Proof. unfold _find_and_select_existing_environment. confined_auto. Qed.

Lemma confined_create_environment repo_name :
  confined is_page_call (_create_new_environment repo_name).
Proof. unfold _create_new_environment. confined_auto. Qed.

#[local] Hint Resolve toa_find_existing toa_create_environment : toa.
#[local] Hint Resolve confined_find_existing confined_create_environment
  : confined.

(** X15. The selection of the Codex environment leaves the agent's
    attributes alone.  Without a repository URL (none set, or an empty one)
    it answers [True] and makes no call.  With one, it answers [True] only
    when its last call is a click that completed: it never reports an
    environment as selected when no click went through. *)
Theorem environment_is_selected_only_by_a_click :
  forall s,
    exists r s' new,
      _handle_environments_page s = (r, s')
      /\ r <> OutOfFuel
      /\ agent s' = agent s
      /\ trace s' = trace s ++ new
      /\ (PyStr.truthy_opt (repo_url (agent s)) = false ->
          r = Ok true /\ new = [])
      /\ (PyStr.truthy_opt (repo_url (agent s)) = true ->
          r = Ok true ->
          exists pre ev,
            new = pre ++ [ev] /\ completed is_click ev = true).
Proof.
  intros s.
  destruct (tame_handle_environments_page s) as [Hag Hfuel].
  destruct (_handle_environments_page s) as [r s'] eqn:Hrun.
  cbn [fst snd] in *. revert Hrun.
  unfold _handle_environments_page, get_working_repo_url.
  unfold bind at 1, gets at 1.
  destruct (PyStr.truthy_opt (repo_url (agent s))) eqn:Hrepo; cbn [negb].
  - intros Hrun.
    match type of Hrun with
    | ?R s = _ =>
        assert (Ht : true_only_after (completed is_click) R) by toa_auto
    end.
    destruct (Ht s) as (new & Htr & Hgood). rewrite Hrun in Htr, Hgood.
    cbn [fst snd] in *.
    exists r, s', new. repeat split; try assumption; try discriminate.
    intros _ ->. now apply Hgood.
  - unfold ret. intros Hrun. inversion Hrun; subst.
    exists (Ok true), s', []. rewrite app_nil_r.
    repeat split; try assumption; try reflexivity; discriminate.
Qed.

(** ** Sending the prompt *)

Lemma app_eq_split_at (Q : Event -> bool) (l1 l2 pre post : list Event) ev :
  l1 ++ l2 = pre ++ ev :: post ->
  Forall (fun x => Q x = false) l1 ->
  Q ev = true ->
  exists pre', pre = l1 ++ pre'.
Proof.
  revert pre. induction l1 as [|a l1 IH]; intros pre Heq Hall Hev.
  - now exists pre.
  - inversion Hall as [|? ? Ha Hall']; subst.
    destruct pre as [|b pre]; cbn in Heq; inversion Heq; subst.
    + congruence.
    + destruct (IH pre H1 Hall' Hev) as (pre' & ->). now exists pre'.
Qed.

Lemma confined_no_click_fill selector text max_retries :
  confined (fun o => negb (is_click o))
           (_robust_fill_input selector text max_retries).
Proof.
  unfold _robust_fill_input. cbv zeta.
  apply confined_retry_loop; [reflexivity|].
  unfold fill_attempt. confined_auto.
Qed.

(** When a verified fill guards what follows, every click comes after the
    read-back of the text. *)
Lemma fill_gates_the_rest text {B} (fill_c : @M World bool)
      (rest : @M World B) (ex1 : exn) :
  confined (fun o => negb (is_click o)) fill_c ->
  true_only_after (is_matching_readback text) fill_c ->
  confined (fun _ => true) rest ->
  forall s, exists new,
    trace (snd (bind fill_c
                     (fun ok => bind (if negb ok then raise ex1 else ret tt)
                                     (fun _ => rest)) s))
    = trace s ++ new
    /\ click_only_after_readback text new.
Proof.
  intros Hc Ht Hrest s. unfold bind at 1.
  destruct (Hc s) as (nf & Htr & Hnf).
  destruct (Ht s) as (nf' & Htr' & Hgood).
  rewrite Htr in Htr'. apply app_inv_head in Htr'. subst nf'.
  assert (Hnone : Forall (fun x => is_click (ev_op x) = false) nf).
  { eapply Forall_impl; [|exact Hnf]. cbv beta. intros x Hx.
    now destruct (is_click (ev_op x)). }
  assert (Hquiet : click_only_after_readback text nf).
  { intros pre ev post Heq Hclick. subst nf.
    apply Forall_app in Hnone. destruct Hnone as [_ Hn].
    inversion Hn; subst. congruence. }
  destruct (fill_c s) as [[[|]|ex|] s1]; cbn [fst snd negb] in *;
    try (exists nf; split; [assumption|exact Hquiet]).
  unfold bind at 1, ret at 1.
  destruct (Hrest s1) as (nr & Htrr & _).
  exists (nf ++ nr). split; [rewrite Htrr, Htr; now rewrite app_assoc|].
  intros pre ev post Heq Hclick.
  destruct (app_eq_split_at (fun x => is_click (ev_op x)) nf nr pre post ev
              Heq Hnone Hclick) as (pre' & ->).
  apply Exists_app. left.
  destruct (Hgood eq_refl) as (p & rb & -> & Hrb).
  apply Exists_app. right. now constructor.
Qed.

Lemma send_prompt_ends_with_click prompt s :
  exists new,
    trace (snd (_send_prompt prompt s)) = trace s ++ new
    /\ (fst (_send_prompt prompt s) = Ok tt ->
        exists pre ev, new = pre ++ [ev] /\ completed is_click ev = true).
Proof.
  destruct (_send_prompt prompt s) as [r s'] eqn:Hrun. cbn [fst snd].
  revert Hrun. unfold _send_prompt. unfold bind at 1.
  destruct (confined_robust_fill CodexSelectors.PROMPT_INPUT prompt None s)
    as (nf & Htr & _).
  destruct (_robust_fill_input CodexSelectors.PROMPT_INPUT prompt None s)
    as [[[|]|ex|] s1]; cbn [fst snd negb] in *;
    try (unfold bind at 1, raise at 1; intros Hrun; inversion Hrun; subst;
         exists nf; split; [assumption|discriminate]);
    try (intros Hrun; inversion Hrun; subst;
         exists nf; split; [assumption|discriminate]).
  unfold bind at 1, ret at 1. unfold bind at 1.
  destruct (toa_robust_click CodexSelectors.CODE_BUTTON "Code button" None s1)
    as (nc & Htrc & Hgood).
  destruct (_robust_click_element CodexSelectors.CODE_BUTTON "Code button"
                                  None s1)
    as [[[|]|ex|] s2]; cbn [fst snd negb] in *;
    unfold ret, raise; intros Hrun; inversion Hrun; subst;
    (exists (nf ++ nc); split; [rewrite Htrc, Htr; now rewrite app_assoc|]);
    try discriminate.
  intros _. destruct (Hgood eq_refl) as (pre & ev & -> & Hev).
  exists (nf ++ pre), ev. split; [now rewrite app_assoc|assumption].
Qed.

Lemma confined_wait_if_page ms : confined is_observation (wait_if_page ms).
Proof. unfold wait_if_page. confined_auto. Qed.

Lemma base_send_body_clicks input_selector submit_selector prompt s s' :
  (ok <- _robust_fill_input input_selector prompt None ;;
   (if negb ok then raise (Exception "Failed to fill input field")
    else ret tt) ;;
   ok <- _robust_click_element submit_selector "submit button" None ;;
   (if negb ok then raise (Exception "Failed to click submit button")
    else ret tt) ;;
   wait_if_page RETRY_DELAY) s = (Ok tt, s') ->
  forall new,
    trace s' = trace s ++ new ->
    Exists (fun ev => completed is_click ev = true) new.
Proof.
  unfold bind at 1.
  destruct (confined_robust_fill input_selector prompt None s)
    as (nf & Htr & _).
  destruct (_robust_fill_input input_selector prompt None s)
    as [[[|]|ex|] s1]; cbn [fst snd negb] in *;
    try (unfold bind at 1, raise at 1; intros H; discriminate);
    try (intros H; discriminate).
  unfold bind at 1, ret at 1. unfold bind at 1.
  destruct (toa_robust_click submit_selector "submit button" None s1)
    as (nc & Htrc & Hgood).
  destruct (_robust_click_element submit_selector "submit button" None s1)
    as [[[|]|ex|] s2]; cbn [fst snd negb] in *;
    try (unfold bind at 1, raise at 1; intros H; discriminate);
    try (intros H; discriminate).
  unfold bind at 1, ret at 1.
  destruct (confined_wait_if_page RETRY_DELAY s2) as (nw & Htrw & _).
  intros Hrun new Heq. rewrite Hrun in Htrw. cbn [snd] in Htrw.
  rewrite Htrw, Htrc, Htr in Heq. repeat rewrite <- app_assoc in Heq.
  apply app_inv_head in Heq. subst new.
  destruct (Hgood eq_refl) as (pre & ev & -> & Hev).
  apply Exists_app. right. apply Exists_app. left.
  apply Exists_app. right. now constructor.
Qed.

Lemma base_send_prompt_run input_selector submit_selector prompt s :
  exists new,
    trace (snd (_send_prompt_to_web_interface input_selector submit_selector
                                              prompt s))
    = trace s ++ new
    /\ click_only_after_readback prompt new
    /\ (fst (_send_prompt_to_web_interface input_selector submit_selector
                                           prompt s) = Ok tt ->
        Exists (fun ev => completed is_click ev = true) new)
    /\ (fst (_send_prompt_to_web_interface input_selector submit_selector
                                           prompt s) = Ok tt
        \/ exists msg,
            fst (_send_prompt_to_web_interface input_selector submit_selector
                                               prompt s)
            = Raise (Exception
                       ("Failed to send prompt to web interface: " ++ msg))).
Proof.
  unfold _send_prompt_to_web_interface.
  match goal with
  | |- context [try_catch ?body ?hd s] =>
      set (c := body);
      assert (Htame : tame c) by (subst c; tame_auto);
      assert (Hgate : exists new,
                 trace (snd (c s)) = trace s ++ new
                 /\ click_only_after_readback prompt new)
        by (subst c; apply fill_gates_the_rest;
            [apply confined_no_click_fill|apply toa_robust_fill
            |confined_side]);
      pose proof (base_send_body_clicks input_selector submit_selector
                                        prompt s) as Hclick;
      fold c in Hclick
  end.
  destruct Hgate as (new & Htr & Hgate).
  destruct (Htame s) as [_ Hfuel].
  unfold try_catch.
  destruct (c s) as [[[]|ex|] s1]; cbn [fst snd] in *.
  - exists new. repeat split; try assumption.
    + intros _. now apply (Hclick s1).
    + now left.
  - unfold raise. cbn [fst snd].
    exists new. repeat split; try assumption; try discriminate.
    right. now exists (exn_str ex).
  - congruence.
Qed.

(** X16. The prompt is submitted only after it was verified.  In every run
    of [_send_prompt] and of [_send_prompt_to_web_interface], whatever the
    browser does, each click comes after a read-back of the input that
    returned the prompt: when the fill is not verified, nothing is clicked.
    The Codex method returns normally only right after a click that
    completed; the base method returns normally only when a click
    completed, and every failure it raises is an exception whose message
    starts with [Failed to send prompt to web interface: ]. *)
Theorem prompt_is_submitted_only_after_its_read_back :
  (forall prompt s,
      exists new,
        trace (snd (_send_prompt prompt s)) = trace s ++ new
        /\ click_only_after_readback prompt new
        /\ (fst (_send_prompt prompt s) = Ok tt ->
            exists pre ev,
              new = pre ++ [ev] /\ completed is_click ev = true))
  /\ (forall input_selector submit_selector prompt s,
         let run := _send_prompt_to_web_interface input_selector
                                                  submit_selector prompt s in
         exists new,
           trace (snd run) = trace s ++ new
           /\ click_only_after_readback prompt new
           /\ (fst run = Ok tt ->
               Exists (fun ev => completed is_click ev = true) new)
           /\ (fst run = Ok tt
               \/ exists msg,
                   fst run
                   = Raise (Exception
                              ("Failed to send prompt to web interface: "
                                 ++ msg)))).
Proof.
  split.
  - intros prompt s.
    destruct (send_prompt_ends_with_click prompt s) as (new & Htr & Hend).
    assert (Hgate : exists new',
               trace (snd (_send_prompt prompt s)) = trace s ++ new'
               /\ click_only_after_readback prompt new')
      by (unfold _send_prompt; apply fill_gates_the_rest;
          [apply confined_no_click_fill|apply toa_robust_fill
          |confined_side]).
    destruct Hgate as (new' & Htr' & Hgate).
    rewrite Htr in Htr'. apply app_inv_head in Htr'. subst new'.
    exists new. repeat split; assumption.
  - intros input_selector submit_selector prompt s run. subst run.
    apply base_send_prompt_run.
Qed.

(** ** What the Codex agent captures *)

Lemma rstrip_nonspace c t :
  PyStr.is_space c = false ->
  PyStr.rstrip (String c t) = String c (PyStr.rstrip t).
Proof.
  intros Hc. cbn [PyStr.rstrip]. rewrite Hc.
  now destruct (PyStr.rstrip t).
Qed.

Lemma rstrip_idempotent (x : string) :
  PyStr.rstrip (PyStr.rstrip x) = PyStr.rstrip x.
Proof.
  induction x as [|c x IH]; [reflexivity|].
  cbn [PyStr.rstrip]. destruct (PyStr.rstrip x) as [|d t] eqn:Hs.
  - destruct (PyStr.is_space c) eqn:Hc; [reflexivity|].
    cbn. now rewrite Hc.
  - cbn [PyStr.rstrip] in *. rewrite IH. reflexivity.
Qed.

Lemma lstrip_head (x : string) c t :
  PyStr.lstrip x = String c t -> PyStr.is_space c = false.
Proof.
  induction x as [|d x IH]; [discriminate|].
  cbn [PyStr.lstrip]. destruct (PyStr.is_space d) eqn:Hd; [exact IH|].
  intros H. inversion H; subst. exact Hd.
Qed.

(** Stripping twice is stripping once. *)
Lemma strip_idempotent (x : string) :
  PyStr.strip (PyStr.strip x) = PyStr.strip x.
Proof.
  unfold PyStr.strip at 1.
  assert (Hl : PyStr.lstrip (PyStr.strip x) = PyStr.strip x).
  { unfold PyStr.strip. destruct (PyStr.lstrip x) as [|c t] eqn:Hs.
    - reflexivity.
    - pose proof (lstrip_head x c t Hs) as Hc.
      rewrite (rstrip_nonspace c t Hc). cbn [PyStr.lstrip]. now rewrite Hc. }
  rewrite Hl. unfold PyStr.strip. apply rstrip_idempotent.
Qed.

(** Case analysis on the answers of all the calls of a computation that
    keeps the outcome of each test. *)
Ltac explore_tests :=
  repeat (simpl_state; cbv beta iota;
          match goal with
          | |- context [match page (agent ?s) with _ => _ end] =>
              destruct (page (agent s))
          | |- context [respond ?o ?w] =>
              let E := fresh "E" in
              destruct (respond o w) as [[?|?] ?] eqn:E
          | |- context [match ?x with _ => _ end] =>
              is_var x; destruct x
          | |- context [if ?b then _ else _] =>
              let T := fresh "T" in destruct b eqn:T
          end).

Ltac split_tests :=
  repeat match goal with
         | H : (_ && _)%bool = true |- _ =>
             apply andb_prop in H; destruct H
         end.

(** X17. What the Codex agent captures is what the page showed.  The
    lookup of the pull request answers, if anything, the [href] its last
    call read, and only when it contains [github.com] and [/pull/].  The
    lookup of the output answers, if anything, the stripped text its last
    call read, and only when that is not empty; stripping it again changes
    nothing.  Neither raises. *)
Theorem captured_results_are_what_the_page_showed :
  forall s,
    (exists new,
        trace (snd (_extract_pr_url s)) = trace s ++ new
        /\ match fst (_extract_pr_url s) with
           | Ok (Some u) =>
               PyStr.contains "github.com" u = true
               /\ PyStr.contains "/pull/" u = true
               /\ exists pre e,
                   new = pre ++ [Ev (get_attribute e "href") (Done (Some u))]
           | Ok None => True
           | _ => False
           end)
    /\ (exists new,
           trace (snd (_extract_output_content s)) = trace s ++ new
           /\ match fst (_extract_output_content s) with
              | Ok (Some c) =>
                  c <> EmptyString
                  /\ PyStr.strip c = c
                  /\ exists pre e raw,
                      new = pre ++ [Ev (inner_text e) (Done raw)]
                      /\ c = PyStr.strip raw
              | Ok None => True
              | _ => False
              end).
Proof.
  intros s. split.
  - destruct (_extract_pr_url s) as [r s'] eqn:Hrun. cbn [fst snd].
    revert Hrun. unfold _extract_pr_url, on_page. unfold_m.
    explore_tests; intros Hrun; inversion Hrun; subst; clear Hrun;
      normalize_trace;
      (first [ exists []; rewrite app_nil_r; split; [reflexivity|]
             | eexists; split; [reflexivity|] ]);
      try exact I.
    split_tests. repeat split; try assumption.
    eexists [_; _], _. reflexivity.
  - destruct (_extract_output_content s) as [r s'] eqn:Hrun. cbn [fst snd].
    revert Hrun. unfold _extract_output_content, on_page. unfold_m.
    explore_tests; intros Hrun; inversion Hrun; subst; clear Hrun;
      normalize_trace;
      (first [ exists []; rewrite app_nil_r; split; [reflexivity|]
             | eexists; split; [reflexivity|] ]);
      try exact I;
      split_tests;
      (split; [|split; [apply strip_idempotent|]]);
      try (first [ eexists [_; _], _, _; split; reflexivity
                 | eexists [_; _; _], _, _; split; reflexivity ]);
      match goal with
      | H : Nat.ltb 0 (String.length ?c) = true |- ?c <> _ =>
          intros Hc; rewrite Hc in H; discriminate
      end.
Qed.

(** ** The pattern of the repository name *)

Lemma mtch_seq r1 r2 fuel (x : string) caps k :
  Re.mtch (Re.Seq r1 r2) fuel x caps k
  = Re.mtch r1 fuel x caps (fun x1 caps1 => Re.mtch r2 fuel x1 caps1 k).
Proof. reflexivity. Qed.

Lemma mtch_grp i r1 fuel (x : string) caps k :
  Re.mtch (Re.Grp i r1) fuel x caps k
  = Re.mtch r1 fuel x caps
            (fun x1 caps1 =>
               k x1 ((i, PyStr.take (String.length x - String.length x1) x)
                       :: caps1)).
Proof. reflexivity. Qed.

Lemma mtch_chr_inv c fuel (x : string) caps k r :
  Re.mtch (Re.Chr c) fuel x caps k = Some r ->
  exists x', x = String c x' /\ k x' caps = Some r.
Proof.
  cbn. destruct x as [|a x]; [discriminate|].
  destruct (Ascii.eqb a c) eqn:Hc; [|discriminate].
  apply Ascii.eqb_eq in Hc. subst a. intros H. now exists x.
Qed.

Lemma mtch_cls_inv f fuel (x : string) caps k r :
  Re.mtch (Re.Cls f) fuel x caps k = Some r ->
  exists c x', x = String c x' /\ f c = true /\ k x' caps = Some r.
Proof.
  cbn. destruct x as [|a x]; [discriminate|].
  destruct (f a) eqn:Hc; [|discriminate].
  intros H. now exists a, x.
Qed.

Lemma mtch_lit_inv (lit : string) :
  forall fuel (x : string) caps k r,
    Re.mtch (Re.Lit lit) fuel x caps k = Some r ->
    exists x', x = (lit ++ x')%string /\ k x' caps = Some r.
Proof.
  induction lit as [|c lit IH]; intros fuel x caps k r H.
  - now exists x.
  - cbn [Re.Lit] in H. rewrite mtch_seq in H.
    apply mtch_chr_inv in H. destruct H as (x1 & -> & H).
    apply IH in H. destruct H as (x2 & -> & H). now exists x2.
Qed.

Lemma mtch_plus_cls_inv g f :
  forall fuel (x : string) caps k r,
    Re.mtch (Re.Plus g (Re.Cls f)) fuel x caps k = Some r ->
    exists w x',
      x = (w ++ x')%string /\ PyStr.truthy w = true
      /\ all_chars f w = true /\ k x' caps = Some r.
Proof.
  intros fuel. cbn [Re.mtch]. induction fuel as [|n IH]; intros x caps k r.
  - discriminate.
  - destruct x as [|a x]; [discriminate|].
    destruct (f a) eqn:Ha; [|discriminate].
    destruct g.
    + match goal with
      | |- match ?L with _ => _ end = _ -> _ => destruct L as [c|] eqn:Hl
      end.
      * intros H. inversion H; subst. apply IH in Hl.
        destruct Hl as (w & x' & -> & Hw & Hall & Hk).
        exists (String a w), x'. cbn. rewrite Ha. now repeat split.
      * intros Hk. exists (String a EmptyString), x. cbn. rewrite Ha.
        now repeat split.
    + destruct (k x caps) as [c|] eqn:Hk.
      * intros H. inversion H; subst.
        exists (String a EmptyString), x. cbn. rewrite Ha. now repeat split.
      * intros Hl. apply IH in Hl.
        destruct Hl as (w & x' & -> & Hw & Hall & Hk').
        exists (String a w), x'. cbn. rewrite Ha. now repeat split.
Qed.

Lemma mtch_opt_inv r1 fuel (x : string) caps k r :
  Re.mtch (Re.Opt r1) fuel x caps k = Some r ->
  Re.mtch r1 fuel x caps k = Some r \/ k x caps = Some r.
Proof.
  cbn [Re.mtch]. destruct (Re.mtch r1 fuel x caps k); intros H; auto.
Qed.

Lemma mtch_eol_inv fuel (x : string) caps k r :
  Re.mtch Re.Eol fuel x caps k = Some r ->
  (x = EmptyString \/ x = String "010"%char EmptyString)
  /\ k x caps = Some r.
Proof.
  cbn. destruct x as [|a [|b x]]; try discriminate.
  - intros H. split; [now left|assumption].
  - destruct (Ascii.eqb a "010"%char) eqn:Ha; [|discriminate].
    apply Ascii.eqb_eq in Ha. subst a. intros H. split; [now right|assumption].
Qed.

Lemma take_consumed (w x' : string) :
  PyStr.take (String.length (w ++ x') - String.length x') (w ++ x') = w.
Proof.
  assert (Hlen : forall a b : string,
             String.length (a ++ b) = (String.length a + String.length b)%nat).
  { induction a as [|c a IH]; intros b; cbn; [reflexivity|now rewrite IH]. }
  rewrite Hlen. replace (String.length w + String.length x' - String.length x')%nat
    with (String.length w) by lia.
  induction w as [|c w IH]; cbn.
  - now destruct x'.
  - now rewrite IH.
Qed.

(** A match of [repo_pattern] at the start of a subject reads the subject
    as [github.com], a separator, the owner, a slash, the name and a tail. *)
Lemma match_here_repo_pattern fuel (x : string) caps :
  Re.match_here repo_pattern fuel x = Some caps ->
  exists sep owner name tail,
    x = ("github.com" ++ String sep (owner ++ "/" ++ name ++ tail))%string
    /\ (sep = "/"%char \/ sep = ":"%char)
    /\ is_name owner = true
    /\ is_name name = true
    /\ is_repo_url_tail tail = true
    /\ caps = [(2%nat, name); (1%nat, owner)].
Proof.
  unfold Re.match_here, repo_pattern. intros H.
  rewrite mtch_seq in H. apply mtch_lit_inv in H.
  destruct H as (x1 & -> & H). cbv beta in H.
  rewrite mtch_seq in H. apply mtch_cls_inv in H.
  destruct H as (sep & x2 & -> & Hsep & H). cbv beta in H.
  rewrite mtch_seq, mtch_grp in H. apply mtch_plus_cls_inv in H.
  destruct H as (owner & x3 & -> & Ho & Hoc & H). cbv beta in H.
  rewrite take_consumed in H.
  rewrite mtch_seq in H. apply mtch_chr_inv in H.
  destruct H as (x4 & -> & H). cbv beta in H.
  rewrite mtch_seq, mtch_grp in H. apply mtch_plus_cls_inv in H.
  destruct H as (name & x5 & -> & Hn & Hnc & H). cbv beta in H.
  rewrite take_consumed in H.
  assert (Hsep' : sep = "/"%char \/ sep = ":"%char).
  { apply orb_prop in Hsep. destruct Hsep as [Hs|Hs];
      apply Ascii.eqb_eq in Hs; auto. }
  assert (Hend : forall (t x6 : string),
             x5 = (t ++ x6)%string ->
             (t = EmptyString \/ t = ".git"%string) ->
             Re.mtch (Re.Seq (Re.Opt (Re.Chr "/"%char)) Re.Eol) fuel x6
                     [(2%nat, name); (1%nat, owner)]
                     (fun _ caps0 => Some caps0) = Some caps ->
             is_repo_url_tail x5 = true
             /\ caps = [(2%nat, name); (1%nat, owner)]).
  { intros t x6 -> Ht Hm. rewrite mtch_seq in Hm.
    apply mtch_opt_inv in Hm. destruct Hm as [Hm|Hm].
    - apply mtch_chr_inv in Hm. destruct Hm as (x7 & -> & Hm).
      apply mtch_eol_inv in Hm. destruct Hm as [Hx7 Hc].
      inversion Hc; subst caps. split; [|reflexivity].
      destruct Ht as [->| ->], Hx7 as [->| ->]; reflexivity.
    - apply mtch_eol_inv in Hm. destruct Hm as [Hx6 Hc].
      inversion Hc; subst caps. split; [|reflexivity].
      destruct Ht as [->| ->], Hx6 as [->| ->]; reflexivity. }
  rewrite mtch_seq in H. apply mtch_opt_inv in H.
  assert (Htail : is_repo_url_tail x5 = true
                  /\ caps = [(2%nat, name); (1%nat, owner)]).
  { destruct H as [H|H].
    - change (Re.mtch (Re.NonCap (Re.Lit ".git")) fuel x5
                      [(2%nat, name); (1%nat, owner)])
        with (Re.mtch (Re.Lit ".git") fuel x5
                      [(2%nat, name); (1%nat, owner)]) in H.
      apply mtch_lit_inv in H. destruct H as (x6 & Hx & H).
      apply (Hend ".git"%string x6 Hx); [now right|exact H].
    - apply (Hend EmptyString x5 eq_refl); [now left|exact H]. }
  destruct Htail as [Htail ->].
  exists sep, owner, name, x5.
  repeat split; try assumption.
  - unfold is_name. now rewrite Ho, Hoc.
  - unfold is_name. now rewrite Hn, Hnc.
Qed.

Lemma search_from_inv r fuel :
  forall (x : string) caps,
    Re.search_from r fuel x = Some caps ->
    exists pre x',
      x = (pre ++ x')%string /\ Re.match_here r fuel x' = Some caps.
Proof.
  induction x as [|a x IH]; intros caps; cbn [Re.search_from].
  - destruct (Re.match_here r fuel EmptyString) as [c|] eqn:Hm;
      [|discriminate].
    intros H. inversion H; subst. now exists EmptyString, EmptyString.
  - destruct (Re.match_here r fuel (String a x)) as [c|] eqn:Hm.
    + intros H. inversion H; subst. now exists EmptyString, (String a x).
    + intros H. apply IH in H. destruct H as (pre & x' & -> & H).
      now exists (String a pre), x'.
Qed.

(** X18. Whatever the URL, the repository name that is extracted is either
    empty or of the form [owner/name], where the owner and the name are
    non-empty strings of letters, digits, underscores, dashes and dots that
    the URL holds right after [github.com/] or [github.com:], separated by
    a slash and followed up to the end of the URL by at most [.git], a
    slash and a final newline. *)
Theorem extracted_repo_name_is_read_from_the_url :
  forall url : string,
    _extract_repo_name url = EmptyString
    \/ exists pre sep owner name tail,
        url = (pre ++ "github.com"
                   ++ String sep (owner ++ "/" ++ name ++ tail))%string
        /\ (sep = "/"%char \/ sep = ":"%char)
        /\ is_name owner = true
        /\ is_name name = true
        /\ is_repo_url_tail tail = true
        /\ _extract_repo_name url = (owner ++ "/" ++ name)%string.
Proof.
  intros url. unfold _extract_repo_name.
  destruct (negb (PyStr.truthy url)); [now left|].
  unfold Re.search.
  destruct (Re.search_from repo_pattern (S (String.length url)) url)
    as [caps|] eqn:Hs; [|now left].
  apply search_from_inv in Hs. destruct Hs as (pre & x' & -> & Hm).
  apply match_here_repo_pattern in Hm.
  destruct Hm as (sep & owner & name & tail & -> & Hsep & Ho & Hn & Ht & ->).
  right. exists pre, sep, owner, name, tail.
  repeat split; assumption || reflexivity.
Qed.

Lemma string_length_app (a b : string) :
  String.length (a ++ b) = (String.length a + String.length b)%nat.
Proof. induction a as [|c a IH]; cbn; [reflexivity|now rewrite IH]. Qed.

Lemma mtch_lit_app (lit : string) :
  forall fuel (x : string) caps k,
    Re.mtch (Re.Lit lit) fuel (lit ++ x) caps k = k x caps.
Proof.
  induction lit as [|c lit IH]; intros fuel x caps k; [reflexivity|].
  cbn [Re.Lit String.append]. rewrite mtch_seq. cbn [Re.mtch].
  rewrite Ascii.eqb_refl. apply IH.
Qed.

Lemma mtch_plus_greedy f :
  forall (w : string) fuel (x : string) caps k r,
    PyStr.truthy w = true ->
    all_chars f w = true ->
    (String.length w <= fuel)%nat ->
    stops f x ->
    k x caps = Some r ->
    Re.mtch (Re.Plus true (Re.Cls f)) fuel (w ++ x) caps k = Some r.
Proof.
  intros w fuel. cbn [Re.mtch]. revert fuel.
  induction w as [|a w IH]; intros fuel x caps k r Hw Hall Hlen Hstop Hk;
    [discriminate|].
  destruct fuel as [|n]; [cbn in Hlen; lia|].
  cbn in Hall. apply andb_prop in Hall. destruct Hall as [Ha Hall].
  cbn [String.append]. rewrite Ha.
  destruct w as [|b w].
  - cbn [String.append].
    match goal with
    | |- match ?L with _ => _ end = _ => assert (Hl : L = None)
    end.
    { destruct n; [reflexivity|].
      destruct x as [|c x]; [reflexivity|]. cbn in Hstop. now rewrite Hstop. }
    now rewrite Hl.
  - rewrite (IH n x caps k r); try assumption; try reflexivity.
    cbn in Hlen |- *. lia.
Qed.

Lemma mtch_plus_lazy f :
  forall (w : string) fuel (x : string) caps k r,
    PyStr.truthy w = true ->
    all_chars f w = true ->
    (String.length w <= fuel)%nat ->
    k x caps = Some r ->
    (forall p q : string,
        w = (p ++ q)%string -> PyStr.truthy p = true ->
        PyStr.truthy q = true -> k (q ++ x)%string caps = None) ->
    Re.mtch (Re.Plus false (Re.Cls f)) fuel (w ++ x) caps k = Some r.
Proof.
  intros w fuel. cbn [Re.mtch]. revert fuel.
  induction w as [|a w IH]; intros fuel x caps k r Hw Hall Hlen Hk Hnone;
    [discriminate|].
  destruct fuel as [|n]; [cbn in Hlen; lia|].
  cbn in Hall. apply andb_prop in Hall. destruct Hall as [Ha Hall].
  cbn [String.append]. rewrite Ha.
  destruct w as [|b w].
  - cbn [String.append]. now rewrite Hk.
  - rewrite (Hnone (String a EmptyString) (String b w)) by reflexivity.
    apply IH; try assumption; try reflexivity.
    + cbn in Hlen |- *. lia.
    + intros p q Hpq Hp Hq.
      apply (Hnone (String a p) q); [now rewrite Hpq|reflexivity|assumption].
Qed.

Lemma in_tails (tail : string) :
  is_repo_url_tail tail = true -> In tail repo_url_tails.
Proof.
  unfold is_repo_url_tail. rewrite existsb_exists.
  intros (y & Hin & Hy). apply String.eqb_eq in Hy. now subst.
Qed.

Lemma end_matches_tail fuel (tail : string) caps :
  is_repo_url_tail tail = true ->
  Re.mtch repo_pattern_end fuel tail caps (fun _ caps0 => Some caps0)
  = Some caps.
Proof.
  intros H. apply in_tails in H. cbn in H.
  repeat (destruct H as [<-|H]; [reflexivity|]). contradiction.
Qed.

Lemma name_char_not c :
  name_char c = true ->
  Ascii.eqb c "/"%char = false /\ Ascii.eqb c "010"%char = false.
Proof.
  intros H. split.
  - destruct (Ascii.eqb c "/"%char) eqn:E; [|reflexivity].
    apply Ascii.eqb_eq in E. subst c. discriminate.
  - destruct (Ascii.eqb c "010"%char) eqn:E; [|reflexivity].
    apply Ascii.eqb_eq in E. subst c. discriminate.
Qed.

(** After a name character only [.git] can begin what the end of the
    pattern accepts. *)
Lemma end_after_name_char fuel c (x : string) caps k :
  name_char c = true ->
  Re.mtch (Re.Seq (Re.Opt (Re.Chr "/"%char)) Re.Eol) fuel (String c x) caps k
  = None.
Proof.
  intros Hc. destruct (name_char_not c Hc) as [Hs Hn].
  rewrite mtch_seq. cbn [Re.mtch]. rewrite Hs.
  destruct x; [now rewrite Hn|reflexivity].
Qed.

(** The end of the pattern accepts nothing that begins with a name other
    than [.git]. *)
Lemma end_fails_after_name fuel (q tail : string) caps :
  is_name q = true ->
  String.eqb q ".git" = false ->
  is_repo_url_tail tail = true ->
  Re.mtch repo_pattern_end fuel (q ++ tail) caps (fun _ caps0 => Some caps0)
  = None.
Proof.
  intros Hq Hne Ht. unfold is_name in Hq.
  apply andb_prop in Hq. destruct Hq as [Hq Hall].
  unfold repo_pattern_end. rewrite mtch_seq. cbn [Re.mtch].
  match goal with
  | |- match ?L with _ => _ end = _ => destruct L as [r|] eqn:Hm
  end.
  - exfalso. apply mtch_lit_inv in Hm. destruct Hm as (y & Heq & Hk).
    cbv beta in Hk. apply in_tails in Ht. cbn in Ht.
    destruct q as [|c1 [|c2 [|c3 [|c4 [|c5 q5]]]]];
      cbn [String.append] in Heq; try discriminate;
      inversion Heq; subst; clear Heq;
      try (repeat (destruct Ht as [Ht|Ht]; [discriminate|]); contradiction).
    cbn [all_chars] in Hall. repeat rewrite andb_true_iff in Hall.
    destruct Hall as (_ & _ & _ & _ & Hc5 & _).
    destruct (name_char_not c5 Hc5) as [Hs Hn].
    rewrite Hs in Hk.
    destruct (q5 ++ tail)%string; [rewrite Hn in Hk|]; discriminate.
  - destruct q as [|c1 q1]; [discriminate|].
    cbn in Hall. apply andb_prop in Hall. destruct Hall as [Hc1 _].
    destruct (name_char_not c1 Hc1) as [Hs Hn].
    cbn [String.append]. rewrite Hs.
    destruct (q1 ++ tail)%string; [now rewrite Hn|reflexivity].
Qed.

Lemma mtch_cls_step f fuel c (x : string) caps k :
  f c = true -> Re.mtch (Re.Cls f) fuel (String c x) caps k = k x caps.
Proof. intros H. cbn. now rewrite H. Qed.

Lemma mtch_chr_step fuel c (x : string) caps k :
  Re.mtch (Re.Chr c) fuel (String c x) caps k = k x caps.
Proof. cbn. now rewrite Ascii.eqb_refl. Qed.

Lemma all_chars_app f (p q : string) :
  all_chars f (p ++ q) = (all_chars f p && all_chars f q)%bool.
Proof.
  induction p as [|a p IH]; cbn; [reflexivity|].
  now rewrite IH, andb_assoc.
Qed.

Lemma has_git_suffix_app (p q : string) :
  has_git_suffix (p ++ q) = false ->
  PyStr.truthy p = true ->
  String.eqb q ".git" = false.
Proof.
  induction p as [|a p IH]; [discriminate|].
  cbn [String.append has_git_suffix]. intros H _.
  apply orb_false_iff in H. destruct H as [Heq Hrest].
  destruct p as [|b p]; [exact Heq|].
  now apply IH.
Qed.

(** At [github.com], the pattern reads a well-formed repository URL as its
    owner and its name. *)
Lemma match_here_repo_url fuel sep (owner name tail : string) :
  (sep = "/"%char \/ sep = ":"%char) ->
  is_name owner = true ->
  is_name name = true ->
  has_git_suffix name = false ->
  is_repo_url_tail tail = true ->
  (String.length owner <= fuel)%nat ->
  (String.length name <= fuel)%nat ->
  Re.match_here repo_pattern fuel
    ("github.com" ++ String sep (owner ++ "/" ++ name ++ tail))%string
  = Some [(2%nat, name); (1%nat, owner)].
Proof.
  intros Hsep Ho Hn Hgit Ht Hlo Hln.
  unfold is_name in Ho, Hn.
  apply andb_prop in Ho. destruct Ho as [Ho Hoc].
  apply andb_prop in Hn. destruct Hn as [Hn Hnc].
  unfold Re.match_here, repo_pattern.
  rewrite mtch_seq, mtch_lit_app.
  rewrite mtch_seq, mtch_cls_step
    by (destruct Hsep as [->| ->]; reflexivity).
  rewrite mtch_seq, mtch_grp.
  apply mtch_plus_greedy; try assumption; [reflexivity|].
  rewrite take_consumed.
  change ("/" ++ name ++ tail)%string with (String "/" (name ++ tail)).
  rewrite mtch_seq, mtch_chr_step.
  rewrite mtch_seq, mtch_grp.
  apply mtch_plus_lazy; try assumption.
  - rewrite take_consumed. now apply (end_matches_tail fuel tail).
  - intros p q Hpq Hp Hq.
    apply (end_fails_after_name fuel q tail).
    + unfold is_name. rewrite Hq. cbn [andb].
      rewrite Hpq, all_chars_app in Hnc.
      apply andb_prop in Hnc. now destruct Hnc.
    + rewrite Hpq in Hgit. now apply (has_git_suffix_app p q).
    + assumption.
Qed.

Lemma search_skip (lit : string) (rest : Re.regex) fuel a (x : string) :
  PyStr.startswith lit (String a x) = false ->
  Re.search_from (Re.Seq (Re.Lit lit) rest) fuel (String a x)
  = Re.search_from (Re.Seq (Re.Lit lit) rest) fuel x.
Proof.
  intros H. cbn [Re.search_from]. unfold Re.match_here.
  rewrite mtch_seq, mtch_literal_prefix by assumption. reflexivity.
Qed.

Lemma search_hit r fuel (x : string) caps :
  Re.match_here r fuel x = Some caps ->
  Re.search_from r fuel x = Some caps.
Proof. intros H. destruct x; cbn [Re.search_from]; now rewrite H. Qed.

(** X19. The extraction gives back the owner and the name of every
    well-formed GitHub URL: after one of the usual schemes, [github.com], a
    slash or a colon, an owner and a name made of letters, digits,
    underscores, dashes and dots, and at most [.git], a slash and a final
    newline, it returns [owner/name], provided the name does not itself end
    with [.git]. *)
Theorem well_formed_repo_urls_are_read_back :
  forall (scheme : string) (sep : ascii) (owner name tail : string),
    is_repo_url_scheme scheme = true ->
    (sep = "/"%char \/ sep = ":"%char) ->
    is_name owner = true ->
    is_name name = true ->
    has_git_suffix name = false ->
    is_repo_url_tail tail = true ->
    _extract_repo_name
      (scheme ++ "github.com" ++ String sep (owner ++ "/" ++ name ++ tail))
    = (owner ++ "/" ++ name)%string.
Proof.
  intros scheme sep owner name tail Hscheme Hsep Ho Hn Hgit Ht.
  unfold is_repo_url_scheme in Hscheme. rewrite existsb_exists in Hscheme.
  destruct Hscheme as (y & Hin & Hy). apply String.eqb_eq in Hy. subst y.
  unfold _extract_repo_name, Re.search.
  match goal with
  | |- context [Re.search_from _ (S (String.length ?u))] =>
      assert (Hlo : (String.length owner <= S (String.length u))%nat)
        by (repeat rewrite string_length_app; cbn [String.length];
            repeat rewrite string_length_app; lia);
      assert (Hln : (String.length name <= S (String.length u))%nat)
        by (repeat rewrite string_length_app; cbn [String.length];
            repeat rewrite string_length_app; lia);
      generalize dependent (S (String.length u))
  end.
  intros fuel Hlo Hln.
  pose proof (match_here_repo_url fuel sep owner name tail
                Hsep Ho Hn Hgit Ht Hlo Hln) as Hm.
  unfold repo_pattern in *.
  cbn in Hin.
  repeat (destruct Hin as [<-|Hin];
          [cbn [String.append PyStr.truthy negb];
           repeat (rewrite search_skip by reflexivity);
           match goal with
           | |- context [Re.search_from ?r fuel ?x] =>
               rewrite (search_hit r fuel x _ Hm)
           end;
           reflexivity|]).
  contradiction.
Qed.

(** ** Status and repository context *)

(** X20. The status checks make no call and change nothing.
    [is_coding_agent_open] answers [True] exactly when the ready flag is up
    and a page is held.  The check with the project answers the same,
    whatever the project name: once the agent is open, the project test
    can no longer fail. *)
Theorem status_checks_ignore_the_project_name :
  forall (project_name : option string) s,
    is_coding_agent_open s
    = (Ok (_is_browser_ready (agent s)
           && match page (agent s) with Some _ => true | None => false end),
       s)
    /\ is_coding_agent_open_with_project project_name s
       = is_coding_agent_open s
    /\ snd (is_ide_open_with_correct_project project_name s) = s
    /\ (fst (is_coding_agent_open s) = Ok true ->
        fst (is_ide_open_with_correct_project project_name s) = Ok true).
Proof.
  intros project_name s.
  unfold is_coding_agent_open_with_project, is_coding_agent_open,
    is_ide_open_with_correct_project.
  unfold try_catch, bind, gets, ret.
  destruct s as [[c b p rd ru oru] w tr].
  cbn [agent _is_browser_ready page].
  destruct rd, p as [h|], (PyStr.truthy_opt project_name);
    cbn; repeat split; try discriminate.
Qed.

(** X21. The repository context that was set is the one read back, until
    it is set again: setting it touches nothing else, and it is still
    there after the interface was closed and after a Codex task has run,
    whatever the browser did. *)
Theorem repository_context_is_kept :
  forall (url : string) (original : option string) s,
    let s1 := snd (set_repository_context url original s) in
    fst (set_repository_context url original s) = Ok tt
    /\ trace s1 = trace s
    /\ botright_client (agent s1) = botright_client (agent s)
    /\ browser (agent s1) = browser (agent s)
    /\ page (agent s1) = page (agent s)
    /\ _is_browser_ready (agent s1) = _is_browser_ready (agent s)
    /\ forall s2,
        (s2 = s1
         \/ s2 = snd (close_coding_interface s1)
         \/ exists prompt, s2 = snd (codex_execute_prompt prompt s1)) ->
        get_working_repo_url s2 = (Ok (Some url), s2)
        /\ get_original_repo_url s2 = (Ok original, s2).
Proof.
  intros url original s s1. subst s1.
  unfold set_repository_context, modify. cbn [fst snd agent trace].
  cbn [botright_client browser page _is_browser_ready].
  repeat (split; [reflexivity|]).
  intros s2 Hs2.
  assert (Hctx : repo_url (agent s2) = Some url
                 /\ original_repo_url (agent s2) = original).
  { destruct Hs2 as [->|[->|[prompt ->]]].
    - split; reflexivity.
    - match goal with
      | |- context [close_coding_interface ?st] =>
          destruct (cleanup_keeps_context st) as (s' & Hrun & Hr & Ho);
          assert (Hclose : close_coding_interface st = (Ok true, s'))
            by (unfold close_coding_interface, try_catch, bind;
                rewrite Hrun; reflexivity);
          rewrite Hclose
      end.
      cbn [snd]. split; [exact Hr|exact Ho].
    - match goal with
      | |- context [codex_execute_prompt prompt ?st] =>
          destruct (tame_codex_execute_prompt prompt st) as [Hag _]
      end.
      rewrite Hag. now split. }
  destruct Hctx as [Hr Ho].
  unfold get_working_repo_url, get_original_repo_url, gets.
  now rewrite Hr, Ho.
Qed.

(** ** The default setup *)

Lemma toa_wait_for_element_robust selector description timeout :
  true_only_after (shows selector)
    (_wait_for_element_robust selector description timeout visible).
Proof.
  intros s. unfold _wait_for_element_robust. cbv zeta. unfold_m.
  destruct (page (agent s)) as [h|].
  2:{ exists []. cbn. rewrite app_nil_r. split; [reflexivity|discriminate]. }
  destruct (respond (wait_for_selector h selector (Some visible)
                       (or_default timeout DEFAULT_TIMEOUT)) (world s))
    as [[[]|m] w]; cbn [fst snd trace].
  - eexists. split; [reflexivity|]. intros _.
    eexists [], _. split; [reflexivity|].
    unfold shows. cbn. now rewrite String.eqb_refl.
  - eexists. split; [reflexivity|]. discriminate.
Qed.

Lemma toa_pass good (c : @M World bool) :
  true_only_after good c ->
  true_only_after good
    (bind c (fun r => if negb r then ret false else ret true)).
Proof.
  intros Hc s. unfold bind. destruct (Hc s) as (n1 & Htr & Hn1).
  destruct (c s) as [[[|]|ex|] s1]; cbn in *;
    exists n1; (split; [assumption|]); try discriminate.
  intros _. now apply Hn1.
Qed.

Lemma confined_setup_captcha : confined is_setup_call solve_captcha_if_present.
Proof.
  unfold solve_captcha_if_present. cbn [try_solvers]. confined_auto.
Qed.

Lemma confined_default_setup input_selector :
  confined is_setup_call (default_setup_web_interface input_selector).
Proof.
  unfold default_setup_web_interface.
  apply confined_try; [|intros; apply confined_ret].
  apply confined_bind; [apply confined_setup_captcha|intros _].
  apply confined_bind; [|intros; confined_auto].
  apply (confined_weaken is_observation).
  - intros o Ho. unfold is_setup_call. now rewrite Ho.
  - apply confined_wait_for_element_robust.
Qed.

(** X22. The default setup of a web agent always gives an answer and
    raises nothing.  It only observes the page and calls the captcha
    solvers, and it answers [True] only when its last call is a wait for
    the input field to be visible that completed. *)
Theorem default_setup_succeeds_only_when_the_input_shows :
  forall (input_selector : string) s,
    exists b s' new,
      default_setup_web_interface input_selector s = (Ok b, s')
      /\ agent s' = agent s
      /\ trace s' = trace s ++ new
      /\ Forall (fun ev => is_setup_call (ev_op ev) = true) new
      /\ (b = true ->
          exists pre ev,
            new = pre ++ [ev] /\ shows input_selector ev = true).
Proof.
  intros input_selector. apply run_facts.
  - unfold default_setup_web_interface. apply tame_try_returns. tame_auto.
  - apply confined_default_setup.
  - unfold default_setup_web_interface.
    apply toa_try; [|intros; apply toa_ret_false].
    apply toa_bind.
    + apply (confined_any is_setup_call), confined_setup_captcha.
    + intros _. apply toa_pass, toa_wait_for_element_robust.
Qed.

Lemma confined_handle_environments_page :
  confined is_page_call _handle_environments_page.
Proof.
  unfold _handle_environments_page, get_working_repo_url. confined_auto.
Qed.

(** X23. The setup of the Codex agent always gives an answer and raises
    nothing, and leaves the agent's attributes alone.  It answers [True]
    only when the authentication ended on the environments page: some call
    of the run read a URL of that page. *)
Theorem codex_setup_succeeds_only_when_signed_in :
  forall s,
    exists b s' new,
      codex_setup_web_interface s = (Ok b, s')
      /\ agent s' = agent s
      /\ trace s' = trace s ++ new
      /\ (b = true ->
          Exists (fun ev => reads_environments_page ev = true) new).
Proof.
  intros s.
  assert (Hr : always_returns codex_setup_web_interface)
    by (unfold codex_setup_web_interface; apply tame_try_returns; tame_auto).
  destruct (Hr s) as (b & s' & Hrun & Hag).
  assert (Hnew : exists new,
             trace s' = trace s ++ new
             /\ (b = true ->
                 Exists (fun ev => reads_environments_page ev = true) new)).
  { revert Hrun.
    unfold codex_setup_web_interface, try_catch. unfold bind at 1.
    destruct (toa_handle_authentication s) as (n1 & Htr1 & Hgood).
    destruct (_handle_authentication s) as [[[|]|ex|] s1];
      cbn [fst snd negb] in *;
      try (intros Hrun; discriminate);
      try (unfold ret; intros Hrun; inversion Hrun; subst;
           exists n1; split; [assumption|discriminate]).
    unfold bind at 1.
    destruct (confined_handle_environments_page s1) as (n2 & Htr2 & _).
    destruct (_handle_environments_page s1) as [[[|]|ex|] s2];
      cbn [fst snd negb] in *; unfold ret; intros Hrun;
      try discriminate; inversion Hrun; subst;
      (exists (n1 ++ n2));
      (split; [rewrite Htr2, Htr1; now rewrite app_assoc|]);
      try discriminate.
    intros _. destruct (Hgood eq_refl) as (pre & ev & -> & Hev).
    apply Exists_app. left. apply Exists_app. right. now constructor. }
  destruct Hnew as (new & Htr & Hsigned).
  exists b, s', new. repeat split; assumption.
Qed.

End Properties.

(* ===================================================================== *)
(** * The properties on the simulated browser                             *)
(* ===================================================================== *)

Local Open Scope string_scope.

Lemma robust_interaction_fails_after_max_attempts_witness :
  let eng := Sim.engine Sim.disabled_page in
  let s := Sim.state_of (Sim.opened true None) in
  page (agent s) = Some 3
  /\ never_actionable (engine := eng)
  /\ delays_complete (engine := eng)
  /\ fails_after (failed_attempt 3 "#prompt-textarea") 3
       (_robust_click_element (engine := eng) "#prompt-textarea" "prompt"
                              (Some 2%Z)) s 2.
Proof.
  intros eng s.
  assert (Hna : never_actionable (engine := eng)).
  { intros e w. cbn. discriminate. }
  assert (Hd : delays_complete (engine := eng)).
  { intros h ms w. reflexivity. }
  split; [reflexivity|]. split; [exact Hna|]. split; [exact Hd|].
  exact (proj1 (proj1 (robust_interaction_fails_after_max_attempts
                         (engine := eng) 3 "#prompt-textarea" "prompt" "text"
                         s eq_refl Hna Hd) 2%Z ltac:(lia))).
Defined.

Lemma fill_is_verified_by_read_back_witness :
  let good := Sim.engine Sim.cooperative in
  let bad := Sim.engine Sim.forgetful_input in
  let s := Sim.state_of (Sim.opened true None) in
  (exists s1,
      fill_attempt (engine := good) "#prompt-textarea" "fix" s = (Ok true, s1)
      /\ _robust_fill_input (engine := good) "#prompt-textarea" "fix" None s
         = (Ok true, s1)
      /\ trace s1 = Sim.verified_run)
  /\ delays_complete (engine := bad)
  /\ never_reads_back (engine := bad) "fix"
  /\ fails_after (unverified_attempt 3 "#prompt-textarea") 3
       (_robust_fill_input (engine := bad) "#prompt-textarea" "fix"
                           (Some 2%Z)) s 2.
Proof.
  intros good bad s.
  pose proof (fill_is_verified_by_read_back (engine := good)
                "#prompt-textarea" "fix") as (_ & _ & Hfirst).
  pose proof (fill_is_verified_by_read_back (engine := bad)
                "#prompt-textarea" "fix") as (_ & Hretry & _).
  assert (Hd : delays_complete (engine := bad)) by (intros h ms w; reflexivity).
  assert (Hnr : never_reads_back (engine := bad) "fix")
    by (intros e w; cbn; discriminate).
  split; [|split; [exact Hd|split; [exact Hnr|]]].
  - eexists. split; [reflexivity|].
    split; [|reflexivity].
    apply (Hfirst None s); [unfold or_default, RETRY_COUNT; lia | reflexivity].
  - apply (Hretry 2%Z 3 s); [lia | reflexivity | exact Hd | exact Hnr].
Defined.

(** On a page where the native click is intercepted while a script click
    would go through, an attempt of [_robust_click_element] is given up
    right after the native click: no synthetic click is tried. *)
Lemma robust_click_gives_up_without_fallback :
  let eng := Sim.engine Sim.click_blocked in
  let s := Sim.state_of (Sim.opened true None) in
  let run := _robust_click_element (engine := eng) "button:has-text('Code')"
               "Code button" (Some 1%Z) s in
  fst run = Ok false
  /\ trace (snd run) = Sim.blocked_click_run
  /\ fst (respond (Engine := eng) (evaluate 7 synthetic_click)
                  (world (snd run))) = Done tt.
Proof. repeat split. Qed.

Lemma synthetic_click_only_in_scroll_and_click_witness :
  let eng := Sim.engine Sim.click_blocked in
  let s := Sim.state_of (Sim.opened true None) in
  (1 <= 2)%Z
  /\ page (agent s) = Some 3
  /\ delays_complete (engine := eng)
  /\ click_never_registers (engine := eng)
  /\ fails_after (scriptless_attempt 3 "button:has-text('Code')") 3
       (_robust_click_element (engine := eng) "button:has-text('Code')"
                              "Code button" (Some 2%Z)) s 2.
Proof.
  intros eng s.
  assert (Hd : delays_complete (engine := eng)) by (intros h ms w; reflexivity).
  assert (Hc : click_never_registers (engine := eng))
    by (intros e w; eexists; reflexivity).
  split; [lia|]. split; [reflexivity|]. split; [exact Hd|]. split; [exact Hc|].
  exact (proj2 (proj2 (synthetic_click_only_in_scroll_and_click (engine := eng)))
           "button:has-text('Code')" "Code button" 2%Z 3 s
           ltac:(lia) eq_refl Hd Hc).
Defined.

Lemma close_is_idempotent_witness :
  let eng := Sim.engine Sim.cooperative in
  let s := Sim.state_of (Sim.opened true None) in
  let s1 := snd (close_coding_interface (engine := eng) s) in
  Sim.ops (trace s1) = [page_close 3; browser_close 2; botright_close 1]
  /\ all_completed (trace s1)
  /\ released (agent s1)
  /\ close_coding_interface (engine := eng) s1 = (Ok true, s1).
Proof.
  intros eng s s1.
  assert (Hall : all_completed (trace s1)) by (repeat constructor).
  split; [reflexivity|]. split; [exact Hall|].
  exact (proj1 (proj2 (close_is_idempotent (engine := eng)))
           s s1 (trace s1) eq_refl eq_refl Hall).
Defined.

(** When closing the page fails, [_cleanup_browser] stops there:
    [close_coding_interface] returns [True] with the page, the browser and
    the client still held, and a second close tries again. *)
Lemma close_with_failing_page_close_keeps_browser :
  let eng := Sim.engine Sim.stuck_page in
  let s := Sim.state_of (Sim.opened true None) in
  let first := close_coding_interface (engine := eng) s in
  let second := close_coding_interface (engine := eng) (snd first) in
  fst first = Ok true
  /\ agent (snd first) = mkAgent (Some 1) (Some 2) (Some 3) false None None
  /\ Sim.ops (trace (snd first)) = [page_close 3]
  /\ fst second = Ok true
  /\ Sim.ops (trace (snd second)) = [page_close 3; page_close 3].
Proof. repeat split. Qed.

(** C6, on the code: when the site cannot be reached, and when the setup
    fails, [open_coding_interface] returns [False] and leaves the client, the
    browser and the page it created open: no closing call is made. *)
Lemma open_failure_leaves_browser_open :
  let unreachable := Sim.engine Sim.unreachable in
  let cooperative := Sim.engine Sim.cooperative in
  let s := Sim.state_of new_agent in
  let nav := codex_open_coding_interface (engine := unreachable) s in
  let setup := codex_open_coding_interface (engine := cooperative) s in
  (fst nav = Ok false
   /\ agent (snd nav) = mkAgent (Some 1) (Some 2) (Some 3) false None None
   /\ Sim.ops (trace (snd nav)) = Sim.failed_navigation_calls)
  /\ (fst setup = Ok false
      /\ agent (snd setup) = mkAgent (Some 1) (Some 2) (Some 3) false None None
      /\ Sim.ops (trace (snd setup)) = Sim.failed_setup_calls).
Proof. vm_compute. repeat split. Qed.

(** When the stop button appears and never goes away, the wait for its
    disappearance fails after 1200 seconds; [_wait_for_completion] returns
    normally all the same, and the task of which it is part ends with
    [success = True]. *)
Lemma indicator_timeout_is_swallowed :
  let eng := Sim.engine Sim.busy_forever in
  let s := Sim.state_of (Sim.opened true None) in
  let run := _wait_for_completion (engine := eng) s in
  fst run = Ok tt
  /\ trace (snd run) = Sim.busy_forever_run
  /\ exists response,
      fst (codex_execute_prompt (engine := eng) "fix" s) = Ok response
      /\ success response = true.
Proof.
  repeat split. eexists. split; [vm_compute; reflexivity|reflexivity].
Qed.

Lemma indicator_monitor_always_declares_completion_witness :
  let eng := Sim.engine Sim.busy_forever in
  let s := Sim.state_of (Sim.opened true None) in
  page (agent s) = Some 3
  /\ delays_complete (engine := eng)
  /\ exists s' seen,
      _wait_for_completion (engine := eng) s = (Ok tt, s')
      /\ agent s' = agent s
      /\ trace s' = (trace s ++ seen ++ [Ev (wait_for_timeout 3 2000) (Done tt)])%list
      /\ indicator_outcome 3 seen.
Proof.
  intros eng s.
  assert (Hd : delays_complete (engine := eng)) by (intros h ms w; reflexivity).
  split; [reflexivity|]. split; [exact Hd|].
  exact (proj1 (indicator_monitor_always_declares_completion (engine := eng))
           s 3 eq_refl Hd).
Defined.

(** A URL of another host that merely contains [github.com] yields a
    non-empty name; and with a URL that yields the empty name, the selector
    does not fail by itself: on a page where the row selector for the empty
    name resolves, that row is selected and the setup step succeeds. *)
Lemma empty_name_does_not_stop_selection :
  let eng := Sim.engine Sim.cooperative in
  let s := Sim.state_of (Sim.opened false (Some "https://gitlab.com/acme/widget")) in
  let run := _handle_environments_page (engine := eng) s in
  _extract_repo_name "https://notgithub.com/acme/widget" = "acme/widget"
  /\ _extract_repo_name "https://gitlab.com/acme/widget" = ""
  /\ fst run = Ok true
  /\ Sim.ops (trace (snd run)) = Sim.empty_name_selection_calls.
Proof. vm_compute. repeat split. Qed.

Lemma repo_name_extraction_and_selection_witness :
  let eng := Sim.engine Sim.empty_page in
  let url := "https://gitlab.com/acme/widget" in
  let s := Sim.state_of (Sim.opened false (Some url)) in
  PyStr.contains "github.com" url = false
  /\ _extract_repo_name url = ""
  /\ no_selector_resolves (engine := eng)
  /\ delays_complete (engine := eng)
  /\ exists r s',
      _handle_environments_page (engine := eng) s = (r, s')
      /\ (r = Ok false \/ exists m, r = Raise (PlaywrightError m)).
Proof.
  intros eng url s.
  pose proof (repo_name_extraction_and_selection (engine := eng))
    as (_ & Hempty & Hfail).
  assert (Hno : no_selector_resolves (engine := eng)).
  { intros h selector [[|]|] timeout w; eexists; reflexivity. }
  assert (Hd : delays_complete (engine := eng)) by (intros h ms w; reflexivity).
  split; [reflexivity|].
  split; [apply Hempty; reflexivity|].
  split; [exact Hno|]. split; [exact Hd|].
  apply (Hfail s 3 url); [reflexivity|reflexivity|reflexivity|exact Hno|exact Hd].
Defined.

Lemma sim_time_passes (pf : Sim.Profile) :
  time_passes (engine := Sim.engine pf) Sim.time.
Proof.
  split; [|split].
  - intros w. cbn. lia.
  - intros o w.
    destruct o; cbn; unfold Sim.tick;
      repeat match goal with
             | |- context [match ?x with _ => _ end] => destruct x
             end;
      cbn; lia.
  - intros h ms w. cbn. lia.
Qed.

Lemma content_stability_monitor_witness :
  let quiet_page := Sim.engine Sim.finished_page in
  let blank := Sim.engine Sim.empty_page in
  let s := Sim.state_of (Sim.opened true None) in
  let done := _monitor_output_changes (engine := quiet_page) "codex"
                ".task-row-container a" 10 60000 s in
  (fst done = Ok tt
   /\ exists pre e c t0 post t,
       trace (snd done)
       = (trace s ++ pre
            ++ [Ev (text_content e) (Done (Some c)); clock_read t0]
            ++ post ++ [clock_read t])%list
       /\ steady c post
       /\ (stable_content_duration_ms <= t - t0)%Z
       /\ (100 < String.length c)%nat)
  /\ time_passes (engine := blank) Sim.time
  /\ delays_complete (engine := blank)
  /\ output_stays_short (engine := blank)
  /\ exists s',
      _monitor_output_changes (engine := blank) "codex"
        ".task-row-container a" 3001 3000 s
      = (Raise (AgentTimeoutException "codex" 3
                                      "Web agent processing timed out"), s').
Proof.
  intros quiet_page blank s done.
  pose proof (content_stability_monitor (engine := quiet_page))
    as (Honly & _).
  pose proof (content_stability_monitor (engine := blank))
    as (_ & Htimeout & _).
  assert (Htm : time_passes (engine := blank) Sim.time)
    by apply sim_time_passes.
  assert (Hd : delays_complete (engine := blank))
    by (intros h ms w; reflexivity).
  assert (Hshort : output_stays_short (engine := blank)).
  { intros e w v H. cbn in H. inversion H. cbn. lia. }
  split; [split; [reflexivity|]|].
  - apply (Honly "codex" ".task-row-container a" 10%nat 60000%Z s (snd done)).
    reflexivity.
  - split; [exact Htm|]. split; [exact Hd|]. split; [exact Hshort|].
    apply (Htimeout "codex" ".task-row-container a" Sim.time 3 3001%nat
                    3000%Z s Htm Hd Hshort eq_refl).
    cbn. lia.
Defined.

(** C8, on the code: after an [open_coding_interface] that returned [False]
    because the setup failed, the ready flag is down and the page is still
    open; [OpenAICodexAgent.execute_prompt] then fills the prompt in and
    clicks the Code button all the same, and the task ends with
    [success = True]. *)
Lemma codex_prompt_is_submitted_after_failed_setup :
  let eng := Sim.engine Sim.cooperative in
  let opened := codex_open_coding_interface (engine := eng)
                  (Sim.state_of new_agent) in
  let s0 := snd opened in
  let run := codex_execute_prompt (engine := eng) "fix" s0 in
  fst opened = Ok false
  /\ _is_browser_ready (agent s0) = false
  /\ page (agent s0) = Some 3
  /\ firstn 16 (skipn (length (trace s0)) (Sim.ops (trace (snd run))))
     = Sim.submission_calls
  /\ exists response, fst run = Ok response /\ success response = true.
Proof.
  repeat split. eexists. split; [vm_compute; reflexivity|reflexivity].
Qed.

Lemma best_effort_steps_do_not_fail_the_task_witness :
  let eng := Sim.engine Sim.cooperative in
  let s := Sim.state_of (Sim.opened true None) in
  let s1 := snd (_send_prompt (engine := eng) "fix" s) in
  let s2 := snd (_open_created_task (engine := eng) s1) in
  let s3 := snd (_wait_for_completion (engine := eng)
                   (snd (_focus_chat_input (engine := eng) s2))) in
  _send_prompt (engine := eng) "fix" s = (Ok tt, s1)
  /\ _open_created_task (engine := eng) s1 = (Ok true, s2)
  /\ exists output_content pr_url,
      fst (_extract_output_content (engine := eng) s3) = Ok output_content
      /\ _extract_pr_url (engine := eng)
           (snd (_try_create_pr (engine := eng)
                   (snd (_extract_output_content (engine := eng) s3))))
         = (Ok pr_url, snd (codex_execute_prompt (engine := eng) "fix" s))
      /\ fst (codex_execute_prompt (engine := eng) "fix" s)
         = Ok (compose_response output_content pr_url)
      /\ success (compose_response output_content pr_url) = true
      /\ error_message (compose_response output_content pr_url) = None
      /\ captured (content (compose_response output_content pr_url))
         = (PyStr.truthy_opt output_content, PyStr.truthy_opt pr_url).
Proof.
  intros eng s s1 s2 s3.
  split; [reflexivity|]. split; [reflexivity|].
  exact (proj1 (proj2 (proj2 (proj2 (proj2
           (best_effort_steps_do_not_fail_the_task (engine := eng))))))
           "fix" s s1 s2 s3 eq_refl eq_refl eq_refl).
Defined.

(** The Codex agent opens its interface for a signed-in user: the setup it
    passes leaves the attributes alone, and the agent ends up ready, holding
    the page it opened. *)
Lemma open_reports_true_only_when_ready_witness :
  let eng := Sim.engine signed_in in
  let s := Sim.state_of fresh_agent in
  tame (codex_setup_web_interface (engine := eng))
  /\ exists s',
      codex_open_coding_interface (engine := eng) s = (Ok true, s')
      /\ _is_browser_ready (agent s') = true
      /\ page (agent s') = Some 3
      /\ is_coding_agent_open s' = (Ok true, s').
Proof.
  intros eng s.
  split; [apply tame_codex_setup|].
  destruct (open_reports_true_only_when_ready (engine := eng)
              codex_web_url codex_setup_web_interface
              (tame_codex_setup (engine := eng)) s)
    as (b & s' & Hrun & _ & _ & Htrue).
  assert (Hb : b = true /\ page (agent s') = Some 3).
  { vm_compute in Hrun. inversion Hrun. subst. split; reflexivity. }
  destruct Hb as [-> Hpage].
  destruct (Htrue eq_refl) as (Hready & _ & Hopen & _).
  exists s'. repeat split; assumption.
Defined.

(** The extraction on an SSH URL with a dotted name, a [.git] suffix and a
    trailing slash. *)
Lemma well_formed_repo_urls_are_read_back_witness :
  _extract_repo_name "ssh://git@github.com:rust-lang/rust.vim.git/"
  = "rust-lang/rust.vim"%string.
Proof.
  exact (well_formed_repo_urls_are_read_back
           "ssh://git@" ":" "rust-lang" "rust.vim" ".git/"
           eq_refl (or_intror eq_refl) eq_refl eq_refl eq_refl eq_refl).
Defined.

(** A task that ends with a PR link and no output text: the response is a
    success, its content has the line of the PR link and no output section,
    and its status line is the one that names both. *)
Lemma pr_link_without_output_is_reported :
  let eng := Sim.engine pr_without_output in
  let s := Sim.state_of (Sim.opened true None) in
  exists response,
    fst (codex_execute_prompt (engine := eng) "fix" s) = Ok response
    /\ success response = true
    /\ error_message response = None
    /\ content response
       = ("Task completed successfully with output and PR created."
            ++ nl ++ nl
            ++ "PR created: https://github.com/acme/widget/pull/7")%string
    /\ captured (content response) = (false, true).
Proof.
  eexists. split; [vm_compute; reflexivity|]. repeat split.
Qed.
